(** * The streaming session pipeline of [server/qwen_tts_proxy/app.py]

    A shallow embedding of the voice bridge: conversational memory and its
    trim operation, the synthesis bridge worker with its flush policy, the
    PCM consumer loops with their resampling step, and the WebSocket
    connection state machine.  Python values are modelled as follows:

    - [str] is a sequence of Unicode code points ([text]), so that [len]
      counts code points as it does in Python;
    - [bytes] is [list byte];
    - [int] is [Z];
    - an exception is a value of [exn]; code that may raise returns a sum;
    - objects mutated in place (the message list of a device, the session
      object of a connection, the queue of a bridge) are threaded explicitly;
    - what lives outside the file (the JSON decoder, [audioop.ratecv], the
      provider's client, the process environment) is a field of a record
      that the definitions take as an argument. *)

From Stdlib Require Import ZArith NArith List Bool Ascii String Lia.
From Stdlib.Init Require Import Byte.
From stdpp Require Import base option list strings gmap.
Import ListNotations.

#[local] Set Warnings "-register-all".
#[local] Open Scope Z_scope.

(** ** Python helpers *)

Module Py.

(** A Python [str]: its code points, in order. *)
Definition text : Type := list N.

(** The literal of an ASCII string constant of the source. *)
Definition str (s : string) : text :=
  List.map N_of_ascii (list_ascii_of_string s).

Definition len {A : Type} (l : list A) : Z := Z.of_nat (List.length l).

(** Truth value of a sequence: empty is false. *)
Definition truthy {A : Type} (l : list A) : bool :=
  match l with [] => false | _ :: _ => true end.

(** [x or default] on a sequence. *)
Definition or_else {A : Type} (l default : list A) : list A :=
  if truthy l then l else default.

(** [str.isspace] for one code point: the characters [str.strip()]
    removes when called without argument. *)
Definition isspace (c : N) : bool :=
  ((9 <=? c) && (c <=? 13) || (28 <=? c) && (c <=? 32)
   || (c =? 133) || (c =? 160) || (c =? 5760)
   || (8192 <=? c) && (c <=? 8202)
   || (c =? 8232) || (c =? 8233) || (c =? 8239) || (c =? 8287)
   || (c =? 12288))%N.

Fixpoint lstrip (t : text) : text :=
  match t with
  | c :: t' => if isspace c then lstrip t' else t
  | [] => []
  end.

Definition rstrip (t : text) : text := rev (lstrip (rev t)).

(** [t.strip()] *)
Definition strip (t : text) : text := rstrip (lstrip t).

(** [l[start:]] with Python's treatment of negative and oversized
    indices. *)
Definition slice_from {A : Type} (start : Z) (l : list A) : list A :=
  let n := len l in
  let i := if start <? 0 then Z.max (start + n) 0 else Z.min start n in
  skipn (Z.to_nat i) l.

(** [l[:stop]] *)
Definition slice_to {A : Type} (stop : Z) (l : list A) : list A :=
  let n := len l in
  let j := if stop <? 0 then Z.max (stop + n) 0 else Z.min stop n in
  firstn (Z.to_nat j) l.

Definition text_eqb (a b : text) : bool := bool_decide (a = b).

(** [t.endswith(suffix)] *)
Definition endswith (t suffix : text) : bool :=
  text_eqb (skipn (List.length t - List.length suffix) t) suffix.

(** [t.endswith((s1, ..., sn))] *)
Definition endswith_any (t : text) (suffixes : list text) : bool :=
  existsb (endswith t) suffixes.

(** [''.join(parts)] *)
Definition join (parts : list text) : text := List.concat parts.

End Py.

Import Py.

(** ** Exceptions *)

Inductive exn : Type :=
| RuntimeError (msg : string)
| HTTPException (status : Z)
| ValueError
| TypeError
| AttributeError
| WaveError
| StructError
| JSONDecodeError
| RecursionError
| AudioopError
| QueueFull
| ProviderError (code : Z).

(** A Python [float]: the finite value [m * 2^e], an infinity, or not a
    number. *)
Inductive pyfloat : Type :=
| Finite (m e : Z)
| Infinity (negative : bool)
| NaN.

(** What [json.loads] returns.  An object is the list of its items; a
    number written without fraction and exponent is an [int] ([JNum]), any
    other number a [float], and so are the literals [NaN], [Infinity] and
    [-Infinity], which [json.loads] accepts although they are no JSON. *)
Inductive json : Type :=
| JNull
| JBool (b : bool)
| JNum (n : Z)
| JFloat (f : pyfloat)
| JStr (t : text)
| JArr (items : list json)
| JObj (fields : list (text * json)).

(** The state tuple of [audioop.ratecv] for one channel. *)
Definition ratecv_state : Type := (Z * (Z * Z))%type.

(** What the file imports and calls but does not define. *)
Record externals : Type := Externals {
  (** [json.loads]: the value, or the exception it raises, which is
      [JSONDecodeError] for a text it cannot parse, and another one
      otherwise ([RecursionError] for a document nested too deeply,
      [ValueError] for an integer literal with too many digits). *)
  json_loads : text -> exn + json;
  (** [audioop.ratecv(fragment, width, nchannels, inrate, outrate, state)] *)
  ratecv : list byte -> Z -> Z -> Z -> Z -> option ratecv_state ->
           exn + (list byte * ratecv_state);
  (** whether [import dashscope] succeeded *)
  dashscope_installed : bool;
  (** whether [AudioFormat] has the member [PCM_<sr>HZ_MONO_16BIT] *)
  has_audio_format : Z -> bool
}.

(** ** Conversational memory *)

Module Memory.

Inductive role : Type := System | User | Assistant.

(** One entry [{"role": ..., "content": ...}] of a message list. *)
Record turn : Type := Turn { turn_role : role; turn_content : text }.

(** [_trim_session(msgs, keep)]: the list that [msgs] holds afterwards. *)
Definition _trim_session (msgs : list turn) (keep : Z) : list turn :=
  if len msgs <=? 1 + keep then msgs
  else
    let system := firstn 1 msgs in
    let tail := slice_from (- keep) msgs in
    system ++ tail.

(** The default of [QWEN_SYSTEM_PROMPT]. *)
Definition DEFAULT_SYSTEM_PROMPT : text :=
  [20320; 26159; 19968; 20010; 31616; 27905; 12289; 21451; 22909; 30340;
   35821; 38899; 21161; 25163; 12290; 29992; 21475; 35821; 21270; 30340;
   20013; 25991; 22238; 31572; 12290; 35831; 25511; 21046; 22312; 32;
   49; 45; 50; 32; 21477; 20869; 65292; 23613; 37327; 19981; 36229;
   36807; 32; 50; 53; 32; 20010; 27721; 23383; 65292; 36866; 21512;
   30452; 25509; 26391; 35835; 12290]%N.

Definition device_key (device_id : text) : text :=
  or_else (strip (or_else device_id (str "default"))) (str "default").

(** [_session(device_id)] over the store [_SESSIONS] (device identifier to
    message list): the key under which the list lives, the list, and the
    store after a missing list has been created. *)
Definition _session (system_prompt : text) (device_id : text)
    (store : gmap text (list turn)) : text * list turn * gmap text (list turn) :=
  let key := device_key device_id in
  match store !! key with
  | Some msgs => (key, msgs, store)
  | None =>
      let msgs := [Turn System system_prompt] in
      (key, msgs, <[key := msgs]> store)
  end.

End Memory.

(** ** The synthesis bridge *)

Module Bridge.

Import Memory.

(** *** The handle shared by worker, callback and consumer *)

(** [queue.Queue(maxsize=256)] *)
Definition MAXSIZE : nat := 256.

(** [out_q] holds chunks and, as end marker, [None]; [stop_evt] is the
    cancellation signal; [cb_error] is [cb.error]. *)
Record bridge : Type := MkBridge {
  out_q : list (option (list byte));
  stop_evt : bool;
  cb_error : option exn
}.

Definition fresh : bridge :=
  {| out_q := []; stop_evt := false; cb_error := None |}.

(** [q.put(item, timeout=...)] decided on the queue as it stands when the
    timeout expires: [None] stands for [queue.Full]. *)
Definition q_put (q : list (option (list byte))) (item : option (list byte))
    : option (list (option (list byte))) :=
  if (List.length q <? MAXSIZE)%nat then Some (q ++ [item]) else None.

(** An event delivered by the provider.  The payload of an audio delta is
    absent or empty ([None]), fails to decode, or decodes to bytes. *)
Inductive tts_event : Type :=
| AudioDelta (payload : option (exn + list byte))
| SessionFinished
| OtherEvent.

(** [_RealtimeTtsCallback.on_event] *)
Definition on_event (b : bridge) (response : tts_event) : bridge :=
  if stop_evt b then b
  else
    match response with
    | AudioDelta None => b
    | AudioDelta (Some (inl e)) =>
        {| out_q := out_q b; stop_evt := true; cb_error := Some e |}
    | AudioDelta (Some (inr chunk)) =>
        match q_put (out_q b) (Some chunk) with
        | Some q => {| out_q := q; stop_evt := stop_evt b; cb_error := cb_error b |}
        | None => {| out_q := out_q b; stop_evt := true; cb_error := Some QueueFull |}
        end
    | SessionFinished =>
        {| out_q := out_q b; stop_evt := true; cb_error := cb_error b |}
    | OtherEvent => b
    end.

(** What the other threads do to the handle while the worker runs: the
    provider delivers an event, or the consumer takes the head of the
    queue. *)
Inductive action : Type :=
| Deliver (response : tts_event)
| Take.

Definition act (b : bridge) (a : action) : bridge :=
  match a with
  | Deliver response => on_event b response
  | Take => {| out_q := tl (out_q b); stop_evt := stop_evt b; cb_error := cb_error b |}
  end.

Definition acts (b : bridge) (schedule : list action) : bridge :=
  fold_left act schedule b.

(** *** The provider seen from the worker *)

Inductive call : Type :=
| Construct
| Connect
| UpdateSession
| AppendText (t : text)
| Finish
| Close
| ChatStream
| Chat.

(** The outcome of every request of one worker run: [None] is a normal
    return, [Some e] raises [e].  [p_append k] is the outcome of the
    [k]-th call of [append_text]; the reply stream yields [llm_stream] and
    then ends normally or raises; [llm_chat] is the result of the
    non-streaming [_qwen_chat]. *)
Record provider : Type := Provider {
  p_construct : option exn;
  p_connect : option exn;
  p_update : option exn;
  p_append : nat -> option exn;
  p_finish : option exn;
  p_close : option exn;
  llm_stream : list text;
  llm_stream_end : option exn;
  llm_chat : exn + text
}.

(** *** The worker's monad: a log of requests, the message list, and
    exceptions *)

Record wstate : Type := WState {
  calls : list call;
  msgs : list turn
}.

Definition M (A : Type) : Type := wstate -> (exn + A) * wstate.

Definition ret {A : Type} (a : A) : M A := fun s => (inr a, s).

Definition raise {A : Type} (e : exn) : M A := fun s => (inl e, s).

Definition bind {A B : Type} (m : M A) (k : A -> M B) : M B :=
  fun s =>
    match m s with
    | (inr a, s') => k a s'
    | (inl e, s') => (inl e, s')
    end.

(** [try: m  except Exception: h] *)
Definition try_except {A : Type} (m : M A) (h : exn -> M A) : M A :=
  fun s =>
    match m s with
    | (inr a, s') => (inr a, s')
    | (inl e, s') => h e s'
    end.

Definition request (c : call) (outcome : option exn) : M unit :=
  fun s =>
    let s' := {| calls := calls s ++ [c]; msgs := msgs s |} in
    match outcome with
    | Some e => (inl e, s')
    | None => (inr tt, s')
    end.

Definition set_msgs (f : list turn -> list turn) : M unit :=
  fun s => (inr tt, {| calls := calls s; msgs := f (msgs s) |}).

Definition is_append (c : call) : bool :=
  match c with AppendText _ => true | _ => false end.

(** The number of [append_text] requests issued so far. *)
Definition appends (s : wstate) : nat :=
  List.length (List.filter is_append (calls s)).

(** [client.append_text(t)] *)
Definition append_text (p : provider) (t : text) : M unit :=
  fun s => request (AppendText t) (p_append p (appends s)) s.

#[local] Notation "x <-- m ;; k" := (bind m (fun x => k))
  (at level 100, m at next level, right associativity).
#[local] Notation "m ;;; k" := (bind m (fun _ => k))
  (at level 100, right associativity).

(** *** The flush policy *)

(** The suffixes tested by [pending.endswith(...)]: the ideographic full
    stop, the fullwidth exclamation and question marks, [!], [?] and the
    line feed. *)
Definition TERMINATORS : list text :=
  [[12290%N]; [65281%N]; [65311%N]; [33%N]; [63%N]; [10%N]].

(** The test of the [if] inside the reply loop. *)
Definition should_flush (sent_any : bool) (pending : text) : bool :=
  (negb sent_any && (8 <=? len pending))
  || (24 <=? len pending)
  || endswith_any pending TERMINATORS.

(** The local variables of the reply loop. *)
Record vars : Type := Vars {
  assistant_text_parts : list text;
  pending : text;
  sent_any : bool
}.

Definition init_vars : vars :=
  {| assistant_text_parts := []; pending := []; sent_any := false |}.

(** One iteration of [for delta in _qwen_chat_stream(...)]. *)
Definition flush_step (p : provider) (v : vars) (delta : text) : M vars :=
  let parts := assistant_text_parts v ++ [delta] in
  let pend := pending v ++ delta in
  if should_flush (sent_any v) pend then
    append_text p pend ;;;
    ret {| assistant_text_parts := parts; pending := []; sent_any := true |}
  else
    ret {| assistant_text_parts := parts; pending := pend; sent_any := sent_any v |}.

(** The [for] loop over the fragments the reply stream yields, followed by
    the way the stream ends. *)
Fixpoint reply_loop (p : provider) (deltas : list text) (v : vars) : M vars :=
  match deltas with
  | [] =>
      match llm_stream_end p with
      | Some e => raise e
      | None => ret v
      end
  | delta :: rest => v' <-- flush_step p v delta ;; reply_loop p rest v'
  end.

(** [_qwen_chat(...)] *)
Definition chat (p : provider) : M text :=
  request Chat None ;;;
  match llm_chat p with
  | inl e => raise e
  | inr full => ret full
  end.

(** The fallback sentence. *)
Definition FALLBACK : text :=
  [25105; 24819; 20102; 19968; 19979; 65292; 20294; 19981; 30693; 36947;
   24590; 20040; 22238; 31572; 12290]%N.

(** *** The worker *)

(** The [try] block of [_run]. *)
Definition body (p : provider) (keep : Z) : M unit :=
  request Construct (p_construct p) ;;;
  request Connect (p_connect p) ;;;
  request UpdateSession (p_update p) ;;;
  v <-- try_except
          (request ChatStream None ;;; reply_loop p (llm_stream p) init_vars)
          (fun _ =>
             full <-- chat p ;;
             ret {| assistant_text_parts := [full]; pending := full;
                    sent_any := false |}) ;;
  (if truthy (pending v) then append_text p (pending v) else ret tt) ;;;
  let full_text := strip (join (assistant_text_parts v)) in
  full_text <-- (if truthy full_text then ret full_text
                 else append_text p FALLBACK ;;; ret FALLBACK) ;;
  set_msgs (fun m => m ++ [Turn Assistant full_text]) ;;;
  set_msgs (fun m => _trim_session m keep) ;;;
  request Finish (p_finish p) ;;;
  (* stop_evt.wait(timeout=120) returns whether or not the event is set *)
  ret tt.

(** The [except] clause of [_run], applied to the handle when the [try]
    block has raised. *)
Definition except_clause (r : exn + unit) (b : bridge) : bridge :=
match r with
| inl e => {| out_q := out_q b; stop_evt := true; cb_error := Some e |}
| inr _ => b
end.

(** [out_q.put(None, timeout=1)] inside [try: ... except Exception: pass]. *)
Definition put_end_marker (b : bridge) : bridge :=
match q_put (out_q b) None with
| Some q => {| out_q := q; stop_evt := stop_evt b; cb_error := cb_error b |}
| None => b
end.

(** The handle as the final [put] finds it.  [during] is what the other
    threads do to the handle until the [try] block is left, [closing] what
    they do from then until the [put] of the end marker returns or times
    out. *)
Definition before_put (r : exn + unit) (during closing : list action)
    (b : bridge) : bridge :=
acts (except_clause r (acts b during)) closing.

(** [_run]: the [try] block, the [except] clause and the [finally] clause
    ([client.close()] when the client exists, its exception swallowed, then
    the end marker). *)
Definition _run (p : provider) (keep : Z) (msgs0 : list turn)
    (during closing : list action) (b : bridge) : bridge * wstate :=
let '(r, s) := body p keep {| calls := []; msgs := msgs0 |} in
let s' :=
  match p_construct p with
  | None => {| calls := calls s ++ [Close]; msgs := msgs s |}
  | Some _ => s
  end in
(put_end_marker (before_put r during closing b), s').

(** [_audio_format_for_pcm]: the sample rate of the format it returns. *)
Definition _audio_format_for_pcm (x : externals) (sample_rate : Z) : exn + Z :=
  if negb (dashscope_installed x) then inl (RuntimeError "dashscope is not installed")
  else
    let sr := if sample_rate =? 0 then 24000 else sample_rate in
    if has_audio_format x sr then inr sr
    else if has_audio_format x 24000 then inr 24000
    else inl (RuntimeError "Unsupported AudioFormat").

(** [_qwen_chat_to_realtime_tts_pcm_stream] up to the start of the thread:
    the negotiated rate it returns and the [keep_turns] the worker uses.
    [max_turns] is [int(os.getenv("QWEN_MAX_TURNS", "12"))], [None] when
    the conversion raises. *)
Definition _qwen_chat_to_realtime_tts_pcm_stream (x : externals)
    (target_sample_rate : Z) (max_turns : option Z) : exn + (Z * Z) :=
  if negb (dashscope_installed x) then inl (RuntimeError "dashscope import failed")
  else
    let target_sr := if target_sample_rate =? 0 then 16000 else target_sample_rate in
    match _audio_format_for_pcm x target_sr with
    | inl e => inl e
    | inr requested_sr =>
        match max_turns with
        | None => inl ValueError
        | Some keep_turns => inr (requested_sr, keep_turns)
        end
    end.

End Bridge.

(** ** The consumer side: even length, resampling, the HTTP stream *)

Module Pcm.

(** [if len(chunk) % 2 == 1: chunk = chunk[:-1]] *)
Definition even_length (chunk : list byte) : list byte :=
  if len chunk mod 2 =? 1 then slice_to (-1) chunk else chunk.

(** [target_sr and in_sr and target_sr != in_sr] *)
Definition needs_resample (target_sr in_sr : Z) : bool :=
  negb (target_sr =? 0) && negb (in_sr =? 0) && negb (target_sr =? in_sr).

Inductive outcome : Type :=
| Skipped
| Ready (chunk : list byte)
| Failed (e : exn).

(** What the loop body does with one chunk taken from the queue: the
    outcome, the resample state afterwards, and the argument handed to
    [audioop.ratecv] when it was called. *)
Record handled : Type := Handled {
  h_outcome : outcome;
  h_state : option ratecv_state;
  h_fed : option (list byte)
}.

(** The body shared by [_iter_pcm] and the forwarding loop of
    [_ws_handle_listen_stop], from [if not chunk: continue] to the point
    where the chunk is sent. *)
Definition process_chunk (x : externals) (target_sr in_sr : Z)
    (chunk : list byte) (state : option ratecv_state) : handled :=
  if negb (truthy chunk) then Handled Skipped state None
  else
    let chunk := even_length chunk in
    if negb (truthy chunk) then Handled Skipped state None
    else if needs_resample target_sr in_sr then
      match ratecv x chunk 2 1 in_sr target_sr state with
      | inl e => Handled (Failed e) state (Some chunk)
      | inr (chunk', state') =>
          if negb (truthy chunk') then Handled Skipped (Some state') (Some chunk)
          else Handled (Ready chunk') (Some state') (Some chunk)
      end
    else Handled (Ready chunk) state None.

Definition opt_cons {A : Type} (o : option A) (l : list A) : list A :=
  match o with Some a => a :: l | None => l end.

(** How the generator stands once the given items have been taken:
    finished after the end marker (and [stop_evt.set()]), raised, or
    waiting in [out_q.get()]. *)
Inductive ending : Type :=
| Finished
| Raised (e : exn)
| Waiting.

Record stream : Type := Stream {
  yielded : list (list byte);
  fed : list (list byte);
  final_state : option ratecv_state;
  ended : ending
}.

(** [_iter_pcm] of [chat_pcm] run on the successive results of
    [out_q.get()], from resample state [state]. *)
Fixpoint iter_from (x : externals) (target_sr in_sr : Z)
    (items : list (option (list byte))) (state : option ratecv_state) : stream :=
  match items with
  | [] => Stream [] [] state Waiting
  | None :: _ => Stream [] [] state Finished
  | Some chunk :: rest =>
      let h := process_chunk x target_sr in_sr chunk state in
      match h_outcome h with
      | Failed e => Stream [] (opt_cons (h_fed h) []) (h_state h) (Raised e)
      | Skipped =>
          let r := iter_from x target_sr in_sr rest (h_state h) in
          Stream (yielded r) (opt_cons (h_fed h) (fed r)) (final_state r) (ended r)
      | Ready chunk' =>
          let r := iter_from x target_sr in_sr rest (h_state h) in
          Stream (chunk' :: yielded r) (opt_cons (h_fed h) (fed r))
                 (final_state r) (ended r)
      end
  end.

(** [_iter_pcm]: [state = None] on entry. *)
Definition _iter_pcm (x : externals) (target_sr in_sr : Z)
    (items : list (option (list byte))) : stream :=
  iter_from x target_sr in_sr items None.

End Pcm.

(** ** The WebSocket connection *)

Module Ws.

Import Memory.

(** [session.state]: ["idle"], ["listening"], ["speaking"]. *)
Inductive phase : Type := Idle | Listening | Speaking.

(** [class WsSession].  [audio_buffer] is the content of the [BytesIO];
    [sample_rate] holds whatever value the handshake carried. *)
Record WsSession : Type := MkSession {
  session_id : text;
  device_id : text;
  audio_buffer : list byte;
  sample_rate : json;
  state : phase;
  stop_speaking : bool
}.

(** [WsSession(session_id)] followed by the assignment of the device
    identifier taken from the headers. *)
Definition new_session (sid device : text) : WsSession :=
  {| session_id := sid; device_id := device; audio_buffer := [];
     sample_rate := JNum 16000; state := Idle; stop_speaking := false |}.

Definition set_state (s : WsSession) (p : phase) : WsSession :=
  {| session_id := session_id s; device_id := device_id s;
     audio_buffer := audio_buffer s; sample_rate := sample_rate s;
     state := p; stop_speaking := stop_speaking s |}.

Definition set_stop_speaking (s : WsSession) (f : bool) : WsSession :=
  {| session_id := session_id s; device_id := device_id s;
     audio_buffer := audio_buffer s; sample_rate := sample_rate s;
     state := state s; stop_speaking := f |}.

Definition set_audio_buffer (s : WsSession) (b : list byte) : WsSession :=
  {| session_id := session_id s; device_id := device_id s;
     audio_buffer := b; sample_rate := sample_rate s;
     state := state s; stop_speaking := stop_speaking s |}.

Definition set_sample_rate (s : WsSession) (r : json) : WsSession :=
  {| session_id := session_id s; device_id := device_id s;
     audio_buffer := audio_buffer s; sample_rate := r;
     state := state s; stop_speaking := stop_speaking s |}.

Definition is_listening (s : WsSession) : bool :=
  match state s with Listening => true | _ => false end.

(** The JSON messages the server sends. *)
Inductive server_msg : Type :=
| Hello (sid : text) (rate : Z)
| Stt (sid : text) (user_text : text)
| TtsStart (sid : text)
| TtsStop (sid : text).

(** A WAV file: the frame rate of its header and its frames (one channel,
    two bytes per sample). *)
Record wav : Type := Wav { framerate : Z; frames : list byte }.

(** What a handler does to the outside, in order: JSON and binary frames
    handed to the socket (with the result of [_ws_send_audio]), the
    transcription request, the start of a bridge, a call of
    [audioop.ratecv], and [stop_evt.set()]. *)
Inductive effect : Type :=
| SendJson (m : server_msg)
| SendAudio (pcm_bytes : list byte) (ok : bool)
| Asr (wav_bytes : wav)
| StartBridge (target_sr : Z)
| Resample (fragment : list byte)
| SetStopEvt.

(** [round(f)] for a finite float [m * 2^e]: to the nearest integer, a
    tie to the even one. *)
Definition round_half_even (m e : Z) : Z :=
  if 0 <=? e then m * 2 ^ e
  else
    let d := 2 ^ (- e) in
    let q := m / d in
    let r := m mod d in
    if 2 * r <? d then q
    else if d <? 2 * r then q + 1
    else if Z.even q then q else q + 1.

(** What [wf.setframerate(sample_rate)] leaves in the writer: the frame
    rate [int(round(sample_rate))], or [None] when it raised (a value that
    is no number or not above zero, a float that is not finite). *)
Definition setframerate (rate : json) : option Z :=
  match rate with
  | JNum n => if 0 <? n then Some n else None
  | JBool true => Some 1
  | JFloat (Finite m e) => if 0 <? m then Some (round_half_even m e) else None
  | _ => None
  end.

(** [_pcm_to_wav(pcm_bytes, sample_rate)].  When [setframerate] raised, or
    left the rate [0], the writer has no frame rate and [close], called on
    leaving the [with] block, raises [wave.Error], which is the exception
    that escapes; a rate whose byte rate does not fit the 32 bits of the
    header makes [struct.pack] raise. *)
Definition _pcm_to_wav (pcm_bytes : list byte) (rate : json) : exn + wav :=
  match setframerate rate with
  | None => inl WaveError
  | Some n =>
      if n =? 0 then inl WaveError
      else if n <=? 2147483647 then inr (Wav n pcm_bytes)
      else inl StructError
  end.

(** *** The forwarding loop *)

(** The result of [out_q.get(timeout=0.1)]: [queue.Empty], together with
    what [stop_evt.is_set()] then answers, or an item. *)
Inductive got : Type :=
| Empty (stop_is_set : bool)
| Item (item : option (list byte)).

(** What one iteration of the loop meets: the result of the [get], and
    whether the send succeeds.  Nothing else runs on the session while the
    handler is awaited, so the flag is what it was at the previous test. *)
Record poll : Type := Poll {
  taken : got;
  send_ok : bool
}.

(** [_ws_handle_abort] *)
Definition _ws_handle_abort (s : WsSession) : WsSession :=
  set_stop_speaking s true.

(** [_ws_handle_listen_start] *)
Definition _ws_handle_listen_start (s : WsSession) (mode : json) : WsSession :=
  set_state (set_audio_buffer s []) Listening.

(** How the [while] loop stands after the given polls: left through its
    test or a [break], left by an exception, or still running. *)
Inductive loop_end : Type :=
| Left
| Threw (e : exn)
| Running.

Record forwarded : Type := Forwarded {
  f_session : WsSession;
  f_trace : list effect;
  f_end : loop_end
}.

Definition after (es : list effect) (r : forwarded) : forwarded :=
  Forwarded (f_session r) (es ++ f_trace r) (f_end r).

Definition fed_effect (o : option (list byte)) : list effect :=
  match o with Some c => [Resample c] | None => [] end.

(** [while not session.stop_speaking: ...] *)
Fixpoint forward (x : externals) (target_sr in_sr : Z) (polls : list poll)
    (s : WsSession) (rstate : option ratecv_state) : forwarded :=
  match polls with
  | [] => Forwarded s [] Running
  | p :: rest =>
      if stop_speaking s then Forwarded s [] Left
      else
        match taken p with
        | Empty true => Forwarded s [] Left
        | Empty false => forward x target_sr in_sr rest s rstate
        | Item None => Forwarded s [] Left
        | Item (Some chunk) =>
            let h := Pcm.process_chunk x target_sr in_sr chunk rstate in
            match Pcm.h_outcome h with
            | Pcm.Failed e => Forwarded s (fed_effect (Pcm.h_fed h)) (Threw e)
            | Pcm.Skipped =>
                after (fed_effect (Pcm.h_fed h))
                      (forward x target_sr in_sr rest s (Pcm.h_state h))
            | Pcm.Ready chunk' =>
                if send_ok p then
                  after (fed_effect (Pcm.h_fed h) ++ [SendAudio chunk' true])
                        (forward x target_sr in_sr rest s (Pcm.h_state h))
                else
                  Forwarded s (fed_effect (Pcm.h_fed h) ++ [SendAudio chunk' false])
                            Left
            end
        end
  end.

(** *** The handlers *)

(** What the process and the collaborators answer while one message is
    handled. *)
Record world : Type := World {
  (** [_env("DASHSCOPE_API_KEY")]; [None] when missing or blank *)
  api_key : option text;
  (** [int(os.getenv("QWEN_TTS_SAMPLE_RATE", "16000"))]; [None] when
      the conversion raises *)
  tts_sample_rate : option Z;
  (** [int(os.getenv("QWEN_MAX_TURNS", "12"))] *)
  max_turns : option Z;
  (** [os.getenv("QWEN_SYSTEM_PROMPT", ...)] *)
  system_prompt : text;
  (** the result of [_qwen_asr] *)
  asr : exn + text;
  (** the provider as the bridge worker meets it *)
  reply : Bridge.provider;
  (** what the iterations of the forwarding loop meet *)
  polls : list poll
}.

(** How a handler or the receive loop stands: it returned, an exception
    left it, or it is still inside the forwarding loop. *)
Inductive status : Type :=
| Returned
| Escaped (e : exn)
| Forwarding.

Record result : Type := Result {
  r_session : WsSession;
  r_store : gmap text (list turn);
  r_trace : list effect;
  r_status : status
}.

(** The message list after the worker thread of a bridge has run its
    [try] block on it. *)
Definition worker_memory (p : Bridge.provider) (keep : Z) (msgs0 : list turn)
    : list turn :=
  Bridge.msgs (snd (Bridge.body p keep (Bridge.WState [] msgs0))).

(** The end of [_ws_handle_listen_stop], from the [try] around the bridge
    to the return: start the bridge, forward its chunks, cancel it, announce
    the end of synthesis and go idle.  [key] and [msgs] are the entry of the
    store that holds the conversation.  The worker thread mutates the list
    held in the store; its effect is applied when the thread is started, the
    handler does not read the list afterwards. *)
Definition stream_reply (x : externals) (w : world) (target_sr : Z)
    (s : WsSession) (store : gmap text (list turn)) (key : text)
    (msgs : list turn) : result :=
  let stop := [SendJson (TtsStop (session_id s))] in
  match Bridge._qwen_chat_to_realtime_tts_pcm_stream x target_sr (max_turns w) with
  | inl _ => Result (set_state s Idle) store stop Returned
  | inr (in_sr, keep_turns) =>
      let store := <[key := worker_memory (reply w) keep_turns msgs]> store in
      let f := forward x target_sr in_sr (polls w) s None in
      match f_end f with
      | Running =>
          Result (f_session f) store (StartBridge target_sr :: f_trace f) Forwarding
      | Threw _ =>
          Result (set_state (f_session f) Idle) store
                 (StartBridge target_sr :: f_trace f ++ stop) Returned
      | Left =>
          Result (set_state (f_session f) Idle) store
                 (StartBridge target_sr :: f_trace f ++ [SetStopEvt] ++ stop) Returned
      end
  end.

Definition preceded (es : list effect) (r : result) : result :=
  Result (r_session r) (r_store r) (es ++ r_trace r) (r_status r).

(** [_ws_handle_listen_stop] *)
Definition _ws_handle_listen_stop (x : externals) (w : world) (s : WsSession)
    (store : gmap text (list turn)) : result :=
  if negb (is_listening s) then Result s store [] Returned
  else
    let s := set_stop_speaking (set_state s Speaking) false in
    match api_key w with
    | None => Result s store [] (Escaped (RuntimeError "Missing env var"))
    | Some _ =>
    match tts_sample_rate w with
    | None => Result s store [] (Escaped ValueError)
    | Some target_sr =>
    let pcm_bytes := audio_buffer s in
    if len pcm_bytes <? 1600 then Result (set_state s Idle) store [] Returned
    else
    match _pcm_to_wav pcm_bytes (sample_rate s) with
    | inl e => Result s store [] (Escaped e)
    | inr wav_bytes =>
    match asr w with
    | inl _ => Result (set_state s Idle) store [Asr wav_bytes] Returned
    | inr recognised =>
    let user_text := strip recognised in
    if negb (truthy user_text) then
      Result (set_state s Idle) store [Asr wav_bytes] Returned
    else
    let t1 := [Asr wav_bytes; SendJson (Stt (session_id s) user_text)] in
    let '(key, msgs, store) := _session (system_prompt w) (device_id s) store in
    let msgs := msgs ++ [Turn User user_text] in
    let store := <[key := msgs]> store in
    match max_turns w with
    | None => Result s store t1 (Escaped ValueError)
    | Some keep =>
    let msgs := _trim_session msgs keep in
    let store := <[key := msgs]> store in
    preceded (t1 ++ [SendJson (TtsStart (session_id s))])
             (stream_reply x w target_sr s store key msgs)
    end end end end end.

(** *** The receive loop *)

(** What [ws.receive()] returns. *)
Inductive message : Type :=
| Disconnect
| TextFrame (t : text)
| BytesFrame (b : list byte).

(** [d.get(key, default)]; on anything but an object the attribute is
    missing. *)
Definition get (d : json) (key : string) (default : json) : exn + json :=
  match d with
  | JObj fields =>
      match List.find (fun kv => text_eqb (fst kv) (str key)) fields with
      | Some kv => inr (snd kv)
      | None => inr default
      end
  | _ => inl AttributeError
  end.

(** [v == "literal"] *)
Definition is_str (v : json) (literal : string) : bool :=
  match v with JStr t => text_eqb t (str literal) | _ => false end.

(** The branch of the loop body for a decoded control message. *)
Definition control (x : externals) (w : world) (s : WsSession)
    (store : gmap text (list turn)) (data : json) : result :=
  match get data "type" (JStr []) with
  | inl e => Result s store [] (Escaped e)
  | inr msg_type =>
      if is_str msg_type "hello" then
        match get data "audio_params" (JObj []) with
        | inl e => Result s store [] (Escaped e)
        | inr audio_params =>
            match get audio_params "sample_rate" (JNum 16000) with
            | inl e => Result s store [] (Escaped e)
            | inr rate =>
                let s := set_sample_rate s rate in
                match tts_sample_rate w with
                | None => Result s store [] (Escaped ValueError)
                | Some out_rate =>
                    Result s store [SendJson (Hello (session_id s) out_rate)] Returned
                end
            end
        end
      else if is_str msg_type "listen" then
        match get data "state" (JStr []) with
        | inl e => Result s store [] (Escaped e)
        | inr st =>
            if is_str st "start" then
              match get data "mode" (JStr (str "auto")) with
              | inl e => Result s store [] (Escaped e)
              | inr mode => Result (_ws_handle_listen_start s mode) store [] Returned
              end
            else if is_str st "stop" then _ws_handle_listen_stop x w s store
            else Result s store [] Returned
        end
      else if is_str msg_type "abort" then
        Result (_ws_handle_abort s) store [] Returned
      else Result s store [] Returned
  end.

(** How the connection stands between two messages. *)
Inductive link : Type :=
| Receiving
| Closed
| Busy.

(** One turn of [while True] for a message that is not a disconnect. *)
Definition receive (x : externals) (w : world) (s : WsSession)
    (store : gmap text (list turn)) (m : message) : result :=
  match m with
  | Disconnect => Result s store [] Returned
  | TextFrame t =>
      match json_loads x t with
      | inl JSONDecodeError => Result s store [] Returned
      | inl e => Result s store [] (Escaped e)
      | inr data => control x w s store data
      end
  | BytesFrame b =>
      if is_listening s then
        Result (set_audio_buffer s (audio_buffer s ++ b)) store [] Returned
      else Result s store [] Returned
  end.

Record connection : Type := Connection {
  c_session : WsSession;
  c_store : gmap text (list turn);
  c_trace : list effect;
  c_link : link
}.

(** [websocket_endpoint] after [ws.accept()], run on the messages received
    so far, each with the world it is handled in. *)
Fixpoint serve (x : externals) (ms : list (world * message)) (s : WsSession)
    (store : gmap text (list turn)) : connection :=
  match ms with
  | [] => Connection s store [] Receiving
  | (_, Disconnect) :: _ => Connection s store [] Closed
  | (w, m) :: rest =>
      let r := receive x w s store m in
      match r_status r with
      | Returned =>
          let c := serve x rest (r_session r) (r_store r) in
          Connection (c_session c) (c_store c) (r_trace r ++ c_trace c) (c_link c)
      | Escaped _ => Connection (r_session r) (r_store r) (r_trace r) Closed
      | Forwarding => Connection (r_session r) (r_store r) (r_trace r) Busy
      end
  end.

(** [websocket_endpoint]: the session is created idle with an empty
    buffer. *)
Definition websocket_endpoint (x : externals) (sid device : text)
    (ms : list (world * message)) (store : gmap text (list turn)) : connection :=
  serve x ms (new_session sid device) store.

End Ws.

(** ** The wording of the specification *)

Module Spec.

(** A sentence-terminating punctuation mark, in its ASCII form (full stop,
    exclamation mark, question mark) or in its wide form (ideographic full
    stop, fullwidth exclamation and question marks), or a newline. *)
Definition terminator (c : N) : Prop :=
(c = 46 \/ c = 33 \/ c = 63 \/ c = 12290 \/ c = 65281 \/ c = 65311 \/ c = 10)%N.

(** The same marks without the ASCII full stop. *)
Definition flush_mark (c : N) : Prop := terminator c /\ c <> 46%N.

Definition ends_with (mark : N -> Prop) (t : text) : Prop :=
exists t0 c, t = t0 ++ [c] /\ mark c.

(** The decision rule of the flush policy, for a given set of marks. *)
Definition flush_due (mark : N -> Prop) (nothing_flushed : bool) (pending : text)
    : Prop :=
(nothing_flushed = true /\ 8 <= len pending)
\/ 24 <= len pending
\/ ends_with mark pending.

(** The policy run over the increments of a reply, from a pending text and
    the information whether nothing has been flushed yet: the texts that are
    flushed, in order, and where the policy stands after the last
    increment.  After each increment the rule is evaluated on the pending
    text; a flush hands it over and clears it. *)
Inductive policy (mark : N -> Prop)
    : bool -> text -> list text -> list text -> bool -> text -> Prop :=
| policy_done (nothing_flushed : bool) (pending : text) :
    policy mark nothing_flushed pending [] [] nothing_flushed pending
| policy_flush (nothing_flushed : bool) (pending delta : text)
    (rest flushed : list text) (nothing_flushed' : bool) (pending' : text) :
    flush_due mark nothing_flushed (pending ++ delta) ->
    policy mark false [] rest flushed nothing_flushed' pending' ->
    policy mark nothing_flushed pending (delta :: rest)
           ((pending ++ delta) :: flushed) nothing_flushed' pending'
| policy_wait (nothing_flushed : bool) (pending delta : text)
    (rest flushed : list text) (nothing_flushed' : bool) (pending' : text) :
    ~ flush_due mark nothing_flushed (pending ++ delta) ->
    policy mark nothing_flushed (pending ++ delta) rest flushed
           nothing_flushed' pending' ->
    policy mark nothing_flushed pending (delta :: rest) flushed
           nothing_flushed' pending'.

Definition even_bytes (chunk : list byte) : Prop :=
Nat.even (List.length chunk) = true.

(** A converter that, called for one channel of 16-bit samples, returns
    whole samples, as [audioop.ratecv] does. *)
Definition whole_samples (x : externals) : Prop :=
forall fragment inrate outrate state out state',
  ratecv x fragment 2 1 inrate outrate state = inr (out, state') ->
  even_bytes out.

(** Every fragment handed to the converter and every binary frame handed
    to the socket has an even number of bytes. *)
Definition even_audio (e : Ws.effect) : Prop :=
match e with
| Ws.Resample c | Ws.SendAudio c _ => even_bytes c
| _ => True
end.

(** The whitespace of JSON: space, tab, line feed, carriage return. *)
Fixpoint skip_json_whitespace (t : text) : text :=
match t with
| c :: t' =>
    if existsb (N.eqb c) [32; 9; 10; 13]%N then skip_json_whitespace t' else t
| [] => []
end.

(** A JSON text begins, after whitespace, with the first character of a
    value: an opening brace or bracket, a double quote, a minus sign or a
    digit, or the first letter of [true], [false] or [null].  A text that
    does not is not valid JSON. *)
Definition begins_like_json (t : text) : bool :=
match skip_json_whitespace t with
| c :: _ => existsb (N.eqb c) (34%N :: str "{[-0123456789tfn")
| [] => false
end.

(** A message that neither opens nor closes the capture phase: a binary
    frame, a text frame the decoder rejects with [JSONDecodeError], or a
    control message whose type is neither [hello] nor [listen]. *)
Definition quiet (x : externals) (m : Ws.message) : bool :=
match m with
| Ws.BytesFrame _ => true
| Ws.TextFrame t =>
    match json_loads x t with
    | inl JSONDecodeError => true
    | inl _ => false
    | inr data =>
        match Ws.get data "type" (JStr []) with
        | inr ty => negb (Ws.is_str ty "hello") && negb (Ws.is_str ty "listen")
        | inl _ => false
        end
    end
| Ws.Disconnect => false
end.

(** The bytes of the binary frames among the given messages, in arrival
    order. *)
Definition written (ms : list (Ws.world * Ws.message)) : list byte :=
List.concat
  (List.map (fun wm => match snd wm with Ws.BytesFrame b => b | _ => [] end) ms).

End Spec.

(** ** Stand-ins for the externals, for concrete runs *)

Module Fixture.

Import Memory.

(** A decoder that knows the given documents and rejects every other
    text. *)
Definition decoder (table : list (text * json)) (t : text) : exn + json :=
match List.find (fun kv => text_eqb (fst kv) t) table with
| Some kv => inr (snd kv)
| None => inl JSONDecodeError
end.

(** A converter that keeps every other 16-bit sample. *)
Fixpoint decimate (fragment : list byte) : list byte :=
match fragment with
| lo :: hi :: _ :: _ :: rest => lo :: hi :: decimate rest
| _ => []
end.

(** A JSON string literal: the characters between double quotes. *)
Definition quoted (s : string) : text := 34%N :: str s ++ [34%N].

(** The text [{"type":"hello","audio_params":{"sample_rate":16000}}]. *)
Definition hello_16000 : text :=
str "{" ++ quoted "type" ++ str ":" ++ quoted "hello" ++ str ","
  ++ quoted "audio_params" ++ str ":{" ++ quoted "sample_rate" ++ str ":16000}}".

(** The text [{"type":"listen","state":"start"}]. *)
Definition listen_start : text :=
str "{" ++ quoted "type" ++ str ":" ++ quoted "listen" ++ str ","
  ++ quoted "state" ++ str ":" ++ quoted "start" ++ str "}".

(** The text [{"type":"listen","state":"stop"}]. *)
Definition listen_stop : text :=
str "{" ++ quoted "type" ++ str ":" ++ quoted "listen" ++ str ","
  ++ quoted "state" ++ str ":" ++ quoted "stop" ++ str "}".

(** The text [{"type":"abort"}]. *)
Definition abort : text :=
str "{" ++ quoted "type" ++ str ":" ++ quoted "abort" ++ str "}".

(** A text that is no JSON document. *)
Definition garbage : text := str "{type: hello".

Definition documents : list (text * json) :=
[ (hello_16000,
   JObj [(str "type", JStr (str "hello"));
         (str "audio_params", JObj [(str "sample_rate", JNum 16000)])]);
  (listen_start,
   JObj [(str "type", JStr (str "listen")); (str "state", JStr (str "start"))]);
  (listen_stop,
   JObj [(str "type", JStr (str "listen")); (str "state", JStr (str "stop"))]);
  (abort, JObj [(str "type", JStr (str "abort"))]);
  (str "NaN", JFloat NaN) ].

Definition x0 : externals :=
{| json_loads := decoder documents;
   ratecv := fun fragment _ _ _ _ _ => inr (decimate fragment, (0, (0, 0)));
   dashscope_installed := true;
   has_audio_format := fun sr => (sr =? 24000) || (sr =? 16000) |}.

(** A provider that accepts every request and replies with the given
    fragments. *)
Definition willing (fragments : list text) : Bridge.provider :=
{| Bridge.p_construct := None; Bridge.p_connect := None;
   Bridge.p_update := None; Bridge.p_append := fun _ => None;
   Bridge.p_finish := None; Bridge.p_close := None;
   Bridge.llm_stream := fragments; Bridge.llm_stream_end := None;
   Bridge.llm_chat := inr [] |}.

(** The same provider, except that [finish] raises. *)
Definition finish_fails (fragments : list text) : Bridge.provider :=
{| Bridge.p_construct := None; Bridge.p_connect := None;
   Bridge.p_update := None; Bridge.p_append := fun _ => None;
   Bridge.p_finish := Some (ProviderError 1011); Bridge.p_close := None;
   Bridge.llm_stream := fragments; Bridge.llm_stream_end := None;
   Bridge.llm_chat := inr [] |}.

(** The same provider, except that the reply stream raises after the
    fragments and the non-streaming reply is [full]. *)
Definition stream_breaks (fragments : list text) (full : text) : Bridge.provider :=
{| Bridge.p_construct := None; Bridge.p_connect := None;
   Bridge.p_update := None; Bridge.p_append := fun _ => None;
   Bridge.p_finish := None; Bridge.p_close := None;
   Bridge.llm_stream := fragments;
   Bridge.llm_stream_end := Some (HTTPException 502);
   Bridge.llm_chat := inr full |}.

(** The provider delivers [n] audio deltas of one sample each. *)
Definition deltas (n : nat) : list Bridge.action :=
repeat (Bridge.Deliver (Bridge.AudioDelta (Some (inr [x00; x00])))) n.

(** A world with every variable set, a transcription that recognises
    ["hi"], and a bridge that delivers one chunk and the end marker. *)
Definition w0 : Ws.world :=
{| Ws.api_key := Some (str "sk-test");
   Ws.tts_sample_rate := Some 16000;
   Ws.max_turns := Some 12;
   Ws.system_prompt := DEFAULT_SYSTEM_PROMPT;
   Ws.asr := inr (str "hi");
   Ws.reply := willing [str "ok"];
   Ws.polls := [Ws.Poll (Ws.Item (Some [x01; x00; x02; x00])) true;
                Ws.Poll (Ws.Item None) true] |}.

(** What the forwarding loop meets when the bridge delivers three chunks
    and the end marker. *)
Definition three_chunks : list Ws.poll :=
[Ws.Poll (Ws.Item (Some [x01; x00])) true;
 Ws.Poll (Ws.Item (Some [x02; x00])) true;
 Ws.Poll (Ws.Item (Some [x03; x00])) true;
 Ws.Poll (Ws.Item None) true].

(** The world of [w0] at the moment when the forwarding loop has gone
    through the first [n] of these iterations. *)
Definition reply_so_far (n : nat) : Ws.world :=
{| Ws.api_key := Some (str "sk-test");
   Ws.tts_sample_rate := Some 16000;
   Ws.max_turns := Some 12;
   Ws.system_prompt := DEFAULT_SYSTEM_PROMPT;
   Ws.asr := inr (str "hi");
   Ws.reply := willing [str "ok"];
   Ws.polls := firstn n three_chunks |}.

End Fixture.

(** ** More of the file: configuration, the remote calls, the HTTP endpoints *)

(** String operations with a set of characters. *)
Module Str.

Fixpoint lstrip_by (f : N -> bool) (t : text) : text :=
match t with
| c :: t' => if f c then lstrip_by f t' else t
| [] => []
end.

Definition rstrip_by (f : N -> bool) (t : text) : text :=
rev (lstrip_by f (rev t)).

Definition strip_by (f : N -> bool) (t : text) : text :=
rstrip_by f (lstrip_by f t).

Definition one_of (chars : text) (c : N) : bool :=
existsb (N.eqb c) chars.

(** [t.strip(chars)] and [t.rstrip(chars)] *)
Definition strip_chars (chars t : text) : text := strip_by (one_of chars) t.

Definition rstrip_chars (chars t : text) : text := rstrip_by (one_of chars) t.

(** [t.startswith(prefix)] *)
Definition startswith (t prefix : text) : bool :=
text_eqb (firstn (List.length prefix) t) prefix.

(** [needle in t] *)
Fixpoint contains (needle t : text) : bool :=
startswith t needle
|| match t with
   | [] => false
   | _ :: t' => contains needle t'
   end.

(** [str.lower] for one character of a header value, which is decoded as
    Latin-1: the letters [A] to [Z] and the capital letters of the upper
    half. *)
Definition lower_char (c : N) : N :=
(if (65 <=? c) && (c <=? 90) then c + 32
 else if (192 <=? c) && (c <=? 222) && negb (c =? 215) then c + 32
 else c)%N.

Definition lower (t : text) : text := List.map lower_char t.

(** No character of the set at either end. *)
Definition clean (f : N -> bool) (t : text) : Prop :=
(forall c rest, t = c :: rest -> f c = false)
/\ (forall front c, t = front ++ [c] -> f c = false).

End Str.

(** The process environment. *)
Module Config.

(** [os.getenv(name, default)] over the environment as a map. *)
Definition getenv (env : gmap text text) (name : string) (default : text) : text :=
match env !! str name with
| Some v => v
| None => default
end.

(** [_env] *)
Definition _env (env : gmap text text) (name : string) : exn + text :=
let v := strip (getenv env name []) in
if negb (truthy v) then inl (RuntimeError "Missing env var") else inr v.

Definition DEFAULT_DASHSCOPE_TTS_URL : text :=
str "https://dashscope.aliyuncs.com/api/v1/services/aigc/multimodal-generation/generation".

Definition DEFAULT_DASHSCOPE_COMPAT_BASE : text :=
str "https://dashscope.aliyuncs.com/compatible-mode/v1".

Definition DEFAULT_DASHSCOPE_REALTIME_WS_URL : text :=
str "wss://dashscope.aliyuncs.com/api-ws/v1/realtime".

(** [_dashscope_compat_base] *)
Definition _dashscope_compat_base (env : gmap text text) : text :=
Str.rstrip_chars (str "/")
  (getenv env "DASHSCOPE_COMPAT_BASE_URL" DEFAULT_DASHSCOPE_COMPAT_BASE).

(** [_dashscope_tts_url] *)
Definition _dashscope_tts_url (env : gmap text text) : text :=
getenv env "DASHSCOPE_TTS_URL" DEFAULT_DASHSCOPE_TTS_URL.

(** [_dashscope_realtime_ws_url] *)
Definition _dashscope_realtime_ws_url (env : gmap text text) : text :=
strip (getenv env "DASHSCOPE_REALTIME_WS_URL" DEFAULT_DASHSCOPE_REALTIME_WS_URL).

(** The URL [f"{_dashscope_compat_base()}/chat/completions"] of [_qwen_chat]
    and [_qwen_chat_stream]. *)
Definition chat_completions_url (env : gmap text text) : text :=
_dashscope_compat_base env ++ str "/chat/completions".

End Config.

(** The calls to the remote services, run on the responses they receive. *)
Module Remote.

(** Truth value of a decoded JSON value. *)
Definition json_truthy (v : json) : bool :=
match v with
| JNull => false
| JBool b => b
| JNum n => negb (n =? 0)
| JFloat (Finite m _) => negb (m =? 0)
| JFloat _ => true
| JStr t => truthy t
| JArr items => truthy items
| JObj fields => truthy fields
end.

(** [a or b] *)
Definition json_or (a b : json) : json := if json_truthy a then a else b.

(** [v[key]] for a string key; [None] stands for the exception raised when
    [v] is no object or lacks the key. *)
Definition item (v : json) (key : string) : option json :=
match v with
| JObj fields =>
    match List.find (fun kv => text_eqb (fst kv) (str key)) fields with
    | Some kv => Some (snd kv)
    | None => None
    end
| _ => None
end.

(** [v[0]]; [None] stands for the exception raised on an empty sequence, on
    an object (which has no key [0]) and on a value that cannot be
    indexed. *)
Definition first (v : json) : option json :=
match v with
| JArr (a :: _) => Some a
| JStr (c :: _) => Some (JStr [c])
| _ => None
end.

(** [(v or "").strip()]; [None] stands for the exception raised when the
    value is true and no string. *)
Definition stripped (v : json) : option text :=
match json_or v (JStr []) with
| JStr t => Some (strip t)
| _ => None
end.

(** [j["choices"][0]["message"]["content"]] *)
Definition message_content (j : json) : option json :=
match item j "choices" with
| None => None
| Some choices =>
    match first choices with
    | None => None
    | Some choice =>
        match item choice "message" with
        | None => None
        | Some message => item message "content"
        end
    end
end.

(** What [requests.post] returned: the status code and the result of
    [r.json()], [None] when the body is no JSON document. *)
Record response : Type := Response {
  status_code : Z;
  body : option json
}.

(** The tail of [_qwen_chat] and of the fallback of [_qwen_asr]: the
    status check, [r.json()], and the [try] block around the content. *)
Definition completion_text (r : response) : exn + text :=
if negb (status_code r =? 200) then inl (HTTPException 502)
else
  match body r with
  | None => inl ValueError
  | Some j =>
      match message_content j with
      | None => inl (HTTPException 502)
      | Some content =>
          match stripped content with
          | None => inl (HTTPException 502)
          | Some t => inr t
          end
      end
  end.

(** [_qwen_chat], on the outcome of its request. *)
Definition _qwen_chat (post : exn + response) : exn + text :=
match post with
| inl e => inl e
| inr r => completion_text r
end.

(** [_qwen_asr], on the outcome of the transcription request and of the
    chat-completions request it falls back to. *)
Definition _qwen_asr (post fallback : exn + response) : exn + text :=
match post with
| inl e => inl e
| inr r =>
    if status_code r =? 200 then
      match body r with
      | None => inl ValueError
      | Some j =>
          match Ws.get j "text" JNull with
          | inl e => inl e
          | inr a =>
              let v :=
                if json_truthy a then a
                else
                  match Ws.get j "transcript" JNull with
                  | inr b => json_or b (JStr [])
                  | inl _ => JStr []
                  end in
              match v with
              | JStr t =>
                  let recognised := strip t in
                  if negb (truthy recognised) then inl (HTTPException 502)
                  else inr recognised
              | _ => inl AttributeError
              end
          end
      end
    else if (status_code r =? 404) || (status_code r =? 405) then
      match fallback with
      | inl e => inl e
      | inr rr => completion_text rr
      end
    else inl (HTTPException 502)
end.

(** A streamed response: the status code, the lines [r.iter_lines] yields,
    and the exception that ends the iteration when the transport fails
    after them. *)
Record stream_response : Type := StreamResponse {
  s_status_code : Z;
  s_lines : list text;
  s_cut : option exn
}.

(** The payload of a line of the stream, [None] for a line the loop skips
    before it looks at the payload. *)
Definition data_payload (raw : text) : option text :=
if negb (truthy raw) then None
else
  let line := strip raw in
  if negb (Str.startswith line (str "data:")) then None
  else
    let payload := strip (skipn 5 line) in
    if negb (truthy payload) then None else Some payload.

(** The text a payload contributes, [None] when it does not decode, when
    the second [try] block raises, or when the text is empty. *)
Definition delta_text (x : externals) (payload : text) : option text :=
match json_loads x payload with
| inl _ => None
| inr j =>
    match Ws.get j "choices" JNull with
    | inl _ => None
    | inr choices =>
        match first (json_or choices (JArr [])) with
        | None => None
        | Some c =>
            match Ws.get (json_or c (JObj [])) "delta" JNull with
            | inl _ => None
            | inr d =>
                match Ws.get (json_or d (JObj [])) "content" JNull with
                | inl _ => None
                | inr content =>
                    match json_or content (JStr []) with
                    | JStr t =>
                        let fragment := Str.strip_chars [13%N] t in
                        if truthy fragment then Some fragment else None
                    | _ => None
                    end
                end
            end
        end
    end
end.

(** The [for] loop of [_qwen_chat_stream]: the fragments it yields and the
    way the generator ends. *)
Fixpoint sse_loop (x : externals) (lines : list text) (cut : option exn)
    : list text * option exn :=
match lines with
| [] => ([], cut)
| raw :: rest =>
    match data_payload raw with
    | None => sse_loop x rest cut
    | Some payload =>
        if text_eqb payload (str "[DONE]") then ([], None)
        else
          match delta_text x payload with
          | None => sse_loop x rest cut
          | Some fragment =>
              (fragment :: fst (sse_loop x rest cut), snd (sse_loop x rest cut))
          end
    end
end.

(** [_qwen_chat_stream], on the outcome of its request. *)
Definition _qwen_chat_stream (x : externals) (post : exn + stream_response)
    : list text * option exn :=
match post with
| inl e => ([], Some e)
| inr r =>
    if negb (s_status_code r =? 200) then ([], Some (HTTPException 502))
    else sse_loop x (s_lines r) (s_cut r)
end.

(** The provider the bridge worker meets when its client accepts every
    request and the reply service answers with the given responses. *)
Definition provider_of (x : externals) (stream : exn + stream_response)
    (chat : exn + response) : Bridge.provider :=
{| Bridge.p_construct := None; Bridge.p_connect := None;
   Bridge.p_update := None; Bridge.p_append := fun _ => None;
   Bridge.p_finish := None; Bridge.p_close := None;
   Bridge.llm_stream := fst (_qwen_chat_stream x stream);
   Bridge.llm_stream_end := snd (_qwen_chat_stream x stream);
   Bridge.llm_chat := _qwen_chat chat |}.

End Remote.

(** The worker of [_qwen_tts_realtime_pcm_stream], which speaks a text that
    is known in advance. *)
Module TextBridge.

Import Bridge.

(** The [try] block of [_run]. *)
Definition body (p : provider) (t : text) : M unit :=
bind (request Construct (p_construct p)) (fun _ =>
bind (request Connect (p_connect p)) (fun _ =>
bind (request UpdateSession (p_update p)) (fun _ =>
bind (append_text p t) (fun _ =>
bind (request Finish (p_finish p)) (fun _ =>
(* stop_evt.wait(timeout=120) returns whether or not the event is set *)
ret tt))))).

(** [_run]: as in the other worker, the [except] clause, [client.close()]
    when the client exists, and the end marker. *)
Definition _run (p : provider) (t : text) (during closing : list action)
    (b : bridge) : bridge * wstate :=
let '(r, s) := body p t {| calls := []; msgs := [] |} in
let s' :=
  match p_construct p with
  | None => {| calls := calls s ++ [Close]; msgs := msgs s |}
  | Some _ => s
  end in
(put_end_marker (before_put r during closing b), s').

(** [_qwen_tts_realtime_pcm_stream] up to the start of the thread: the
    negotiated rate it returns. *)
Definition _qwen_tts_realtime_pcm_stream (x : externals) (target_sample_rate : Z)
    : exn + Z :=
if negb (dashscope_installed x) then inl (RuntimeError "dashscope import failed")
else
  let target_sr := if target_sample_rate =? 0 then 16000 else target_sample_rate in
  _audio_format_for_pcm x target_sr.

End TextBridge.

(** The endpoints [/chat] and [/chat_pcm]. *)
Module Http.

Import Memory.

(** What the handlers read of a request: two headers, absent or with their
    value, and the body. *)
Record request : Type := Request {
  content_type : option text;
  x_device_id : option text;
  payload : list byte
}.

(** The process and the collaborators while one request is handled. *)
Record world : Type := World {
  env : gmap text text;
  (** [int(os.getenv("QWEN_MAX_TURNS", "12"))]; [None] when the conversion
      raises *)
  max_turns : option Z;
  (** [int(os.getenv("QWEN_TTS_SAMPLE_RATE", "16000"))] *)
  tts_sample_rate : option Z;
  (** the outcome of the two requests of [_qwen_asr] *)
  asr_post : exn + Remote.response;
  asr_fallback : exn + Remote.response;
  (** the outcome of the request of [_qwen_chat] *)
  chat_post : exn + Remote.response;
  (** the result of [_qwen_tts] *)
  tts : exn + list byte
}.

(** The calls a handler makes, in order, with what it passes: the audio to
    transcribe, the messages sent to the reply service, the text to
    synthesise, the target rate of a bridge. *)
Inductive remote_call : Type :=
| CallAsr (wav_bytes : list byte)
| CallChat (messages : list turn)
| CallTts (t : text) (sample_rate : Z)
| CallBridge (messages : list turn) (target_sr : Z).

Record outcome (A : Type) : Type := Outcome {
  o_result : exn + A;
  o_store : gmap text (list turn);
  o_calls : list remote_call
}.

Arguments Outcome {A} _ _ _.
Arguments o_result {A} _.
Arguments o_store {A} _.
Arguments o_calls {A} _.

(** [(req.headers.get(name) or default)] *)
Definition header_or (h : option text) (default : text) : text :=
match h with
| Some v => or_else v default
| None => default
end.

(** The part the two handlers share, up to the body check: the API key, the
    device identifier, the content type, the body.  It returns the device
    identifier. *)
Definition accept (w : world) (req : request) : exn + text :=
match Config._env (env w) "DASHSCOPE_API_KEY" with
| inl e => inl e
| inr _ =>
    let device_id := or_else (strip (header_or (x_device_id req) (str "default")))
                             (str "default") in
    let ct := Str.lower (header_or (content_type req) []) in
    if negb (Str.contains (str "audio/wav") ct) then inl (HTTPException 400)
    else if negb (truthy (payload req)) then inl (HTTPException 400)
    else inr device_id
end.

Definition system_prompt (w : world) : text :=
Config.getenv (env w) "QWEN_SYSTEM_PROMPT" DEFAULT_SYSTEM_PROMPT.

(** [chat]: the WAV it answers with, or the exception that leaves it. *)
Definition chat (w : world) (req : request) (store : gmap text (list turn))
    : outcome (list byte) :=
match accept w req with
| inl e => Outcome (inl e) store []
| inr device_id =>
    let c1 := [CallAsr (payload req)] in
    match Remote._qwen_asr (asr_post w) (asr_fallback w) with
    | inl e => Outcome (inl e) store c1
    | inr recognised =>
        let '(key, msgs, store) := _session (system_prompt w) device_id store in
        let user_text := strip recognised in
        let msgs := msgs ++ [Turn User user_text] in
        let store := <[key := msgs]> store in
        match max_turns w with
        | None => Outcome (inl ValueError) store c1
        | Some keep =>
            let msgs := _trim_session msgs keep in
            let store := <[key := msgs]> store in
            let c2 := c1 ++ [CallChat msgs] in
            match Remote._qwen_chat (chat_post w) with
            | inl e => Outcome (inl e) store c2
            | inr answer =>
                let assistant_text :=
                  if negb (truthy answer) then Bridge.FALLBACK else answer in
                let msgs := _trim_session (msgs ++ [Turn Assistant assistant_text]) keep in
                let store := <[key := msgs]> store in
                match tts_sample_rate w with
                | None => Outcome (inl ValueError) store c2
                | Some sample_rate =>
                    let c3 := c2 ++ [CallTts assistant_text sample_rate] in
                    match tts w with
                    | inl e => Outcome (inl e) store c3
                    | inr wav => Outcome (inr wav) store c3
                    end
                end
            end
        end
    end
end.

(** The streamed answer of [chat_pcm]: the rate its headers announce and the
    rate the bridge delivers. *)
Record pcm_response : Type := PcmResponse {
  announced_rate : Z;
  bridge_rate : Z
}.

(** [chat_pcm] up to the [return]: the bridge is started and the response
    announced. *)
Definition chat_pcm (x : externals) (w : world) (req : request)
    (store : gmap text (list turn)) : outcome pcm_response :=
match accept w req with
| inl e => Outcome (inl e) store []
| inr device_id =>
    let c1 := [CallAsr (payload req)] in
    match Remote._qwen_asr (asr_post w) (asr_fallback w) with
    | inl e => Outcome (inl e) store c1
    | inr recognised =>
        let user_text := strip recognised in
        let '(key, msgs, store) := _session (system_prompt w) device_id store in
        let msgs := msgs ++ [Turn User user_text] in
        let store := <[key := msgs]> store in
        match max_turns w with
        | None => Outcome (inl ValueError) store c1
        | Some keep =>
            let msgs := _trim_session msgs keep in
            let store := <[key := msgs]> store in
            match tts_sample_rate w with
            | None => Outcome (inl ValueError) store c1
            | Some target_sr =>
                match Bridge._qwen_chat_to_realtime_tts_pcm_stream
                        x target_sr (max_turns w) with
                | inl _ => Outcome (inl (HTTPException 501)) store c1
                | inr (in_sr, _) =>
                    Outcome (inr (PcmResponse target_sr in_sr)) store
                            (c1 ++ [CallBridge msgs target_sr])
                end
            end
        end
    end
end.

(** The body of the streamed answer: [_iter_pcm] on what the queue of the
    bridge delivers. *)
Definition pcm_body (x : externals) (r : pcm_response)
    (items : list (option (list byte))) : Pcm.stream :=
Pcm._iter_pcm x (announced_rate r) (bridge_rate r) items.

End Http.

(** What a log or a trace says. *)
Module Observe.

(** The texts handed to [append_text], in order. *)
Definition texts (cs : list Bridge.call) : list text :=
List.concat
  (List.map (fun c => match c with Bridge.AppendText t => [t] | _ => [] end) cs).

(** Everything the synthesis session was given to speak. *)
Definition spoken (cs : list Bridge.call) : text := List.concat (texts cs).

(** The frames handed to the socket, sent or not, in order. *)
Definition audio (trace : list Ws.effect) : list (list byte) :=
List.concat
  (List.map (fun e => match e with Ws.SendAudio c _ => [c] | _ => [] end) trace).

(** The fragments handed to the converter, in order. *)
Definition resampled (trace : list Ws.effect) : list (list byte) :=
List.concat
  (List.map (fun e => match e with Ws.Resample c => [c] | _ => [] end) trace).

(** The JSON messages handed to the socket, in order. *)
Definition notices (trace : list Ws.effect) : list Ws.server_msg :=
List.concat
  (List.map (fun e => match e with Ws.SendJson m => [m] | _ => [] end) trace).

(** A computation of the worker that adds only requests of a given kind to
    the log. *)
Definition only_logs (Q : Bridge.call -> Prop) {A : Type} (m : Bridge.M A) : Prop :=
forall s, Forall Q (Bridge.calls s) -> Forall Q (Bridge.calls (snd (m s))).

(** A request the [try] block of a worker may issue: not [close], and no
    [append_text] of an empty text. *)
Definition sound_request (c : Bridge.call) : Prop :=
c <> Bridge.Close /\ forall t, c = Bridge.AppendText t -> t <> [].

(** The chunks a sequence of provider events carries, in order. *)
Definition delivered (events : list Bridge.tts_event) : list (list byte) :=
List.concat
  (List.map (fun ev => match ev with
                       | Bridge.AudioDelta (Some (inr chunk)) => [chunk]
                       | _ => []
                       end) events).

(** An event that neither ends the session nor fails to decode. *)
Definition ordinary (ev : Bridge.tts_event) : bool :=
match ev with
| Bridge.AudioDelta (Some (inl _)) => false
| Bridge.SessionFinished => false
| _ => true
end.

(** The polls of a forwarding loop that takes the given items one after the
    other, without abort and with every send succeeding. *)
Definition undisturbed (items : list (option (list byte))) : list Ws.poll :=
List.map (fun i => Ws.Poll (Ws.Item i) true) items.

(** How the forwarding loop stands when the generator of the HTTP stream
    stands as given. *)
Definition loop_end_of (e : Pcm.ending) : Ws.loop_end :=
match e with
| Pcm.Finished => Ws.Left
| Pcm.Raised ex => Ws.Threw ex
| Pcm.Waiting => Ws.Running
end.

End Observe.

(** More stand-ins, for concrete runs of the remote calls. *)
Module Samples.

(** The text [{"choices":[{"delta":{"content":"Hi"}}]}]. *)
Definition chunk_hi : text :=
str "{" ++ Fixture.quoted "choices" ++ str ":[{" ++ Fixture.quoted "delta"
  ++ str ":{" ++ Fixture.quoted "content" ++ str ":" ++ Fixture.quoted "Hi"
  ++ str "}}]}".

(** The text [{"choices":[{"delta":{"role":"assistant"}}]}]. *)
Definition chunk_role : text :=
str "{" ++ Fixture.quoted "choices" ++ str ":[{" ++ Fixture.quoted "delta"
  ++ str ":{" ++ Fixture.quoted "role" ++ str ":" ++ Fixture.quoted "assistant"
  ++ str "}}]}".

Definition documents : list (text * json) :=
[ (str "[]", JArr []);
  (chunk_hi,
   JObj [(str "choices",
          JArr [JObj [(str "delta", JObj [(str "content", JStr (str "Hi"))])]])]);
  (chunk_role,
   JObj [(str "choices",
          JArr [JObj [(str "delta", JObj [(str "role", JStr (str "assistant"))])]])]) ].

Definition x1 : externals :=
{| json_loads := Fixture.decoder documents;
   ratecv := ratecv Fixture.x0;
   dashscope_installed := true;
   has_audio_format := has_audio_format Fixture.x0 |}.

(** A completion whose content is the given text. *)
Definition completion (content : text) : Remote.response :=
{| Remote.status_code := 200;
   Remote.body :=
     Some (JObj [(str "choices",
                  JArr [JObj [(str "message",
                               JObj [(str "content", JStr content)])]])]) |}.

(** A transcription response with the given text. *)
Definition transcription (recognised : text) : Remote.response :=
{| Remote.status_code := 200;
   Remote.body := Some (JObj [(str "text", JStr recognised)]) |}.

(** A request with a WAV body from device ["kitchen"]. *)
Definition wav_request : Http.request :=
{| Http.content_type := Some (str "Audio/WAV");
   Http.x_device_id := Some (str " kitchen ");
   Http.payload := [x52; x49; x46; x46] |}.

(** A process with its key set, in which the transcription recognises
    ["hi"] and the reply service answers ["hello"]. *)
Definition http_world : Http.world :=
{| Http.env := {[ str "DASHSCOPE_API_KEY" := str "sk-test" ]};
   Http.max_turns := Some 12;
   Http.tts_sample_rate := Some 16000;
   Http.asr_post := inr (transcription (str " hi "));
   Http.asr_fallback := inl (HTTPException 502);
   Http.chat_post := inr (completion (str "hello "));
   Http.tts := inr [x52; x49; x46; x46] |}.

(** The same process, except that the reply service answers 500. *)
Definition http_world_llm_down : Http.world :=
{| Http.env := Http.env http_world;
   Http.max_turns := Some 12;
   Http.tts_sample_rate := Some 16000;
   Http.asr_post := inr (transcription (str " hi "));
   Http.asr_fallback := inl (HTTPException 502);
   Http.chat_post := inr {| Remote.status_code := 500; Remote.body := None |};
   Http.tts := inr [x52; x49; x46; x46] |}.

End Samples.

(** * Properties *)

(** ** Python helpers *)

Module PyFacts.

Lemma len_app {A : Type} (l k : list A) : len (l ++ k) = len l + len k.
Proof. unfold len. rewrite List.length_app. lia. Qed.

Lemma len_nonneg {A : Type} (l : list A) : 0 <= len l.
Proof. unfold len. lia. Qed.

Lemma truthy_false {A : Type} (l : list A) : truthy l = false <-> l = [].
Proof. destruct l; simpl; split; congruence. Qed.

Lemma text_eqb_eq (a b : text) : text_eqb a b = true <-> a = b.
Proof. unfold text_eqb. apply bool_decide_eq_true. Qed.

(** [l[-k:]] for [0 < k]: the last [k] elements, all of them when the
    list is shorter. *)
Lemma slice_from_neg {A : Type} (k : Z) (l : list A) :
  0 < k -> slice_from (- k) l = skipn (List.length l - Z.to_nat k) l.
Proof.
  intros Hk. unfold slice_from, len.
  destruct (Z.ltb_spec (- k) 0) as [_ | H]; [| lia].
  f_equal. lia.
Qed.

(** [l[-0:]] is [l[0:]]: the whole list. *)
Lemma slice_from_zero {A : Type} (l : list A) : slice_from (- 0) l = l.
Proof. unfold slice_from. simpl. rewrite Z.min_l by apply len_nonneg. reflexivity. Qed.

(** [l[:-1]] on a non-empty list drops exactly its last element. *)
Lemma slice_to_minus_one {A : Type} (l : list A) (a : A) :
  slice_to (-1) (l ++ [a]) = l.
Proof.
  unfold slice_to, len. simpl.
  rewrite List.length_app. simpl.
  replace (Z.to_nat (Z.max (-1 + Z.of_nat (List.length l + 1)) 0)) with (List.length l) by lia.
  rewrite List.firstn_app, List.firstn_all, Nat.sub_diag. simpl.
  apply List.app_nil_r.
Qed.

(** [endswith] with a one-character suffix looks at the last character. *)
Lemma endswith_char (t : text) (c : N) :
  endswith t [c] = true <-> exists t0, t = t0 ++ [c].
Proof.
  unfold endswith. rewrite text_eqb_eq. simpl. split.
  - intros H. exists (firstn (List.length t - 1) t).
    rewrite <- H at 1. symmetry. apply List.firstn_skipn.
  - intros [t0 ->]. rewrite List.length_app. simpl.
    replace (List.length t0 + 1 - 1)%nat with (List.length t0) by lia.
    rewrite List.skipn_app, List.skipn_all, Nat.sub_diag. reflexivity.
Qed.

End PyFacts.

(** ** Conversational memory *)

Module MemoryFacts.

Import Memory PyFacts.

(** For [keep >= 1] the trim keeps a short list as it is and otherwise
    keeps the first message followed by the last [keep] ones. *)
Lemma trim_session_positive_keep (msgs : list turn) (keep : Z) :
  1 <= keep ->
  (len msgs <= keep + 1 -> _trim_session msgs keep = msgs)
  /\ (keep + 1 < len msgs ->
      _trim_session msgs keep =
        firstn 1 msgs ++ skipn (List.length msgs - Z.to_nat keep) msgs
      /\ len (_trim_session msgs keep) = keep + 1)
  /\ head (_trim_session msgs keep) = head msgs
  /\ len (_trim_session msgs keep) <= Z.max (keep + 1) (len msgs).
Proof.
  intros Hk. unfold _trim_session.
  destruct (Z.leb_spec (len msgs) (1 + keep)) as [Hle | Hgt].
  - repeat split; intros; lia.
  - rewrite slice_from_neg by lia.
    assert (Hlen : len (firstn 1 msgs ++ skipn (List.length msgs - Z.to_nat keep) msgs)
                   = keep + 1).
    { unfold len in *. rewrite List.length_app, List.length_firstn, List.length_skipn. lia. }
    repeat split; intros; try lia.
    destruct msgs; reflexivity.
Qed.

(** The last message survives the trim whenever [keep] is not negative. *)
Lemma trim_session_last (msgs : list turn) (t : turn) (keep : Z) :
  0 <= keep -> forall d, List.last (_trim_session (msgs ++ [t]) keep) d = t.
Proof.
  intros Hk d. unfold _trim_session.
  destruct (Z.leb_spec (len (msgs ++ [t])) (1 + keep)) as [Hle | Hgt].
  - apply List.last_last.
  - assert (Hs : exists pre, slice_from (- keep) (msgs ++ [t]) = pre ++ [t]).
    { destruct (Z.eq_dec keep 0) as [-> | Hne].
      - exists msgs. apply slice_from_zero.
      - rewrite slice_from_neg by lia.
        rewrite List.length_app. simpl.
        exists (skipn (List.length msgs + 1 - Z.to_nat keep) msgs).
        rewrite List.skipn_app.
        replace (List.length msgs + 1 - Z.to_nat keep - List.length msgs)%nat with 0%nat by lia.
        reflexivity. }
    destruct Hs as [pre ->]. rewrite List.app_assoc. apply List.last_last.
Qed.

(** C10.  With [keep = 0] and at least two messages, [msgs[-0:]] is the
    whole list: the trim puts a second copy of the first message in front
    of the untouched history, so the list grows by one instead of
    shrinking to one message. *)
Theorem trim_session_keep_zero_grows (sys m : turn) (rest : list turn) :
  _trim_session (sys :: m :: rest) 0 = sys :: sys :: m :: rest
  /\ len (_trim_session (sys :: m :: rest) 0) = len (sys :: m :: rest) + 1
  /\ ~ len (_trim_session (sys :: m :: rest) 0) <= 0 + 1.
Proof.
  assert (H : _trim_session (sys :: m :: rest) 0 = sys :: sys :: m :: rest).
  { unfold _trim_session.
    destruct (Z.leb_spec (len (sys :: m :: rest)) (1 + 0)) as [Hle | _].
    - unfold len in Hle. simpl in Hle. lia.
    - rewrite (slice_from_zero (sys :: m :: rest)). reflexivity. }
  rewrite H. unfold len. simpl. repeat split; lia.
Qed.

End MemoryFacts.

(** ** The synthesis bridge *)

Module BridgeFacts.

Import Memory Bridge PyFacts.

Lemma terminators_spec (t : text) :
  endswith_any t TERMINATORS = true <-> Spec.ends_with Spec.flush_mark t.
Proof.
  unfold endswith_any, Spec.ends_with, Spec.flush_mark, Spec.terminator.
  rewrite List.existsb_exists. split.
  - intros [suffix [Hin Hends]]. simpl in Hin.
    repeat (destruct Hin as [<- | Hin];
            [apply endswith_char in Hends; destruct Hends as [t0 ->];
             eexists t0, _; split; [reflexivity | split; [tauto | discriminate]] |]).
    destruct Hin.
  - intros [t0 [c [-> [Hc Hne]]]]. exists [c]. split.
    + simpl. intuition (subst; tauto).
    + apply endswith_char. eauto.
Qed.

(** The test of the reply loop is the decision rule of the policy, with
    the marks of [TERMINATORS]. *)
Lemma should_flush_spec (sent : bool) (pend : text) :
  should_flush sent pend = true <-> Spec.flush_due Spec.flush_mark (negb sent) pend.
Proof.
  unfold should_flush, Spec.flush_due.
  rewrite !orb_true_iff, andb_true_iff, !Z.leb_le, terminators_spec.
  destruct sent; simpl; intuition congruence.
Qed.

(** What one iteration of the reply loop computes, by the outcome of its
    test. *)
Lemma flush_step_flushes (p : provider) (v : vars) (delta : text) (s : wstate) :
  should_flush (sent_any v) (pending v ++ delta) = true ->
  flush_step p v delta s =
    (match p_append p (appends s) with
     | Some e => inl e
     | None => inr {| assistant_text_parts := assistant_text_parts v ++ [delta];
                      pending := []; sent_any := true |}
     end,
     {| calls := calls s ++ [AppendText (pending v ++ delta)]; msgs := msgs s |}).
Proof.
  intros Hf. unfold flush_step. rewrite Hf.
  unfold bind, append_text, request, ret.
  destruct (p_append p (appends s)); reflexivity.
Qed.

Lemma flush_step_accumulates (p : provider) (v : vars) (delta : text) (s : wstate) :
  should_flush (sent_any v) (pending v ++ delta) = false ->
  flush_step p v delta s =
    (inr {| assistant_text_parts := assistant_text_parts v ++ [delta];
            pending := pending v ++ delta; sent_any := sent_any v |}, s).
Proof. intros Hf. unfold flush_step. rewrite Hf. reflexivity. Qed.

(** The policy determines what is flushed. *)
Lemma policy_unique (mark : N -> Prop) (nothing : bool) (pend : text)
    (deltas out1 out2 : list text) (n1 n2 : bool) (p1 p2 : text) :
  Spec.policy mark nothing pend deltas out1 n1 p1 ->
  Spec.policy mark nothing pend deltas out2 n2 p2 ->
  out1 = out2 /\ n1 = n2 /\ p1 = p2.
Proof.
  intros H1. revert out2 n2 p2.
  induction H1 as [nothing pend
                  | nothing pend delta rest out n' p' Hdue _ IH
                  | nothing pend delta rest out n' p' Hnot _ IH];
    intros out2 n2 p2 H2; inversion H2; subst.
  - repeat split.
  - match goal with H : Spec.policy _ false [] _ _ _ _ |- _ =>
      destruct (IH _ _ _ H) as [-> [-> ->]] end.
    repeat split.
  - contradiction.
  - contradiction.
  - match goal with H : Spec.policy _ _ (_ ++ _) _ _ _ _ |- _ =>
      destruct (IH _ _ _ H) as [-> [-> ->]] end.
    repeat split.
Qed.

(** With a provider that accepts every [append_text], the reply loop runs
    the policy over the fragments: it requests [append_text] for the texts
    the policy flushes, in order, and nothing else. *)
Lemma reply_loop_follows_policy (p : provider) (deltas : list text) (v : vars)
    (s : wstate) :
  (forall k, p_append p k = None) ->
  exists flushed v',
    Spec.policy Spec.flush_mark (negb (sent_any v)) (pending v) deltas flushed
                (negb (sent_any v')) (pending v')
    /\ snd (reply_loop p deltas v s)
       = {| calls := calls s ++ List.map AppendText flushed; msgs := msgs s |}
    /\ fst (reply_loop p deltas v s)
       = match llm_stream_end p with Some e => inl e | None => inr v' end
    /\ assistant_text_parts v' = assistant_text_parts v ++ deltas.
Proof.
  intros Happ. revert v s.
  induction deltas as [| delta rest IH]; intros v s.
  - exists [], v. split; [constructor |]. simpl.
    rewrite !List.app_nil_r. destruct s.
    destruct (llm_stream_end p); repeat split.
  - simpl. unfold bind at 1 2.
    destruct (should_flush (sent_any v) (pending v ++ delta)) eqn:Hf.
    + rewrite (flush_step_flushes _ _ _ _ Hf), Happ.
      destruct (IH (Vars (assistant_text_parts v ++ [delta]) [] true)
                   {| calls := calls s ++ [AppendText (pending v ++ delta)];
                      msgs := msgs s |}) as [out [v' [Hpol [Hsnd [Hfst Hparts]]]]].
      exists ((pending v ++ delta) :: out), v'.
      split; [| split; [| split]].
      * apply Spec.policy_flush; [apply should_flush_spec; exact Hf | exact Hpol].
      * rewrite Hsnd. simpl. rewrite <- List.app_assoc. reflexivity.
      * exact Hfst.
      * rewrite Hparts. simpl. rewrite <- List.app_assoc. reflexivity.
    + rewrite (flush_step_accumulates _ _ _ _ Hf).
      destruct (IH (Vars (assistant_text_parts v ++ [delta]) (pending v ++ delta)
                         (sent_any v)) s) as [out [v' [Hpol [Hsnd [Hfst Hparts]]]]].
      exists out, v'.
      split; [| split; [| split]].
      * apply Spec.policy_wait; [| exact Hpol].
        rewrite <- should_flush_spec. congruence.
      * exact Hsnd.
      * exact Hfst.
      * rewrite Hparts. simpl. rewrite <- List.app_assoc. reflexivity.
Qed.

(** C2, as the code has it: the marks are those of [TERMINATORS], which
    leave the ASCII full stop out.  One iteration of the reply loop, with
    [pend] the pending text after the new fragment has been added: when the
    decision rule holds, exactly one [append_text] request is issued, it
    carries [pend], and once it returns the pending buffer is empty and the
    reply counts as started; when the rule does not hold nothing is
    requested and [pend] stays pending; and the rule does not hold for fewer
    than 8 code points with nothing flushed yet and no mark at the end.  The
    loop evaluates the rule after each fragment: with a provider that
    accepts every [append_text], the requests it adds on any sequence of
    fragments are the [append_text] of exactly the texts the policy flushes,
    in order, and it ends with the pending text and the flag the policy
    ends with. *)
Theorem flush_policy (p : provider) (v : vars) (delta : text) (deltas : list text)
    (s : wstate) :
  let pend := pending v ++ delta in
  let parts := assistant_text_parts v ++ [delta] in
  let r := flush_step p v delta s in
  (Spec.flush_due Spec.flush_mark (negb (sent_any v)) pend ->
     snd r = {| calls := calls s ++ [AppendText pend]; msgs := msgs s |}
     /\ (p_append p (appends s) = None ->
         fst r = inr {| assistant_text_parts := parts; pending := [];
                        sent_any := true |})
     /\ (forall e, p_append p (appends s) = Some e -> fst r = inl e))
  /\ (~ Spec.flush_due Spec.flush_mark (negb (sent_any v)) pend ->
      r = (inr {| assistant_text_parts := parts; pending := pend;
                  sent_any := sent_any v |}, s))
  /\ (sent_any v = false -> len pend < 8 -> ~ Spec.ends_with Spec.flush_mark pend ->
      ~ Spec.flush_due Spec.flush_mark (negb (sent_any v)) pend)
  /\ ((forall k, p_append p k = None) ->
      exists flushed v',
        Spec.policy Spec.flush_mark (negb (sent_any v)) (pending v) deltas flushed
                    (negb (sent_any v')) (pending v')
        /\ (forall flushed2 n2 p2,
              Spec.policy Spec.flush_mark (negb (sent_any v)) (pending v) deltas
                          flushed2 n2 p2 ->
              flushed2 = flushed)
        /\ snd (reply_loop p deltas v s)
           = {| calls := calls s ++ List.map AppendText flushed; msgs := msgs s |}
        /\ fst (reply_loop p deltas v s)
           = match llm_stream_end p with Some e => inl e | None => inr v' end).
Proof.
  intros pend parts r. subst r pend parts.
  assert (Hloop : (forall k, p_append p k = None) ->
            exists flushed v',
              Spec.policy Spec.flush_mark (negb (sent_any v)) (pending v) deltas flushed
                          (negb (sent_any v')) (pending v')
              /\ (forall flushed2 n2 p2,
                    Spec.policy Spec.flush_mark (negb (sent_any v)) (pending v) deltas
                                flushed2 n2 p2 ->
                    flushed2 = flushed)
              /\ snd (reply_loop p deltas v s)
                 = {| calls := calls s ++ List.map AppendText flushed; msgs := msgs s |}
              /\ fst (reply_loop p deltas v s)
                 = match llm_stream_end p with Some e => inl e | None => inr v' end).
  { intros Happ.
    destruct (reply_loop_follows_policy p deltas v s Happ)
      as [flushed [v' [Hpol [Hsnd [Hfst _]]]]].
    exists flushed, v'. split; [exact Hpol |]. split; [| split; assumption].
    intros flushed2 n2 p2 H2.
    destruct (policy_unique _ _ _ _ _ _ _ _ _ _ H2 Hpol) as [Heq _]. exact Heq. }
  destruct (should_flush (sent_any v) (pending v ++ delta)) eqn:Hf.
  - rewrite (flush_step_flushes _ _ _ _ Hf). split; [| split; [| split]].
    + intros _. simpl. split; [reflexivity |].
      split; intros; destruct (p_append p (appends s)); congruence.
    + intros Hn. exfalso. apply Hn. apply should_flush_spec. exact Hf.
    + intros Hs Hlen Hterm [[_ H] | [H | H]]; try lia. contradiction.
    + exact Hloop.
  - rewrite (flush_step_accumulates _ _ _ _ Hf).
    assert (Hn : ~ Spec.flush_due Spec.flush_mark (negb (sent_any v)) (pending v ++ delta)).
    { rewrite <- should_flush_spec. congruence. }
    split; [| split; [| split]].
    + intros H. contradiction.
    + intros _. reflexivity.
    + intros _ _ _. exact Hn.
    + exact Hloop.
Qed.

(** C2, as stated, fails on the ASCII full stop.  It is a sentence-terminating
    mark in its ASCII form, so the stated rule asks for a flush of the
    pending text [Hi.]; the loop keeps it pending and requests nothing. *)
Lemma ascii_full_stop_is_not_flushed :
  let p := Fixture.willing [str "Hi."] in
  Spec.flush_due Spec.terminator true (str "Hi.")
  /\ flush_step p init_vars (str "Hi.") (WState [] [])
     = (inr {| assistant_text_parts := [str "Hi."]; pending := str "Hi.";
               sent_any := false |}, WState [] [])
  /\ reply_loop p (llm_stream p) init_vars (WState [] [])
     = (inr {| assistant_text_parts := [str "Hi."]; pending := str "Hi.";
               sent_any := false |}, WState [] []).
Proof.
  split; [| split; vm_compute; reflexivity].
  right. right. exists (str "Hi"), 46%N. split; [reflexivity |].
  unfold Spec.terminator. tauto.
Qed.

(** The scenario of eight one-character fragments [a] to [h] without a
    terminator: one flush, after the eighth, carrying the eight characters. *)
Example eight_fragments_one_flush :
  let p := Fixture.willing (List.map (fun c => [c]) (str "abcdefgh")) in
  let r := reply_loop p (llm_stream p) init_vars (WState [] []) in
  calls (snd r) = [AppendText (str "abcdefgh")]
  /\ fst r = inr {| assistant_text_parts := List.map (fun c => [c]) (str "abcdefgh");
                    pending := []; sent_any := true |}
  /\ calls (snd (reply_loop p (firstn 7 (llm_stream p)) init_vars (WState [] []))) = [].
Proof. vm_compute. repeat split. Qed.




(** *** The error policy of the worker *)

(** Once the cancellation signal is set, neither the callback nor the
    consumer changes the signal or the error slot. *)
Lemma acts_after_stop (schedule : list action) (b : bridge) :
  stop_evt b = true ->
  stop_evt (acts b schedule) = true /\ cb_error (acts b schedule) = cb_error b.
Proof.
  revert b. induction schedule as [| a rest IH]; intros b Hstop.
  - split; [exact Hstop | reflexivity].
  - unfold acts in *. simpl.
    assert (Hact : stop_evt (act b a) = true /\ cb_error (act b a) = cb_error b).
    { destruct a as [response |]; simpl.
      - unfold on_event. rewrite Hstop. split; [exact Hstop | reflexivity].
      - split; [exact Hstop | reflexivity]. }
    destruct Hact as [H1 H2]. destruct (IH _ H1) as [H3 H4].
    split; [exact H3 | congruence].
Qed.

Lemma put_end_marker_keeps (b : bridge) :
  stop_evt (put_end_marker b) = stop_evt b
  /\ cb_error (put_end_marker b) = cb_error b.
Proof. unfold put_end_marker. destruct (q_put (out_q b) None); split; reflexivity. Qed.

(** A computation whose continuation always raises, raises. *)
Lemma bind_raises {A B : Type} (m : M A) (k : A -> M B) (s : wstate) :
  (forall a s', exists e, fst (k a s') = inl e) ->
  exists e, fst (bind m k s) = inl e.
Proof.
  intros Hk. unfold bind. destruct (m s) as [[e | a] s'].
  - exists e. reflexivity.
  - apply Hk.
Qed.

Lemma finish_failure_raises (p : provider) (keep : Z) (s : wstate) (e : exn) :
  p_finish p = Some e -> exists e', fst (body p keep s) = inl e'.
Proof.
  intros Hf. unfold body.
  do 8 (apply bind_raises; intros).
  unfold bind, request. rewrite Hf. eexists. reflexivity.
Qed.

(** C3, as the code has it.  Whatever the provider does and whatever the
    other threads do to the handle: an exception that leaves the [try] block
    is stored in the error slot and the cancellation signal is set; a
    failure of the constructor, of [connect] or of [update_session] leaves
    the block as it is, and a failing [finish] never lets the block return
    normally; the end marker is appended when the queue holds fewer than 256
    items as the final [put] finds it, and the queue is left as it is, with
    no end marker, when it is full. *)
Theorem worker_error_policy (p : provider) (keep : Z) (msgs0 : list turn)
    (during closing : list action) (b : bridge) :
  let r := fst (body p keep {| calls := []; msgs := msgs0 |}) in
  let b' := fst (_run p keep msgs0 during closing b) in
  let q := out_q (before_put r during closing b) in
  (forall e, r = inl e -> cb_error b' = Some e /\ stop_evt b' = true)
  /\ (forall e, p_construct p = Some e -> r = inl e)
  /\ (forall e, p_construct p = None -> p_connect p = Some e -> r = inl e)
  /\ (forall e, p_construct p = None -> p_connect p = None ->
                p_update p = Some e -> r = inl e)
  /\ (forall e, p_finish p = Some e -> exists e', r = inl e')
  /\ ((List.length q < MAXSIZE)%nat -> out_q b' = q ++ [None])
  /\ ((MAXSIZE <= List.length q)%nat -> out_q b' = q).
Proof.
  intros r b' q.
  assert (Hb' : b' = put_end_marker (before_put r during closing b)).
  { subst b' r. unfold _run.
    destruct (body p keep {| calls := []; msgs := msgs0 |}) as [r0 s0].
    reflexivity. }
  repeat split.
  - rewrite Hb'. destruct (put_end_marker_keeps (before_put r during closing b)) as [_ ->].
    unfold before_put. rewrite H. simpl.
    apply acts_after_stop. reflexivity.
  - rewrite Hb'. destruct (put_end_marker_keeps (before_put r during closing b)) as [-> _].
    unfold before_put. rewrite H. simpl.
    apply acts_after_stop. reflexivity.
  - intros e He. subst r. unfold body, bind, request. rewrite He. reflexivity.
  - intros e Hc He. subst r. unfold body, bind, request. rewrite Hc, He. reflexivity.
  - intros e Hc Hn He. subst r. unfold body, bind, request.
    rewrite Hc, Hn, He. reflexivity.
  - intros e He. apply (finish_failure_raises p keep _ e He).
  - intros Hlt. rewrite Hb'. unfold put_end_marker, q_put. fold q.
    destruct (Nat.ltb_spec (List.length q) MAXSIZE); [reflexivity | lia].
  - intros Hge. rewrite Hb'. unfold put_end_marker, q_put. fold q.
    destruct (Nat.ltb_spec (List.length q) MAXSIZE); [lia | reflexivity].
Qed.

(** C3, as stated, fails: [finish] raises while the queue holds 256 chunks
    that the consumer has not taken; the error is captured and the signal
    set, but the [put] of the end marker times out and the queue ends
    without it, so that a consumer that then drains the queue with
    [out_q.get()] is left waiting. *)
Lemma full_queue_has_no_end_marker :
  let p := Fixture.finish_fails [str "ok"] in
  let b := fst (_run p 12 [] (Fixture.deltas 256) [] fresh) in
  cb_error b = Some (ProviderError 1011)
  /\ stop_evt b = true
  /\ out_q b = repeat (Some [x00; x00]) 256
  /\ ~ In None (out_q b)
  /\ Pcm.ended (Pcm._iter_pcm Fixture.x0 16000 16000 (out_q b)) = Pcm.Waiting.
Proof.
  assert (H : out_q (fst (_run (Fixture.finish_fails [str "ok"]) 12 []
                            (Fixture.deltas 256) [] fresh))
              = repeat (Some [x00; x00]) 256) by (vm_compute; reflexivity).
  cbv zeta. rewrite H. repeat split; try (vm_compute; reflexivity).
  intros Hin. apply List.repeat_spec in Hin. discriminate.
Qed.

End BridgeFacts.

(** ** The consumer side *)

Module PcmFacts.

Import Pcm PyFacts.

Lemma even_bytes_mod (chunk : list byte) :
  Spec.even_bytes chunk <-> len chunk mod 2 = 0.
Proof.
  unfold Spec.even_bytes, len. rewrite Nat.even_spec. split.
  - intros [m Hm]. rewrite Hm, Nat2Z.inj_mul, Z.mul_comm. apply Z_mod_mult.
  - intros Hmod. exists (Z.to_nat (Z.of_nat (List.length chunk) / 2)).
    Z.div_mod_to_equations. lia.
Qed.

(** An even-length chunk passes the length adjustment unchanged. *)
Lemma even_length_fixes_even (chunk : list byte) :
  Spec.even_bytes chunk -> even_length chunk = chunk.
Proof.
  intros He. apply even_bytes_mod in He. unfold even_length.
  rewrite He. reflexivity.
Qed.

(** An odd-length chunk loses its last byte and nothing else. *)
Lemma even_length_drops_last (chunk : list byte) (b : byte) :
  Spec.even_bytes chunk -> even_length (chunk ++ [b]) = chunk.
Proof.
  intros He. apply even_bytes_mod in He. unfold even_length.
  assert (Hodd : len (chunk ++ [b]) mod 2 = 1).
  { rewrite len_app. unfold len in *. simpl.
    Z.div_mod_to_equations. lia. }
  rewrite Hodd. simpl. apply slice_to_minus_one.
Qed.

Lemma even_length_even (chunk : list byte) : Spec.even_bytes (even_length chunk).
Proof.
  destruct (Nat.even (List.length chunk)) eqn:He.
  - rewrite even_length_fixes_even; exact He.
  - destruct (List.exists_last (l := chunk)) as [front [b ->]].
    { intros ->. discriminate. }
    assert (Hf : Spec.even_bytes front).
    { unfold Spec.even_bytes. rewrite List.length_app in He. simpl in He.
      rewrite Nat.add_1_r, Nat.even_succ, <- Nat.negb_even in He.
      destruct (Nat.even (List.length front)); [reflexivity | discriminate]. }
    rewrite even_length_drops_last; exact Hf.
Qed.

Lemma even_length_idempotent (chunk : list byte) :
  even_length (even_length chunk) = even_length chunk.
Proof. apply even_length_fixes_even, even_length_even. Qed.

(** The loop body sees a chunk only through its even-length prefix. *)
Lemma process_chunk_trimmed (x : externals) (target_sr in_sr : Z)
    (chunk : list byte) (state : option ratecv_state) :
  process_chunk x target_sr in_sr (even_length chunk) state
  = process_chunk x target_sr in_sr chunk state.
Proof.
  unfold process_chunk. rewrite even_length_idempotent.
  destruct chunk as [| b rest]; [reflexivity |].
  destruct (truthy (even_length (b :: rest))) eqn:Ht; reflexivity.
Qed.

(** What the loop body hands to the converter has even length. *)
Lemma process_chunk_fed_even (x : externals) (target_sr in_sr : Z)
    (chunk : list byte) (state : option ratecv_state) (c : list byte) :
  h_fed (process_chunk x target_sr in_sr chunk state) = Some c ->
  Spec.even_bytes c.
Proof.
  unfold process_chunk.
  destruct (truthy chunk); simpl; [| discriminate].
  destruct (truthy (even_length chunk)); simpl; [| discriminate].
  destruct (needs_resample target_sr in_sr); simpl; [| discriminate].
  destruct (ratecv x (even_length chunk) 2 1 in_sr target_sr state) as [e | [out st]];
    simpl; [| destruct (truthy out); simpl];
    intros [= <-]; apply even_length_even.
Qed.

(** What the loop body passes on has even length when the converter returns
    whole samples. *)
Lemma process_chunk_ready_even (x : externals) (target_sr in_sr : Z)
    (chunk : list byte) (state : option ratecv_state) (c : list byte) :
  Spec.whole_samples x ->
  h_outcome (process_chunk x target_sr in_sr chunk state) = Ready c ->
  Spec.even_bytes c.
Proof.
  intros Hx. unfold process_chunk.
  destruct (truthy chunk); simpl; [| discriminate].
  destruct (truthy (even_length chunk)); simpl; [| discriminate].
  destruct (needs_resample target_sr in_sr); simpl.
  - destruct (ratecv x (even_length chunk) 2 1 in_sr target_sr state)
      as [e | [out st]] eqn:Hr; simpl; [discriminate |].
    destruct (truthy out); simpl; [| discriminate].
    intros [= <-]. exact (Hx _ _ _ _ _ _ Hr).
  - intros [= <-]. apply even_length_even.
Qed.

(** At equal rates the loop body never calls the converter: it passes the
    chunk on without the odd byte, or skips it when nothing is left. *)
Lemma process_chunk_same_rate (x : externals) (sr : Z) (chunk : list byte)
    (state : option ratecv_state) :
  process_chunk x sr sr chunk state =
    Handled (if truthy (even_length chunk) then Ready (even_length chunk) else Skipped)
            state None.
Proof.
  unfold process_chunk.
  assert (Hn : needs_resample sr sr = false).
  { unfold needs_resample. rewrite Z.eqb_refl, !andb_false_r. reflexivity. }
  rewrite Hn. destruct chunk as [| b tl]; [reflexivity |].
  simpl truthy at 1. cbv iota. simpl negb at 1. cbv iota.
  destruct (truthy (even_length (b :: tl))); reflexivity.
Qed.

Lemma filter_truthy_even (chunks : list (list byte)) :
  Forall Spec.even_bytes chunks ->
  List.filter truthy (List.map even_length chunks) = List.filter truthy chunks.
Proof.
  induction 1 as [| chunk rest He _ IH]; [reflexivity |].
  simpl. rewrite (even_length_fixes_even _ He), IH. reflexivity.
Qed.

Lemma concat_filter_truthy (chunks : list (list byte)) :
  List.concat (List.filter truthy chunks) = List.concat chunks.
Proof.
  induction chunks as [| chunk rest IH]; [reflexivity |].
  destruct chunk as [| b tl]; simpl; rewrite IH; reflexivity.
Qed.

(** C7, as the code has it.  At equal source and target rate, any sequence
    of chunks followed by the end marker is passed on as follows: every
    chunk goes through the length adjustment, what is then empty is
    skipped, and the others are yielded in order; so every non-empty
    even-length chunk is yielded unchanged, an empty chunk is skipped, and
    when all chunks have even length the bytes of the stream are those of
    the input.  The converter is never called and the resample state is the
    one the loop started with. *)
Theorem same_rate_passes_chunks_on (x : externals) (sr : Z)
    (chunks : list (list byte)) (state : option ratecv_state) :
  let r := iter_from x sr sr (List.map Some chunks ++ [None]) state in
  yielded r = List.filter truthy (List.map even_length chunks)
  /\ (forall chunk, Spec.even_bytes chunk -> even_length chunk = chunk)
  /\ (forall chunk, In chunk chunks -> Spec.even_bytes chunk -> chunk <> [] ->
      In chunk (yielded r))
  /\ (Forall Spec.even_bytes chunks ->
      yielded r = List.filter truthy chunks
      /\ List.concat (yielded r) = List.concat chunks)
  /\ fed r = []
  /\ final_state r = state
  /\ ended r = Finished.
Proof.
  cbv zeta.
  assert (H : yielded (iter_from x sr sr (List.map Some chunks ++ [None]) state)
              = List.filter truthy (List.map even_length chunks)
              /\ fed (iter_from x sr sr (List.map Some chunks ++ [None]) state) = []
              /\ final_state (iter_from x sr sr (List.map Some chunks ++ [None]) state)
                 = state
              /\ ended (iter_from x sr sr (List.map Some chunks ++ [None]) state)
                 = Finished).
  { induction chunks as [| chunk rest IH]; simpl; [repeat split |].
    destruct IH as [Hy [Hf [Hs He]]].
    rewrite (process_chunk_same_rate x sr chunk state).
    destruct (truthy (even_length chunk)); simpl;
      repeat split; try assumption.
    rewrite Hy. reflexivity. }
  destruct H as [Hy [Hf [Hs He]]].
  split; [exact Hy |].
  split; [exact even_length_fixes_even |].
  split.
  { intros chunk Hin Heven Hne. rewrite Hy. apply List.filter_In. split.
    - rewrite <- (even_length_fixes_even chunk Heven). apply List.in_map. exact Hin.
    - destruct chunk; [contradiction | reflexivity]. }
  split.
  { intros Hall. rewrite Hy, (filter_truthy_even chunks Hall).
    split; [reflexivity | apply concat_filter_truthy]. }
  repeat split; assumption.
Qed.

(** C7, as stated, fails on the empty chunk: it has even length and is not
    yielded. *)
Lemma empty_chunk_is_not_yielded :
  Spec.even_bytes []
  /\ yielded (_iter_pcm Fixture.x0 16000 16000 [Some []; None]) = []
  /\ yielded (_iter_pcm Fixture.x0 16000 16000 [Some []; None]) <> [[]].
Proof. repeat split. discriminate. Qed.

End PcmFacts.

(** ** The WebSocket connection *)

Module WsFacts.

Import Memory Ws PyFacts.

(** When the loop body returns, the loop goes on with the next message. *)
Lemma serve_step (x : externals) (w : world) (m : message)
    (rest : list (world * message)) (s s' : WsSession)
    (store store' : gmap text (list turn)) (trace : list effect) :
  m <> Disconnect ->
  receive x w s store m = Result s' store' trace Returned ->
  serve x ((w, m) :: rest) s store
  = Connection (c_session (serve x rest s' store'))
               (c_store (serve x rest s' store'))
               (trace ++ c_trace (serve x rest s' store'))
               (c_link (serve x rest s' store')).
Proof.
  intros Hm Hr. simpl. rewrite Hr. simpl.
  destruct m; [congruence | reflexivity | reflexivity].
Qed.

(** A handler that returns without effect leaves the rest of the
    connection as if the message had not arrived. *)
Lemma serve_skips (x : externals) (w : world) (m : message)
    (rest : list (world * message)) (s : WsSession) (store : gmap text (list turn)) :
  m <> Disconnect ->
  receive x w s store m = Result s store [] Returned ->
  serve x ((w, m) :: rest) s store = serve x rest s store.
Proof.
  intros Hm Hr. rewrite (serve_step _ _ _ _ _ _ _ _ _ Hm Hr).
  destruct (serve x rest s store); reflexivity.
Qed.

(** A message the loop body answers with nothing and without a change is
    as good as absent, wherever it arrives. *)
Lemma serve_without (x : externals) (w : world) (m : message)
    (before rest : list (world * message)) (s : WsSession)
    (store : gmap text (list turn)) :
  m <> Disconnect ->
  (forall s0 store0, receive x w s0 store0 m = Result s0 store0 [] Returned) ->
  serve x (before ++ (w, m) :: rest) s store = serve x (before ++ rest) s store.
Proof.
  intros Hm Hr. revert s store.
  induction before as [| [w1 m1] before IH]; intros s store.
  - apply serve_skips; [exact Hm | apply Hr].
  - simpl. destruct m1; [reflexivity | |];
      (destruct (r_status (receive x w1 s store _)); [rewrite IH |..]; reflexivity).
Qed.

(** C4, as the code has it.  A text frame on which [json.loads] raises
    [JSONDecodeError] is dropped: the loop body sends nothing, leaves the
    session and the store as they are and returns to [ws.receive()]; and
    wherever such a frame arrives among the messages of a connection, the
    connection goes on as if it had not arrived. *)
Theorem malformed_json_is_dropped (x : externals) (w : world) (s : WsSession)
    (store : gmap text (list turn)) (t : text)
    (before rest : list (world * message)) :
  json_loads x t = inl JSONDecodeError ->
  receive x w s store (TextFrame t) = Result s store [] Returned
  /\ serve x ((w, TextFrame t) :: rest) s store = serve x rest s store
  /\ serve x (before ++ (w, TextFrame t) :: rest) s store
     = serve x (before ++ rest) s store.
Proof.
  intros Hbad.
  assert (Hr : forall s0 store0,
            receive x w s0 store0 (TextFrame t) = Result s0 store0 [] Returned).
  { intros s0 store0. simpl. rewrite Hbad. reflexivity. }
  split; [apply Hr |].
  split; [apply serve_skips; [discriminate | apply Hr] |].
  apply serve_without; [discriminate | exact Hr].
Qed.

Lemma malformed_json_is_dropped_witness :
  let s := new_session (str "s1") (str "dev") in
  let before := [(Fixture.w0, TextFrame Fixture.hello_16000)] in
  let rest := [(Fixture.w0, TextFrame Fixture.listen_start)] in
  json_loads Fixture.x0 Fixture.garbage = inl JSONDecodeError
  /\ receive Fixture.x0 Fixture.w0 s ∅ (TextFrame Fixture.garbage)
     = Result s ∅ [] Returned
  /\ serve Fixture.x0 ((Fixture.w0, TextFrame Fixture.garbage) :: rest) s ∅
     = serve Fixture.x0 rest s ∅
  /\ serve Fixture.x0 (before ++ (Fixture.w0, TextFrame Fixture.garbage) :: rest) s ∅
     = serve Fixture.x0 (before ++ rest) s ∅.
Proof.
  assert (H : json_loads Fixture.x0 Fixture.garbage = inl JSONDecodeError)
    by (vm_compute; reflexivity).
  split; [exact H |].
  exact (malformed_json_is_dropped Fixture.x0 Fixture.w0
           (new_session (str "s1") (str "dev")) ∅ Fixture.garbage
           [(Fixture.w0, TextFrame Fixture.hello_16000)]
           [(Fixture.w0, TextFrame Fixture.listen_start)] H).
Defined.

(** C4, as stated, fails on the text [NaN].  It is not valid JSON, but
    [json.loads] accepts it and returns the float; the lookup of the message
    type then raises [AttributeError], which leaves the receive loop: the
    connection ends and the next message is not handled. *)
Lemma nan_frame_closes_connection :
  let s := new_session (str "s1") (str "dev") in
  Spec.begins_like_json (str "NaN") = false
  /\ json_loads Fixture.x0 (str "NaN") = inr (JFloat NaN)
  /\ receive Fixture.x0 Fixture.w0 s ∅ (TextFrame (str "NaN"))
     = Result s ∅ [] (Escaped AttributeError)
  /\ serve Fixture.x0 [(Fixture.w0, TextFrame (str "NaN"));
                       (Fixture.w0, TextFrame Fixture.hello_16000)] s ∅
     = Connection s ∅ [] Closed.
Proof. vm_compute. repeat split. Qed.

(** An integer rate that is positive and fits the header gives a WAV of
    that rate with the given frames. *)
Lemma pcm_to_wav_int (pcm_bytes : list byte) (n : Z) :
  0 < n <= 2147483647 -> _pcm_to_wav pcm_bytes (JNum n) = inr (Wav n pcm_bytes).
Proof.
  intros Hn. unfold _pcm_to_wav, setframerate.
  destruct (Z.ltb_spec 0 n); [| lia].
  destruct (Z.eqb_spec n 0); [lia |].
  destruct (Z.leb_spec n 2147483647); [reflexivity | lia].
Qed.

(** Once the capture holds 1600 bytes or more, a listen-stop in a process
    with its variables set hands the captured bytes to the transcription. *)
Lemma long_enough_is_transcribed (x : externals) (w : world) (s : WsSession)
    (store : gmap text (list turn)) (key : text) (rate : Z) (wav_bytes : wav) :
  is_listening s = true ->
  api_key w = Some key ->
  tts_sample_rate w = Some rate ->
  1600 <= len (audio_buffer s) ->
  _pcm_to_wav (audio_buffer s) (sample_rate s) = inr wav_bytes ->
  exists rest, r_trace (_ws_handle_listen_stop x w s store) = Asr wav_bytes :: rest.
Proof.
  intros Hl Hk Hr Hlen Hwav. unfold _ws_handle_listen_stop.
  rewrite Hl, Hk, Hr. cbn [negb audio_buffer set_stop_speaking set_state sample_rate].
  destruct (Z.ltb_spec (len (audio_buffer s)) 1600) as [? | _]; [lia |].
  rewrite Hwav.
  destruct (asr w) as [e | recognised]; [eexists; reflexivity |].
  destruct (truthy (strip recognised)); cbn [negb]; [| eexists; reflexivity].
  destruct (_session _ _ _) as [[k msgs] store'].
  destruct (max_turns w); [| eexists; reflexivity].
  unfold preceded. cbn [r_trace]. eexists. reflexivity.
Qed.

(** C1.  The scenario of the claim on the code: after a handshake that
    declares 16000 Hz and a listen-start, 2000 bytes of silence are written
    and listen-stop arrives.  2000 is not below 1600, so the handler does not
    take the "too short" exit: it hands the 2000 bytes to the transcription
    and runs the whole reply cycle before it goes idle. *)
Theorem short_capture_is_transcribed :
  let silence := repeat x00 2000 in
  let c := websocket_endpoint Fixture.x0 (str "s1") (str "dev")
             [(Fixture.w0, TextFrame Fixture.hello_16000);
              (Fixture.w0, TextFrame Fixture.listen_start);
              (Fixture.w0, BytesFrame silence);
              (Fixture.w0, TextFrame Fixture.listen_stop)] ∅ in
  c_trace c =
    [SendJson (Hello (str "s1") 16000);
     Asr (Wav 16000 silence);
     SendJson (Stt (str "s1") (str "hi"));
     SendJson (TtsStart (str "s1"));
     StartBridge 16000;
     SendAudio [x01; x00; x02; x00] true;
     SetStopEvt;
     SendJson (TtsStop (str "s1"))]
  /\ state (c_session c) = Idle
  /\ c_link c = Receiving.
Proof. vm_compute. repeat split. Qed.

(** *** The forwarding loop *)

(** The loop does not touch the session. *)
Lemma forward_session (x : externals) (target_sr in_sr : Z)
    (polls : list poll) (s : WsSession) (rstate : option ratecv_state) :
  f_session (forward x target_sr in_sr polls s rstate) = s.
Proof.
  revert rstate. induction polls as [| p rest IH]; intros rstate; simpl;
    [reflexivity |].
  destruct (stop_speaking s); [reflexivity |].
  destruct (taken p) as [[|] | [chunk |]]; try reflexivity; [apply IH |].
  destruct (Pcm.h_outcome (Pcm.process_chunk x target_sr in_sr chunk rstate));
    try reflexivity; [apply IH |].
  destruct (send_ok p); [apply IH | reflexivity].
Qed.

Lemma forward_keeps_session (x : externals) (target_sr in_sr : Z)
    (polls : list poll) (s : WsSession) (rstate : option ratecv_state) :
  let s' := f_session (forward x target_sr in_sr polls s rstate) in
  state s' = state s /\ audio_buffer s' = audio_buffer s
  /\ sample_rate s' = sample_rate s /\ session_id s' = session_id s
  /\ device_id s' = device_id s.
Proof. cbv zeta. rewrite forward_session. repeat split. Qed.

(** With the flag clear on entry, the loop is left only through one of its
    [break]s: at the end marker, at an empty queue with the cancellation
    signal set, or at a send that fails.  Its test never ends it. *)
Lemma forward_leaves_by_break (x : externals) (target_sr in_sr : Z)
    (polls : list poll) (s : WsSession) (rstate : option ratecv_state) :
  stop_speaking s = false ->
  f_end (forward x target_sr in_sr polls s rstate) = Left ->
  exists p, In p polls
            /\ (taken p = Item None \/ taken p = Empty true \/ send_ok p = false).
Proof.
  intros Hs. revert rstate.
  induction polls as [| p rest IH]; intros rstate; simpl; [discriminate |].
  rewrite Hs.
  destruct (taken p) as [[|] | [chunk |]] eqn:Ht.
  - intros _. exists p. split; [left; reflexivity | tauto].
  - intros H. destruct (IH _ H) as [q [Hin Hq]]. exists q. split; [right |]; assumption.
  - destruct (Pcm.h_outcome (Pcm.process_chunk x target_sr in_sr chunk rstate)).
    + simpl. intros H. destruct (IH _ H) as [q [Hin Hq]].
      exists q. split; [right |]; assumption.
    + destruct (send_ok p) eqn:Hok.
      * simpl. intros H. destruct (IH _ H) as [q [Hin Hq]].
        exists q. split; [right |]; assumption.
      * intros _. exists p. split; [left; reflexivity | tauto].
    + discriminate.
  - intros _. exists p. split; [left; reflexivity | tauto].
Qed.

(** While a handler is inside the forwarding loop, the receive loop is not
    running: whatever the client sends next is not read. *)
Lemma serve_busy (x : externals) (w : world) (m : message)
    (rest : list (world * message)) (s : WsSession) (store : gmap text (list turn)) :
  r_status (receive x w s store m) = Forwarding ->
  serve x ((w, m) :: rest) s store = serve x [(w, m)] s store.
Proof.
  intros H. simpl. destruct m; [simpl in H; discriminate | |]; rewrite H; reflexivity.
Qed.

(** The listen-stop handler runs its loop with the flag clear, and leaves
    the flag clear. *)
Lemma listen_stop_clears_flag (x : externals) (w : world) (s : WsSession)
    (store : gmap text (list turn)) :
  is_listening s = true ->
  stop_speaking (r_session (_ws_handle_listen_stop x w s store)) = false.
Proof.
  intros Hl. unfold _ws_handle_listen_stop. rewrite Hl. cbn [negb].
  destruct (api_key w); [| reflexivity].
  destruct (tts_sample_rate w) as [target_sr |]; [| reflexivity].
  destruct (len _ <? 1600); [reflexivity |].
  destruct (_pcm_to_wav _ _); [reflexivity |].
  destruct (asr w) as [e | recognised]; [reflexivity |].
  destruct (truthy (strip recognised)); cbn [negb]; [| reflexivity].
  destruct (_session _ _ _) as [[key msgs] store'].
  destruct (max_turns w) as [keep |]; [| reflexivity].
  unfold preceded, stream_reply. cbn [r_session].
  destruct (Bridge._qwen_chat_to_realtime_tts_pcm_stream x target_sr (max_turns w))
    as [e | [in_sr keep_turns]]; [reflexivity |].
  destruct (f_end _); cbn [r_session]; rewrite ?forward_session; reflexivity.
Qed.

(** Every fragment the loop hands to the converter has even length, and so
    has every frame it hands to the socket when the converter returns whole
    samples. *)
Lemma forward_even_audio (x : externals) (target_sr in_sr : Z)
    (polls : list poll) (s : WsSession) (rstate : option ratecv_state) :
  Spec.whole_samples x ->
  Forall Spec.even_audio (f_trace (forward x target_sr in_sr polls s rstate)).
Proof.
  intros Hx. revert rstate.
  induction polls as [| p rest IH]; intros rstate; simpl.
  - constructor.
  - destruct (stop_speaking s); [constructor |].
    destruct (taken p) as [[|] | [chunk |]]; try constructor.
    + apply IH.
    + pose proof (PcmFacts.process_chunk_fed_even x target_sr in_sr chunk rstate) as Hfed.
      pose proof (PcmFacts.process_chunk_ready_even x target_sr in_sr chunk rstate) as Hready.
      assert (Hf : Forall Spec.even_audio
                     (fed_effect (Pcm.h_fed (Pcm.process_chunk x target_sr in_sr chunk rstate)))).
      { destruct (Pcm.h_fed (Pcm.process_chunk x target_sr in_sr chunk rstate)); simpl;
          repeat constructor. simpl. apply Hfed. reflexivity. }
      destruct (Pcm.h_outcome (Pcm.process_chunk x target_sr in_sr chunk rstate)) eqn:Ho;
        simpl.
      * apply Forall_app. split; [exact Hf | apply IH].
      * assert (He : Spec.even_audio (SendAudio chunk0 (send_ok p))).
        { simpl. apply (Hready chunk0 Hx). reflexivity. }
        destruct (send_ok p); simpl.
        -- apply Forall_app. split; [| apply IH].
           apply Forall_app. split; [exact Hf | repeat constructor; exact He].
        -- apply Forall_app. split; [exact Hf | repeat constructor; exact He].
      * exact Hf.
Qed.

(** C5.  The abort handler sets the flag in any state, and the forwarding
    loop tests the flag at every iteration; but the receive loop awaits the
    listen-stop handler, so an abort that the client sends while the reply
    is forwarded is read only after the handler has returned.  In general:
    while a handler is inside the forwarding loop nothing that follows is
    read; the loop does not touch the session; entered with the flag clear
    it is left only by one of its [break]s; and the handler clears the flag
    before the loop and leaves it clear.  On the scenario: a handshake, a
    capture of 2000 bytes, listen-stop, and an abort sent while the bridge
    delivers three chunks.  At every moment of the loop the connection
    stands exactly as without the abort, with the flag clear; all three
    frames are forwarded before the cancellation signal is set and
    synthesis-stop is sent; the trace is the one of the connection without
    abort; and the flag is set only afterwards, on the idle session. *)
Theorem abort_waits_for_the_reply :
  let run (n : nat) (tail : list (world * message)) :=
    websocket_endpoint Fixture.x0 (str "s1") (str "dev")
      ([(Fixture.w0, TextFrame Fixture.hello_16000);
        (Fixture.w0, TextFrame Fixture.listen_start);
        (Fixture.w0, BytesFrame (repeat x00 2000));
        (Fixture.reply_so_far n, TextFrame Fixture.listen_stop)] ++ tail) ∅ in
  let abort := [(Fixture.w0, TextFrame Fixture.abort)] in
  (forall s, stop_speaking (_ws_handle_abort s) = true
             /\ state (_ws_handle_abort s) = state s)
  /\ (forall x w m rest s store,
        r_status (receive x w s store m) = Forwarding ->
        serve x ((w, m) :: rest) s store = serve x [(w, m)] s store)
  /\ (forall x target_sr in_sr polls s rstate,
        f_session (forward x target_sr in_sr polls s rstate) = s)
  /\ (forall x target_sr in_sr polls s rstate,
        stop_speaking s = false ->
        f_end (forward x target_sr in_sr polls s rstate) = Left ->
        exists p, In p polls
                  /\ (taken p = Item None \/ taken p = Empty true
                      \/ send_ok p = false))
  /\ (forall x w s store,
        is_listening s = true ->
        stop_speaking (r_session (_ws_handle_listen_stop x w s store)) = false)
  /\ (forall n, (n < 4)%nat ->
        run n abort = run n []
        /\ c_link (run n abort) = Busy
        /\ stop_speaking (c_session (run n abort)) = false)
  /\ Observe.audio (c_trace (run 1%nat abort)) = [[x01; x00]]
  /\ Observe.audio (c_trace (run 2%nat abort)) = [[x01; x00]; [x02; x00]]
  /\ c_trace (run 4%nat abort) =
       [SendJson (Hello (str "s1") 16000);
        Asr (Wav 16000 (repeat x00 2000));
        SendJson (Stt (str "s1") (str "hi"));
        SendJson (TtsStart (str "s1"));
        StartBridge 16000;
        SendAudio [x01; x00] true;
        SendAudio [x02; x00] true;
        SendAudio [x03; x00] true;
        SetStopEvt;
        SendJson (TtsStop (str "s1"))]
  /\ c_trace (run 4%nat abort) = c_trace (run 4%nat [])
  /\ c_link (run 4%nat abort) = Receiving
  /\ state (c_session (run 4%nat abort)) = Idle
  /\ stop_speaking (c_session (run 4%nat abort)) = true
  /\ stop_speaking (c_session (run 4%nat [])) = false.
Proof.
  cbv zeta.
  split; [intros s; split; reflexivity |].
  split; [intros x w m rest s store; apply serve_busy |].
  split; [intros x target_sr in_sr polls s rstate; apply forward_session |].
  split; [intros x target_sr in_sr polls s rstate; apply forward_leaves_by_break |].
  split; [intros x w s store; apply listen_stop_clears_flag |].
  split.
  { intros n Hn.
    destruct n as [| [| [| [| n]]]]; [| | | | lia];
      (split; [| split]); vm_compute; reflexivity. }
  do 7 (split; [vm_compute; reflexivity |]). vm_compute. reflexivity.
Qed.

(** *** Even length *)

Lemma decimate_even (fragment : list byte) :
  Spec.even_bytes (Fixture.decimate fragment).
Proof.
  assert (H : forall (n : nat) (f : list byte),
            (List.length f <= n)%nat -> Spec.even_bytes (Fixture.decimate f)).
  { induction n as [| n IH]; intros f Hn.
    - destruct f; [reflexivity | simpl in Hn; lia].
    - destruct f as [| a [| b [| c [| d rest]]]]; try reflexivity.
      simpl in Hn. unfold Spec.even_bytes. simpl.
      apply IH. lia. }
  apply (H (List.length fragment)). lia.
Qed.

Lemma fixture_whole_samples : Spec.whole_samples Fixture.x0.
Proof.
  intros fragment inrate outrate st out st' H.
  simpl in H. injection H as <- _. apply decimate_even.
Qed.

Lemma iter_from_trimmed (x : externals) (target_sr in_sr : Z)
    (items : list (option (list byte))) (state : option ratecv_state) :
  Pcm.iter_from x target_sr in_sr (List.map (option_map Pcm.even_length) items) state
  = Pcm.iter_from x target_sr in_sr items state.
Proof.
  revert state. induction items as [| [chunk |] rest IH]; intros state; simpl;
    [reflexivity | | reflexivity].
  rewrite PcmFacts.process_chunk_trimmed.
  destruct (Pcm.h_outcome (Pcm.process_chunk x target_sr in_sr chunk state));
    rewrite ?IH; reflexivity.
Qed.

Lemma iter_from_even (x : externals) (target_sr in_sr : Z)
    (items : list (option (list byte))) (state : option ratecv_state) :
  Spec.whole_samples x ->
  Forall Spec.even_bytes (Pcm.fed (Pcm.iter_from x target_sr in_sr items state))
  /\ Forall Spec.even_bytes (Pcm.yielded (Pcm.iter_from x target_sr in_sr items state)).
Proof.
  intros Hx. revert state.
  induction items as [| [chunk |] rest IH]; intros state; simpl;
    [split; constructor | | split; constructor].
  pose proof (PcmFacts.process_chunk_fed_even x target_sr in_sr chunk state) as Hfed.
  pose proof (PcmFacts.process_chunk_ready_even x target_sr in_sr chunk state) as Hready.
  assert (Hcons : forall l, Forall Spec.even_bytes l ->
            Forall Spec.even_bytes
              (Pcm.opt_cons (Pcm.h_fed (Pcm.process_chunk x target_sr in_sr chunk state)) l)).
  { intros l Hl.
    destruct (Pcm.h_fed (Pcm.process_chunk x target_sr in_sr chunk state)); simpl;
      [constructor; [apply Hfed; reflexivity | exact Hl] | exact Hl]. }
  destruct (Pcm.h_outcome (Pcm.process_chunk x target_sr in_sr chunk state)) eqn:Ho;
    simpl.
  - destruct (IH (Pcm.h_state (Pcm.process_chunk x target_sr in_sr chunk state))) as [H1 H2].
    split; [apply Hcons; exact H1 | exact H2].
  - destruct (IH (Pcm.h_state (Pcm.process_chunk x target_sr in_sr chunk state))) as [H1 H2].
    split; [apply Hcons; exact H1 |].
    constructor; [apply (Hready chunk0 Hx); reflexivity | exact H2].
  - split; [apply Hcons; constructor | constructor].
Qed.

(** What the loop body does with an odd-length chunk, which is a non-empty
    even-length chunk followed by one byte: the converter, when the rates
    differ, is called on the chunk without that byte, and what it returns
    is passed on; at equal rates the chunk without that byte is passed on. *)
Lemma process_chunk_odd (x : externals) (target_sr in_sr : Z)
    (chunk : list byte) (b : byte) (state : option ratecv_state) :
  Spec.even_bytes chunk -> chunk <> [] ->
  Pcm.process_chunk x target_sr in_sr (chunk ++ [b]) state
  = if Pcm.needs_resample target_sr in_sr then
      match ratecv x chunk 2 1 in_sr target_sr state with
      | inl e => Pcm.Handled (Pcm.Failed e) state (Some chunk)
      | inr (chunk', state') =>
          Pcm.Handled (if truthy chunk' then Pcm.Ready chunk' else Pcm.Skipped)
                      (Some state') (Some chunk)
      end
    else Pcm.Handled (Pcm.Ready chunk) state None.
Proof.
  intros He Hne. unfold Pcm.process_chunk.
  rewrite (PcmFacts.even_length_drops_last chunk b He).
  assert (H1 : truthy (chunk ++ [b]) = true) by (destruct chunk; reflexivity).
  assert (H2 : truthy chunk = true) by (destruct chunk; [contradiction | reflexivity]).
  rewrite H1, H2. cbn [negb].
  destruct (Pcm.needs_resample target_sr in_sr); [| reflexivity].
  destruct (ratecv x chunk 2 1 in_sr target_sr state) as [e | [chunk' state']];
    [reflexivity |].
  destruct (truthy chunk'); reflexivity.
Qed.

(** C8.  An odd-length chunk is a chunk of even length followed by one
    byte.  The length adjustment cuts it back to that chunk; the loop body
    then hands exactly that chunk to the converter when the rates differ,
    and passes exactly that chunk on when they are equal, and a chunk of one
    byte is skipped.  The byte is not carried over: the loop body computes
    the same from a chunk and from its even-length prefix, resample state
    included, and so does the whole stream.  In both loops every fragment
    handed to the converter has an even number of bytes, and so has every
    chunk yielded or sent when the converter, called as the code calls it,
    returns whole samples. *)
Theorem odd_byte_is_dropped (x : externals) (target_sr in_sr : Z) :
  Spec.whole_samples x ->
  (forall chunk b, Spec.even_bytes chunk -> Pcm.even_length (chunk ++ [b]) = chunk)
  /\ (forall chunk b state,
        Spec.even_bytes chunk -> chunk <> [] ->
        Pcm.process_chunk x target_sr in_sr (chunk ++ [b]) state
        = if Pcm.needs_resample target_sr in_sr then
            match ratecv x chunk 2 1 in_sr target_sr state with
            | inl e => Pcm.Handled (Pcm.Failed e) state (Some chunk)
            | inr (chunk', state') =>
                Pcm.Handled (if truthy chunk' then Pcm.Ready chunk' else Pcm.Skipped)
                            (Some state') (Some chunk)
            end
          else Pcm.Handled (Pcm.Ready chunk) state None)
  /\ (forall b state,
        Pcm.process_chunk x target_sr in_sr [b] state
        = Pcm.Handled Pcm.Skipped state None)
  /\ (forall chunk state,
        Pcm.process_chunk x target_sr in_sr (Pcm.even_length chunk) state
        = Pcm.process_chunk x target_sr in_sr chunk state)
  /\ (forall items state,
        Pcm.iter_from x target_sr in_sr (List.map (option_map Pcm.even_length) items) state
        = Pcm.iter_from x target_sr in_sr items state)
  /\ (forall items state,
        Forall Spec.even_bytes (Pcm.fed (Pcm.iter_from x target_sr in_sr items state))
        /\ Forall Spec.even_bytes
             (Pcm.yielded (Pcm.iter_from x target_sr in_sr items state)))
  /\ (forall polls s state,
        Forall Spec.even_audio (f_trace (forward x target_sr in_sr polls s state))).
Proof.
  intros Hx.
  split; [intros chunk b He; apply PcmFacts.even_length_drops_last; exact He |].
  split; [intros chunk b state He Hne; apply process_chunk_odd; assumption |].
  split; [intros b state; reflexivity |].
  split; [intros chunk state; apply PcmFacts.process_chunk_trimmed |].
  split; [intros items state; apply iter_from_trimmed |].
  split; [intros items state; apply iter_from_even; exact Hx |].
  intros polls s state. apply forward_even_audio. exact Hx.
Qed.

Lemma odd_byte_is_dropped_witness :
  let x := Fixture.x0 in
  Spec.whole_samples x
  /\ (forall chunk b, Spec.even_bytes chunk -> Pcm.even_length (chunk ++ [b]) = chunk)
  /\ (forall chunk b state,
        Spec.even_bytes chunk -> chunk <> [] ->
        Pcm.process_chunk x 16000 24000 (chunk ++ [b]) state
        = if Pcm.needs_resample 16000 24000 then
            match ratecv x chunk 2 1 24000 16000 state with
            | inl e => Pcm.Handled (Pcm.Failed e) state (Some chunk)
            | inr (chunk', state') =>
                Pcm.Handled (if truthy chunk' then Pcm.Ready chunk' else Pcm.Skipped)
                            (Some state') (Some chunk)
            end
          else Pcm.Handled (Pcm.Ready chunk) state None)
  /\ (forall b state,
        Pcm.process_chunk x 16000 24000 [b] state
        = Pcm.Handled Pcm.Skipped state None)
  /\ (forall chunk state,
        Pcm.process_chunk x 16000 24000 (Pcm.even_length chunk) state
        = Pcm.process_chunk x 16000 24000 chunk state)
  /\ (forall items state,
        Pcm.iter_from x 16000 24000 (List.map (option_map Pcm.even_length) items) state
        = Pcm.iter_from x 16000 24000 items state)
  /\ (forall items state,
        Forall Spec.even_bytes (Pcm.fed (Pcm.iter_from x 16000 24000 items state))
        /\ Forall Spec.even_bytes
             (Pcm.yielded (Pcm.iter_from x 16000 24000 items state)))
  /\ (forall polls s state,
        Forall Spec.even_audio (f_trace (forward x 16000 24000 polls s state))).
Proof.
  split; [exact fixture_whole_samples |].
  apply (odd_byte_is_dropped Fixture.x0 16000 24000). exact fixture_whole_samples.
Defined.

(** An odd-length chunk at a rate that needs conversion: five bytes come in,
    the first four reach the converter, one sample comes out. *)
Example five_bytes_at_24000 :
  let r := Pcm._iter_pcm Fixture.x0 16000 24000
             [Some [x01; x00; x02; x00; x03]; None] in
  Pcm.fed r = [[x01; x00; x02; x00]] /\ Pcm.yielded r = [[x01; x00]]
  /\ Pcm.ended r = Pcm.Finished.
Proof. vm_compute. repeat split. Qed.

(** *** The capture buffer *)

(** What the loop body does with a quiet message: nothing is sent, the store
    stays, and the session changes at most in its abort flag and, for a
    binary frame received while listening, in its buffer. *)
Lemma receive_quiet (x : externals) (w : world) (s : WsSession)
    (store : gmap text (list turn)) (m : message) :
  Spec.quiet x m = true ->
  exists s',
    receive x w s store m = Result s' store [] Returned
    /\ state s' = state s
    /\ audio_buffer s' =
         audio_buffer s ++
         (if is_listening s then match m with BytesFrame b => b | _ => [] end else []).
Proof.
  intros Hq. destruct m as [| t | b]; simpl in *.
  - discriminate.
  - destruct (json_loads x t) as [e | data].
    + destruct e; try discriminate.
      exists s. destruct (is_listening s); rewrite List.app_nil_r; repeat split.
    + unfold control. destruct (get data "type" (JStr [])) as [e | ty]; [discriminate |].
      apply andb_true_iff in Hq. destruct Hq as [Hh Hl].
      apply negb_true_iff in Hh, Hl. rewrite Hh, Hl.
      destruct (is_str ty "abort");
        eexists; (split; [reflexivity |]); simpl;
        destruct (is_listening s); rewrite List.app_nil_r; split; reflexivity.
  - destruct (is_listening s); eexists; (split; [reflexivity |]); simpl.
    + split; reflexivity.
    + rewrite List.app_nil_r. split; reflexivity.
Qed.

(** While the session listens, quiet messages add their binary frames to
    the buffer, in order, and do nothing else. *)
Lemma serve_quiet (x : externals) (ms : list (world * message)) (s : WsSession)
    (store : gmap text (list turn)) :
  Forall (fun wm => Spec.quiet x (snd wm) = true) ms ->
  state s = Listening ->
  let c := serve x ms s store in
  c_link c = Receiving
  /\ state (c_session c) = Listening
  /\ audio_buffer (c_session c) = audio_buffer s ++ Spec.written ms
  /\ c_trace c = []
  /\ c_store c = store.
Proof.
  intros Hall. revert s. induction Hall as [| [w m] rest Hq _ IH]; intros s Hs.
  - simpl. rewrite List.app_nil_r. repeat split. exact Hs.
  - simpl in Hq.
    destruct (receive_quiet x w s store m Hq) as [s' [Hr [Hst Hbuf]]].
    assert (Hl : is_listening s = true) by (unfold is_listening; rewrite Hs; reflexivity).
    rewrite Hl in Hbuf.
    assert (Hs' : state s' = Listening) by congruence.
    specialize (IH s' Hs'). simpl in IH. destruct IH as [H1 [H2 [H3 [H4 H5]]]].
    assert (Hm : m <> Disconnect) by (intros ->; discriminate).
    cbv zeta. rewrite (serve_step _ _ _ _ _ _ _ _ _ Hm Hr).
    cbn [c_link c_session c_trace c_store app].
    repeat split; try assumption.
    rewrite H3, Hbuf. unfold Spec.written. simpl.
    rewrite <- List.app_assoc. reflexivity.
Qed.

(** The handler of listen-stop never leaves the session listening. *)
Lemma listen_stop_leaves_listening (x : externals) (w : world) (s : WsSession)
    (store : gmap text (list turn)) :
  is_listening (r_session (_ws_handle_listen_stop x w s store)) = false.
Proof.
  unfold _ws_handle_listen_stop.
  destruct (is_listening s) eqn:Hl; simpl; [| exact Hl].
  destruct (api_key w); [| reflexivity].
  destruct (tts_sample_rate w) as [target_sr |]; [| reflexivity].
  destruct (len (audio_buffer s) <? 1600); [reflexivity |].
  destruct (_pcm_to_wav (audio_buffer s) (sample_rate s)); [reflexivity |].
  destruct (asr w) as [e | recognised]; [reflexivity |].
  destruct (truthy (strip recognised)); simpl; [| reflexivity].
  destruct (_session _ _ _) as [[key msgs] store'].
  destruct (max_turns w) as [keep |] eqn:Hmax; [| reflexivity].
  unfold preceded, stream_reply. cbn [r_session].
  destruct (Bridge._qwen_chat_to_realtime_tts_pcm_stream x target_sr (max_turns w))
    as [e | [in_sr keep_turns]]; [reflexivity |].
  match goal with |- context [forward ?a ?b ?c ?d ?e ?f] =>
    pose proof (forward_keeps_session a b c d e f) as Hk;
    destruct (f_end (forward a b c d e f)) end;
    try reflexivity.
  simpl in Hk. destruct Hk as [Hk _]. cbn [r_session]. unfold is_listening.
  rewrite Hk. reflexivity.
Qed.

(** C9.  A binary frame received while the session is not listening changes
    nothing; listen-start empties the buffer and makes the session listen;
    from there, binary frames interleaved with messages that neither open
    nor close the capture leave the connection receiving, the session
    listening and the buffer equal to the concatenation of the frames in
    arrival order; these are the bytes the listen-stop handler hands to the
    transcription; and after that handler the session listens no more, so
    later frames are dropped. *)
Theorem capture_buffer_holds_frames (x : externals) :
  (forall w s store b,
     is_listening s = false ->
     receive x w s store (BytesFrame b) = Result s store [] Returned)
  /\ (forall s mode,
        audio_buffer (_ws_handle_listen_start s mode) = []
        /\ state (_ws_handle_listen_start s mode) = Listening)
  /\ (forall s store mode ms,
        Forall (fun wm => Spec.quiet x (snd wm) = true) ms ->
        let c := serve x ms (_ws_handle_listen_start s mode) store in
        c_link c = Receiving
        /\ state (c_session c) = Listening
        /\ audio_buffer (c_session c) = Spec.written ms
        /\ c_trace c = []
        /\ c_store c = store)
  /\ (forall w s store key rate n,
        is_listening s = true ->
        api_key w = Some key -> tts_sample_rate w = Some rate ->
        sample_rate s = JNum n -> 0 < n <= 2147483647 ->
        1600 <= len (audio_buffer s) ->
        exists rest,
          r_trace (_ws_handle_listen_stop x w s store)
          = Asr (Wav n (audio_buffer s)) :: rest)
  /\ (forall w s store,
        is_listening (r_session (_ws_handle_listen_stop x w s store)) = false).
Proof.
  split; [| split; [| split; [| split]]].
  - intros w s store b Hl. simpl. rewrite Hl. reflexivity.
  - intros s mode. split; reflexivity.
  - intros s store mode ms Hall.
    apply (serve_quiet x ms (_ws_handle_listen_start s mode) store Hall).
    reflexivity.
  - intros w s store key rate n Hl Hk Hr Hrate Hn Hlen.
    apply (long_enough_is_transcribed x w s store key rate); try assumption.
    rewrite Hrate. apply pcm_to_wav_int. exact Hn.
  - intros w s store. apply listen_stop_leaves_listening.
Qed.

(** The capture of the scenario above, frame by frame: a frame before
    listen-start is dropped, two frames and an abort in between are
    captured in order, and a frame after listen-stop is dropped. *)
Example capture_in_order :
  let c := websocket_endpoint Fixture.x0 (str "s1") (str "dev")
             [(Fixture.w0, BytesFrame [x09]);
              (Fixture.w0, TextFrame Fixture.listen_start);
              (Fixture.w0, BytesFrame [x01; x02]);
              (Fixture.w0, TextFrame Fixture.abort);
              (Fixture.w0, BytesFrame [x03]);
              (Fixture.w0, TextFrame Fixture.listen_stop);
              (Fixture.w0, BytesFrame [x04])] ∅ in
  audio_buffer (c_session c) = [x01; x02; x03]
  /\ state (c_session c) = Idle
  /\ c_trace c = [].
Proof. vm_compute. repeat split. Qed.

(** *** The phase between two messages *)

(** When the listen-stop handler returns it has either done nothing or left
    the session idle. *)
Lemma listen_stop_returns_idle (x : externals) (w : world) (s : WsSession)
    (store : gmap text (list turn)) :
  r_status (_ws_handle_listen_stop x w s store) = Returned ->
  r_session (_ws_handle_listen_stop x w s store) = s
  \/ state (r_session (_ws_handle_listen_stop x w s store)) = Idle.
Proof.
  unfold _ws_handle_listen_stop.
  destruct (is_listening s) eqn:Hl; simpl; [| left; reflexivity].
  destruct (api_key w); [| discriminate].
  destruct (tts_sample_rate w) as [target_sr |]; [| discriminate].
  destruct (len (audio_buffer s) <? 1600); [right; reflexivity |].
  destruct (_pcm_to_wav (audio_buffer s) (sample_rate s)); [discriminate |].
  destruct (asr w) as [e | recognised]; [right; reflexivity |].
  destruct (truthy (strip recognised)); simpl; [| right; reflexivity].
  destruct (_session _ _ _) as [[key msgs] store'].
  destruct (max_turns w) as [keep |] eqn:Hmax; [| discriminate].
  unfold preceded, stream_reply. cbn [r_session r_status].
  destruct (Bridge._qwen_chat_to_realtime_tts_pcm_stream x target_sr (max_turns w))
    as [e | [in_sr keep_turns]]; [right; reflexivity |].
  match goal with |- context [forward ?a ?b ?c ?d ?e ?f] =>
    destruct (f_end (forward a b c d e f)) end;
    cbn [r_session r_status]; try discriminate; right; reflexivity.
Qed.

(** The receive loop awaits each handler before it reads the next message:
    when the loop body returns from a session that was not speaking, the
    session is not speaking.  A connection therefore reads no message, and
    no abort, while its own forwarding loop runs. *)
Lemma receive_returns_not_speaking (x : externals) (w : world) (s : WsSession)
    (store : gmap text (list turn)) (m : message) :
  state s <> Speaking ->
  r_status (receive x w s store m) = Returned ->
  state (r_session (receive x w s store m)) <> Speaking.
Proof.
  intros Hs. destruct m as [| t | b]; simpl.
  - intros _. exact Hs.
  - destruct (json_loads x t) as [e | data];
      [destruct e; try discriminate; intros _; exact Hs |].
    unfold control.
    destruct (get data "type" (JStr [])) as [e | ty]; [discriminate |].
    destruct (is_str ty "hello").
    { destruct (get data "audio_params" (JObj [])) as [e | ap]; [discriminate |].
      destruct (get ap "sample_rate" (JNum 16000)) as [e | rate]; [discriminate |].
      destruct (tts_sample_rate w); [intros _; exact Hs | discriminate]. }
    destruct (is_str ty "listen").
    { destruct (get data "state" (JStr [])) as [e | st]; [discriminate |].
      destruct (is_str st "start").
      { destruct (get data "mode" (JStr (str "auto"))); [discriminate |].
        intros _. discriminate. }
      destruct (is_str st "stop"); [| intros _; exact Hs].
      intros Hret. destruct (listen_stop_returns_idle x w s store Hret) as [-> | ->];
        [exact Hs | discriminate]. }
    destruct (is_str ty "abort"); intros _; exact Hs.
  - destruct (is_listening s); intros _; exact Hs.
Qed.

End WsFacts.

(** ** Strings and configuration *)

Module StrFacts.

Import Str PyFacts.

(** What [lstrip_by] removes is a run of characters of the set. *)
Lemma lstrip_by_split (f : N -> bool) (t : text) :
  exists pre, t = pre ++ lstrip_by f t /\ Forall (fun c => f c = true) pre.
Proof.
  induction t as [| c t IH]; simpl.
  - exists []. split; [reflexivity | constructor].
  - destruct (f c) eqn:Hc.
    + destruct IH as [pre [Heq Hall]]. exists (c :: pre). split.
      * simpl. f_equal. exact Heq.
      * constructor; assumption.
    + exists []. split; [reflexivity | constructor].
Qed.

Lemma lstrip_by_head (f : N -> bool) (t : text) (c : N) (rest : text) :
  lstrip_by f t = c :: rest -> f c = false.
Proof.
  induction t as [| a t IH]; simpl; [discriminate |].
  destruct (f a) eqn:Ha; [exact IH |].
  intros [= <- _]. exact Ha.
Qed.

Lemma lstrip_by_fixed (f : N -> bool) (t : text) :
  (forall c rest, t = c :: rest -> f c = false) -> lstrip_by f t = t.
Proof.
  destruct t as [| c rest]; simpl; [reflexivity |].
  intros H. rewrite (H c rest eq_refl). reflexivity.
Qed.

Lemma rstrip_by_split (f : N -> bool) (t : text) :
  exists suf, t = rstrip_by f t ++ suf /\ Forall (fun c => f c = true) suf.
Proof.
  unfold rstrip_by.
  destruct (lstrip_by_split f (rev t)) as [pre [Heq Hall]].
  exists (rev pre). split.
  - rewrite <- List.rev_app_distr, <- Heq, List.rev_involutive. reflexivity.
  - apply List.Forall_rev. exact Hall.
Qed.

Lemma rstrip_by_last (f : N -> bool) (t front : text) (c : N) :
  rstrip_by f t = front ++ [c] -> f c = false.
Proof.
  unfold rstrip_by. intros H.
  apply (f_equal (@rev N)) in H.
  rewrite List.rev_involutive, List.rev_app_distr in H. simpl in H.
  exact (lstrip_by_head f _ _ _ H).
Qed.

Lemma rstrip_by_fixed (f : N -> bool) (t : text) :
  (forall front c, t = front ++ [c] -> f c = false) -> rstrip_by f t = t.
Proof.
  intros H. unfold rstrip_by. rewrite lstrip_by_fixed.
  - apply List.rev_involutive.
  - intros c rest Hrev. apply (H (rev rest) c).
    rewrite <- (List.rev_involutive t), Hrev. reflexivity.
Qed.

(** After [strip_by] no character of the set is left at either end. *)
Lemma strip_by_clean (f : N -> bool) (t : text) : clean f (strip_by f t).
Proof.
  unfold strip_by. split.
  - intros c rest Hs.
    destruct (rstrip_by_split f (lstrip_by f t)) as [suf [Heq _]].
    rewrite Hs in Heq. simpl in Heq.
    exact (lstrip_by_head f t c _ Heq).
  - intros front c Hs. exact (rstrip_by_last f _ _ _ Hs).
Qed.

Lemma strip_by_fixed (f : N -> bool) (t : text) : clean f t -> strip_by f t = t.
Proof.
  intros [Hh Hl]. unfold strip_by.
  rewrite (lstrip_by_fixed f t Hh). apply rstrip_by_fixed. exact Hl.
Qed.

Lemma lstrip_is_lstrip_by (t : text) : lstrip t = lstrip_by isspace t.
Proof.
  induction t as [| c t IH]; simpl; [reflexivity |].
  rewrite IH. reflexivity.
Qed.

Lemma strip_is_strip_by (t : text) : strip t = strip_by isspace t.
Proof.
  unfold strip, strip_by, rstrip, rstrip_by.
  rewrite !lstrip_is_lstrip_by. reflexivity.
Qed.

(** [strip()] leaves no whitespace at either end, and a text without
    whitespace at its ends is left as it is. *)
Lemma strip_clean (t : text) : clean isspace (strip t).
Proof. rewrite strip_is_strip_by. apply strip_by_clean. Qed.

Lemma strip_fixed (t : text) : clean isspace t -> strip t = t.
Proof. rewrite strip_is_strip_by. apply strip_by_fixed. Qed.

Lemma strip_idempotent (t : text) : strip (strip t) = strip t.
Proof. apply strip_fixed, strip_clean. Qed.

End StrFacts.

Module ConfigFacts.

Import Str PyFacts StrFacts.

Lemma lstrip_blank (t : text) :
  Forall (fun c => isspace c = true) t -> lstrip t = [].
Proof.
  induction 1 as [| c t Hc _ IH]; simpl; [reflexivity |].
  rewrite Hc. exact IH.
Qed.

(** [strip()] returns the empty text exactly for a text of whitespace. *)
Lemma strip_empty_iff (t : text) :
  strip t = [] <-> Forall (fun c => isspace c = true) t.
Proof.
  split.
  - intros H. rewrite strip_is_strip_by in H. unfold strip_by in H.
    destruct (lstrip_by_split isspace t) as [pre [Ht Hpre]].
    destruct (rstrip_by_split isspace (lstrip_by isspace t)) as [suf [Hu Hsuf]].
    rewrite H in Hu. simpl in Hu. rewrite Ht, Hu.
    apply Forall_app. split; assumption.
  - intros H. unfold strip. rewrite (lstrip_blank t H). reflexivity.
Qed.

(** X1.  [_env] raises exactly when the variable is unset or holds nothing but
    whitespace; otherwise it returns the value without the whitespace around
    it, which is then not empty and has no whitespace at either end. *)
Theorem env_returns_stripped_value (env : gmap text text) (name : string) :
  match Config._env env name with
  | inr v =>
      v = strip (Config.getenv env name []) /\ v <> [] /\ clean isspace v
      /\ exists raw, env !! str name = Some raw
                     /\ ~ Forall (fun c => isspace c = true) raw
  | inl e =>
      e = RuntimeError "Missing env var"
      /\ (env !! str name = None
          \/ exists raw, env !! str name = Some raw
                         /\ Forall (fun c => isspace c = true) raw)
  end.
Proof.
  unfold Config._env, Config.getenv.
  destruct (env !! str name) as [raw |] eqn:Hlook.
  - destruct (truthy (strip raw)) eqn:Ht; simpl.
    + repeat split.
      * intros H. rewrite H in Ht. discriminate.
      * apply strip_clean.
      * apply strip_clean.
      * exists raw. split; [reflexivity |].
        intros Hall. apply strip_empty_iff in Hall. rewrite Hall in Ht. discriminate.
    + split; [reflexivity |]. right. exists raw. split; [reflexivity |].
      apply strip_empty_iff. apply truthy_false. exact Ht.
  - simpl. split; [reflexivity |]. left. reflexivity.
Qed.

Lemma all_equal_repeat (a : N) (l : text) :
  Forall (fun c => one_of [a] c = true) l -> l = repeat a (List.length l).
Proof.
  induction 1 as [| c l Hc _ IH]; simpl; [reflexivity |].
  unfold one_of in Hc. simpl in Hc. rewrite orb_false_r in Hc.
  apply N.eqb_eq in Hc. subst c. f_equal. exact IH.
Qed.

(** X2.  [_dashscope_compat_base] never ends with a slash: the configured value
    is the result followed by slashes only, so the URLs built from it have
    one slash at the joint. *)
Theorem compat_base_has_no_trailing_slash (env : gmap text text) :
  let base := Config._dashscope_compat_base env in
  (forall front, base <> front ++ str "/")
  /\ (exists n, Config.getenv env "DASHSCOPE_COMPAT_BASE_URL"
                  Config.DEFAULT_DASHSCOPE_COMPAT_BASE = base ++ repeat 47%N n)
  /\ (env !! str "DASHSCOPE_COMPAT_BASE_URL" = None ->
      Config.chat_completions_url env
      = str "https://dashscope.aliyuncs.com/compatible-mode/v1/chat/completions").
Proof.
  intros base. subst base. unfold Config._dashscope_compat_base, rstrip_chars.
  split; [| split].
  - intros front H.
    pose proof (rstrip_by_last (one_of (str "/")) _ _ _ H) as Hc.
    vm_compute in Hc. discriminate.
  - destruct (rstrip_by_split (one_of (str "/"))
                (Config.getenv env "DASHSCOPE_COMPAT_BASE_URL"
                   Config.DEFAULT_DASHSCOPE_COMPAT_BASE)) as [suf [Heq Hall]].
    exists (List.length suf). rewrite Heq at 1. f_equal.
    apply (all_equal_repeat 47%N). exact Hall.
  - intros Hnone. unfold Config.chat_completions_url, Config._dashscope_compat_base,
      Config.getenv. rewrite Hnone. vm_compute. reflexivity.
Qed.

End ConfigFacts.

(** ** More on conversational memory *)

Module MemoryMore.

Import Memory PyFacts StrFacts.

(** Whatever [keep] is, negative values included, the trim leaves the first
    message of a non-empty list in first place. *)
Theorem trim_session_keeps_first (m : turn) (rest : list turn) (keep : Z) :
  exists tail, _trim_session (m :: rest) keep = m :: tail.
Proof.
  unfold _trim_session.
  destruct (len (m :: rest) <=? 1 + keep); eexists; reflexivity.
Qed.

(** For [keep >= 1] the trim has one closed form for short and long lists:
    the first message, then what is left after dropping all but the last
    [keep] of the others. *)
Lemma trim_session_closed_form (msgs : list turn) (keep : Z) :
  1 <= keep ->
  _trim_session msgs keep
  = firstn 1 msgs ++ skipn (Nat.max 1 (List.length msgs - Z.to_nat keep)) msgs.
Proof.
  intros Hk. unfold _trim_session.
  destruct (Z.leb_spec (len msgs) (1 + keep)) as [Hle | Hgt].
  - unfold len in Hle.
    replace (Nat.max 1 (List.length msgs - Z.to_nat keep)) with 1%nat by lia.
    symmetry. apply List.firstn_skipn.
  - unfold len in Hgt. rewrite slice_from_neg by lia.
    replace (Nat.max 1 (List.length msgs - Z.to_nat keep))
      with (List.length msgs - Z.to_nat keep)%nat by lia.
    reflexivity.
Qed.

Lemma trim_session_length (msgs : list turn) (keep : Z) :
  1 <= keep -> len (_trim_session msgs keep) = Z.min (len msgs) (keep + 1).
Proof.
  intros Hk. rewrite trim_session_closed_form by exact Hk.
  unfold len. rewrite List.length_app, List.length_firstn, List.length_skipn. lia.
Qed.

(** X3.  For [keep >= 1]: the result is the first message followed by the last
    messages of the list, it has [min (len msgs) (keep + 1)] messages, and
    trimming it again changes nothing. *)
Theorem trim_session_bounds (msgs : list turn) (keep : Z) :
  1 <= keep ->
  _trim_session msgs keep
  = firstn 1 msgs ++ skipn (Nat.max 1 (List.length msgs - Z.to_nat keep)) msgs
  /\ len (_trim_session msgs keep) = Z.min (len msgs) (keep + 1)
  /\ _trim_session (_trim_session msgs keep) keep = _trim_session msgs keep.
Proof.
  intros Hk. split; [| split].
  - apply trim_session_closed_form. exact Hk.
  - apply trim_session_length. exact Hk.
  - pose proof (trim_session_length msgs keep Hk) as Hlen.
    unfold _trim_session at 1.
    destruct (Z.leb_spec (len (_trim_session msgs keep)) (1 + keep)); [reflexivity | lia].
Qed.

Lemma trim_session_bounds_witness :
  let msgs := [Turn System (str "s"); Turn User (str "a"); Turn Assistant (str "b");
               Turn User (str "c"); Turn Assistant (str "d")] in
  _trim_session msgs 2
  = firstn 1 msgs ++ skipn (Nat.max 1 (List.length msgs - Z.to_nat 2)) msgs
  /\ len (_trim_session msgs 2) = Z.min (len msgs) (2 + 1)
  /\ _trim_session (_trim_session msgs 2) 2 = _trim_session msgs 2.
Proof.
  apply (trim_session_bounds
           [Turn System (str "s"); Turn User (str "a"); Turn Assistant (str "b");
            Turn User (str "c"); Turn Assistant (str "d")] 2).
  lia.
Defined.

(** X4.  The step every caller repeats, append one turn and trim: for
    [keep >= 1] the list then has at most [keep + 1] messages, still starts
    with its first message, and ends with the new turn. *)
Theorem append_and_trim_keeps_bound (m : turn) (rest : list turn) (t : turn) (keep : Z) :
  1 <= keep ->
  let after := _trim_session ((m :: rest) ++ [t]) keep in
  len after <= keep + 1
  /\ head after = Some m
  /\ (forall d, List.last after d = t).
Proof.
  intros Hk after. subst after. split; [| split].
  - rewrite trim_session_length by exact Hk. lia.
  - simpl. destruct (trim_session_keeps_first m (rest ++ [t]) keep) as [tail Ht].
    simpl in Ht. rewrite Ht. reflexivity.
  - intros d. apply MemoryFacts.trim_session_last. lia.
Qed.

Lemma append_and_trim_keeps_bound_witness :
  let m := Turn System (str "s") in
  let rest := [Turn User (str "a"); Turn Assistant (str "b")] in
  let t := Turn User (str "c") in
  let after := _trim_session ((m :: rest) ++ [t]) 2 in
  len after <= 2 + 1
  /\ head after = Some m
  /\ (forall d, List.last after d = t).
Proof.
  apply (append_and_trim_keeps_bound (Turn System (str "s"))
           [Turn User (str "a"); Turn Assistant (str "b")] (Turn User (str "c")) 2).
  lia.
Defined.

(** *** The store *)

Lemma device_key_cases (d : text) :
  device_key d = if truthy (strip d) then strip d else str "default".
Proof.
  unfold device_key, or_else. destruct d as [| c d']; simpl truthy.
  - reflexivity.
  - cbv iota. destruct (truthy (strip (c :: d'))); reflexivity.
Qed.

(** X5.  The key under which a device identifier is stored is never empty and
    has no whitespace around it; an identifier that is empty or blank goes
    to ["default"]; whitespace around an identifier changes nothing, and
    normalising twice is normalising once. *)
Theorem device_key_is_normal (d : text) :
  device_key d <> []
  /\ Str.clean isspace (device_key d)
  /\ (strip d = [] -> device_key d = str "default")
  /\ device_key (strip d) = device_key d
  /\ device_key (device_key d) = device_key d.
Proof.
  assert (Hdefault : strip (str "default") = str "default") by (vm_compute; reflexivity).
  assert (Hclean : Str.clean isspace (str "default")).
  { rewrite <- Hdefault. apply strip_clean. }
  rewrite !device_key_cases, strip_idempotent.
  destruct (truthy (strip d)) eqn:Ht.
  - rewrite strip_idempotent, Ht.
    split; [intros H; rewrite H in Ht; discriminate |].
    split; [apply strip_clean |].
    split; [intros H; rewrite H in Ht; discriminate |].
    split; reflexivity.
  - rewrite Hdefault. simpl truthy. cbv iota.
    split; [discriminate |].
    split; [exact Hclean |].
    split; [reflexivity |].
    split; reflexivity.
Qed.

(** X6.  [_session] is a lookup that creates what is missing: the list it
    returns is the one stored under the key afterwards; a second call, with
    whatever prompt, returns the same list and changes nothing; the lists of
    other keys are untouched; and a list that had to be created holds the
    system prompt alone. *)
Theorem session_is_created_once (prompt later_prompt : text) (d : text)
    (store : gmap text (list turn)) :
  let r := _session prompt d store in
  let key := fst (fst r) in
  let msgs := snd (fst r) in
  let store' := snd r in
  key = device_key d
  /\ store' !! key = Some msgs
  /\ _session later_prompt d store' = (key, msgs, store')
  /\ (forall k, k <> key -> store' !! k = store !! k)
  /\ (store !! key = None -> msgs = [Turn System prompt])
  /\ (forall old, store !! key = Some old -> msgs = old /\ store' = store).
Proof.
  unfold _session. destruct (store !! device_key d) as [old |] eqn:Hl; simpl.
  - split; [reflexivity |]. split; [exact Hl |].
    split; [rewrite Hl; reflexivity |].
    split; [reflexivity |].
    split; [intros H; congruence |].
    intros old' H. split; congruence.
  - split; [reflexivity |]. split; [apply lookup_insert_eq |].
    split; [rewrite lookup_insert_eq; reflexivity |].
    split; [intros k Hk; apply lookup_insert_ne; congruence |].
    split; [reflexivity | intros old' H; congruence].
Qed.

End MemoryMore.

(** ** More on the synthesis bridge *)

Module BridgeMore.

Import Memory Bridge PyFacts.

(** *** The queue *)

Lemma act_within_capacity (b : bridge) (a : action) :
  (List.length (out_q b) <= MAXSIZE)%nat ->
  (List.length (out_q (act b a)) <= MAXSIZE)%nat.
Proof.
  intros Hb. destruct a as [response |]; simpl.
  - unfold on_event. destruct (stop_evt b); [exact Hb |].
    destruct response as [[[e | chunk] |] | |]; simpl; try exact Hb.
    unfold q_put. destruct (Nat.ltb_spec (List.length (out_q b)) MAXSIZE); simpl.
    + rewrite List.length_app. simpl. lia.
    + exact Hb.
  - destruct (out_q b); simpl in *; lia.
Qed.

Lemma acts_within_capacity (schedule : list action) (b : bridge) :
  (List.length (out_q b) <= MAXSIZE)%nat ->
  (List.length (out_q (acts b schedule)) <= MAXSIZE)%nat.
Proof.
  revert b. induction schedule as [| a rest IH]; intros b Hb; [exact Hb |].
  unfold acts in *. simpl. apply IH. apply act_within_capacity. exact Hb.
Qed.

Lemma put_end_marker_within_capacity (b : bridge) :
  (List.length (out_q b) <= MAXSIZE)%nat ->
  (List.length (out_q (put_end_marker b)) <= MAXSIZE)%nat.
Proof.
  intros Hb. unfold put_end_marker, q_put.
  destruct (Nat.ltb_spec (List.length (out_q b)) MAXSIZE); simpl.
  - rewrite List.length_app. simpl. lia.
  - exact Hb.
Qed.

(** The queue is bounded: whatever the provider delivers, the consumer takes
    and the worker does, a queue that holds at most 256 items never holds
    more, the end marker included. *)
Theorem queue_never_exceeds_capacity (p : provider) (keep : Z) (msgs0 : list turn)
    (during closing : list action) (b : bridge) :
  (List.length (out_q b) <= MAXSIZE)%nat ->
  (forall schedule, (List.length (out_q (acts b schedule)) <= MAXSIZE)%nat)
  /\ (List.length (out_q (fst (_run p keep msgs0 during closing b))) <= MAXSIZE)%nat.
Proof.
  intros Hb. split.
  - intros schedule. apply acts_within_capacity. exact Hb.
  - unfold _run. destruct (body p keep _) as [r s]. simpl.
    apply put_end_marker_within_capacity. unfold before_put.
    apply acts_within_capacity.
    assert (H : out_q (except_clause r (acts b during)) = out_q (acts b during)).
    { destruct r; reflexivity. }
    rewrite H. apply acts_within_capacity. exact Hb.
Qed.

Lemma queue_never_exceeds_capacity_witness :
  (forall schedule, (List.length (out_q (acts fresh schedule)) <= MAXSIZE)%nat)
  /\ (List.length
        (out_q (fst (_run (Fixture.willing [str "ok"]) 12 []
                          (Fixture.deltas 300) [] fresh))) <= MAXSIZE)%nat.
Proof.
  apply (queue_never_exceeds_capacity (Fixture.willing [str "ok"]) 12 []
           (Fixture.deltas 300) [] fresh).
  simpl. unfold MAXSIZE. lia.
Defined.

(** Once the cancellation signal is set nothing is added to the queue. *)
Lemma acts_cancelled (schedule : list action) (b : bridge) :
  stop_evt b = true ->
  exists n, out_q (acts b schedule) = skipn n (out_q b).
Proof.
  revert b. induction schedule as [| a rest IH]; intros b Hs.
  - exists 0%nat. reflexivity.
  - unfold acts in *. simpl. destruct a as [response |]; simpl.
    + unfold on_event. rewrite Hs. apply IH. exact Hs.
    + destruct (IH {| out_q := tl (out_q b); stop_evt := stop_evt b;
                      cb_error := cb_error b |} Hs) as [n Hn].
      exists (S n). rewrite Hn. simpl. destruct (out_q b); simpl.
      * destruct n; reflexivity.
      * reflexivity.
Qed.

Lemma deliveries_cancelled (events : list tts_event) (b : bridge) :
  stop_evt b = true -> acts b (List.map Deliver events) = b.
Proof.
  intros Hs. induction events as [| ev rest IH]; [reflexivity |].
  unfold acts in *. simpl. unfold on_event. rewrite Hs. exact IH.
Qed.

(** X7.  Cancellation.  With the signal set, events of the provider change
    nothing: the queue only loses what the consumer takes, so what is
    queued is neither reordered nor duplicated; and when the signal is set
    before any chunk is queued, the worker leaves the queue with the end
    marker and no chunk, whatever the provider delivers afterwards. *)
Theorem cancelled_bridge_queues_nothing (b : bridge) :
  stop_evt b = true ->
  (forall schedule, exists n, out_q (acts b schedule) = skipn n (out_q b))
  /\ (forall events, acts b (List.map Deliver events) = b)
  /\ (out_q b = [] ->
      forall p keep msgs0 during closing,
        out_q (fst (_run p keep msgs0 during closing b)) = [None]).
Proof.
  intros Hs. split; [| split].
  - intros schedule. apply acts_cancelled. exact Hs.
  - intros events. apply deliveries_cancelled. exact Hs.
  - intros Hq p keep msgs0 during closing.
    unfold _run. destruct (body p keep _) as [r s]. simpl.
    unfold before_put.
    destruct (acts_cancelled during b Hs) as [n Hn].
    destruct (BridgeFacts.acts_after_stop during b Hs) as [Hs1 _].
    assert (Hs2 : stop_evt (except_clause r (acts b during)) = true).
    { destruct r; simpl; [reflexivity | exact Hs1]. }
    assert (Hq2 : out_q (except_clause r (acts b during)) = []).
    { destruct r; simpl; rewrite Hn, Hq; destruct n; reflexivity. }
    destruct (acts_cancelled closing _ Hs2) as [k Hk].
    unfold put_end_marker, q_put. rewrite Hk, Hq2.
    destruct k; reflexivity.
Qed.

Lemma cancelled_bridge_queues_nothing_witness :
  let b := {| out_q := []; stop_evt := true; cb_error := None |} in
  (forall schedule, exists n, out_q (acts b schedule) = skipn n (out_q b))
  /\ (forall events, acts b (List.map Deliver events) = b)
  /\ (out_q b = [] ->
      forall p keep msgs0 during closing,
        out_q (fst (_run p keep msgs0 during closing b)) = [None]).
Proof.
  apply (cancelled_bridge_queues_nothing
           {| out_q := []; stop_evt := true; cb_error := None |}).
  reflexivity.
Defined.

(** X8.  Order.  While the signal is not set and the queue has room, the chunks
    of the audio deltas are queued behind what is there, in the order of
    the events; events without payload and events of other types add
    nothing, and neither the signal nor the error slot changes. *)
Theorem deliveries_are_queued_in_order (events : list tts_event) (b : bridge) :
  stop_evt b = false ->
  forallb Observe.ordinary events = true ->
  (List.length (out_q b) + List.length (Observe.delivered events) <= MAXSIZE)%nat ->
  acts b (List.map Deliver events)
  = {| out_q := out_q b ++ List.map Some (Observe.delivered events);
       stop_evt := false; cb_error := cb_error b |}.
Proof.
  revert b. induction events as [| ev rest IH]; intros b Hs Hord Hroom.
  - simpl. rewrite List.app_nil_r. destruct b; simpl in *. subst. reflexivity.
  - simpl in Hord. apply andb_true_iff in Hord. destruct Hord as [Hev Hrest].
    assert (Hsplit : Observe.delivered (ev :: rest)
                     = Observe.delivered [ev] ++ Observe.delivered rest).
    { unfold Observe.delivered. simpl. rewrite List.app_nil_r. reflexivity. }
    rewrite Hsplit in *. rewrite List.length_app in Hroom.
    unfold acts in *. simpl fold_left.
    destruct ev as [[[e | chunk] |] | |]; try discriminate; simpl act;
      unfold on_event; rewrite Hs.
    + unfold q_put. change (Observe.delivered [AudioDelta (Some (inr chunk))])
        with [chunk] in *. simpl List.length in Hroom.
      destruct (Nat.ltb_spec (List.length (out_q b)) MAXSIZE); [| lia].
      rewrite IH.
      * simpl. rewrite <- List.app_assoc. reflexivity.
      * reflexivity.
      * exact Hrest.
      * cbn [out_q]. rewrite List.length_app. simpl List.length. lia.
    + change (Observe.delivered [AudioDelta None]) with (@nil (list byte)) in *.
      simpl List.length in Hroom. rewrite IH; try assumption. reflexivity.
    + change (Observe.delivered [OtherEvent]) with (@nil (list byte)) in *.
      simpl List.length in Hroom. rewrite IH; try assumption. reflexivity.
Qed.

Lemma deliveries_are_queued_in_order_witness :
  acts fresh (List.map Deliver
                [AudioDelta (Some (inr [x01; x00])); AudioDelta None; OtherEvent;
                 AudioDelta (Some (inr [x02; x00]))])
  = {| out_q := out_q fresh
                ++ List.map Some
                     (Observe.delivered
                        [AudioDelta (Some (inr [x01; x00])); AudioDelta None; OtherEvent;
                         AudioDelta (Some (inr [x02; x00]))]);
       stop_evt := false; cb_error := cb_error fresh |}.
Proof.
  apply (deliveries_are_queued_in_order
           [AudioDelta (Some (inr [x01; x00])); AudioDelta None; OtherEvent;
            AudioDelta (Some (inr [x02; x00]))] fresh).
  - reflexivity.
  - reflexivity.
  - vm_compute. lia.
Defined.

(** *** The requests of the worker *)

Lemma only_logs_ret (Q : call -> Prop) {A : Type} (a : A) :
  Observe.only_logs Q (ret a).
Proof. intros s H. exact H. Qed.

Lemma only_logs_raise (Q : call -> Prop) {A : Type} (e : exn) :
  Observe.only_logs Q (@raise A e).
Proof. intros s H. exact H. Qed.

Lemma only_logs_bind (Q : call -> Prop) {A B : Type} (m : M A) (k : A -> M B) :
  Observe.only_logs Q m -> (forall a, Observe.only_logs Q (k a)) ->
  Observe.only_logs Q (bind m k).
Proof.
  intros Hm Hk s H. unfold bind. specialize (Hm s H).
  destruct (m s) as [[e | a] s']; simpl in *; [exact Hm |].
  apply Hk. exact Hm.
Qed.

Lemma only_logs_try (Q : call -> Prop) {A : Type} (m : M A) (h : exn -> M A) :
  Observe.only_logs Q m -> (forall e, Observe.only_logs Q (h e)) ->
  Observe.only_logs Q (try_except m h).
Proof.
  intros Hm Hh s H. unfold try_except. specialize (Hm s H).
  destruct (m s) as [[e | a] s']; simpl in *; [| exact Hm].
  apply Hh. exact Hm.
Qed.

Lemma only_logs_request (Q : call -> Prop) (c : call) (outcome : option exn) :
  Q c -> Observe.only_logs Q (request c outcome).
Proof.
  intros Hc s H. unfold request.
  destruct outcome; simpl; apply Forall_app; split; try exact H; repeat constructor;
    exact Hc.
Qed.

Lemma only_logs_set_msgs (Q : call -> Prop) (f : list turn -> list turn) :
  Observe.only_logs Q (set_msgs f).
Proof. intros s H. exact H. Qed.

Lemma only_logs_append_text (Q : call -> Prop) (p : provider) (t : text) :
  Q (AppendText t) -> Observe.only_logs Q (append_text p t).
Proof. intros Hc s. unfold append_text. apply only_logs_request. exact Hc. Qed.

Lemma sound_append (t : text) : t <> [] -> Observe.sound_request (AppendText t).
Proof. intros Ht. split; [discriminate | intros t' [= <-]; exact Ht]. Qed.

Lemma should_flush_nonempty (sent : bool) (pend : text) :
  should_flush sent pend = true -> pend <> [].
Proof. intros H ->. destruct sent; vm_compute in H; discriminate. Qed.

Lemma truthy_nonempty {A : Type} (l : list A) : truthy l = true -> l <> [].
Proof. intros H ->. discriminate. Qed.

Lemma flush_step_sound (p : provider) (v : vars) (delta : text) :
  Observe.only_logs Observe.sound_request (flush_step p v delta).
Proof.
  unfold flush_step.
  destruct (should_flush (sent_any v) (pending v ++ delta)) eqn:Hf.
  - apply only_logs_bind; [| intros; apply only_logs_ret].
    apply only_logs_append_text, sound_append.
    exact (should_flush_nonempty _ _ Hf).
  - apply only_logs_ret.
Qed.

Lemma reply_loop_sound (p : provider) (deltas : list text) (v : vars) :
  Observe.only_logs Observe.sound_request (reply_loop p deltas v).
Proof.
  revert v. induction deltas as [| delta rest IH]; intros v; simpl.
  - destruct (llm_stream_end p); [apply only_logs_raise | apply only_logs_ret].
  - apply only_logs_bind; [apply flush_step_sound | intros v'; apply IH].
Qed.

Lemma sound_plain (c : call) :
  is_append c = false -> c <> Close -> Observe.sound_request c.
Proof. intros Ha Hc. split; [exact Hc | intros t ->; discriminate]. Qed.

Lemma chat_sound (p : provider) :
  Observe.only_logs Observe.sound_request (chat p).
Proof.
  unfold chat. apply only_logs_bind.
  - apply only_logs_request, sound_plain; [reflexivity | discriminate].
  - intros _. destruct (llm_chat p); [apply only_logs_raise | apply only_logs_ret].
Qed.

(** The [try] block of the worker never requests [close] and never hands an
    empty text to [append_text]. *)
Lemma body_sound (p : provider) (keep : Z) :
  Observe.only_logs Observe.sound_request (body p keep).
Proof.
  unfold body.
  apply only_logs_bind;
    [apply only_logs_request, sound_plain; [reflexivity | discriminate] | intros _].
  apply only_logs_bind;
    [apply only_logs_request, sound_plain; [reflexivity | discriminate] | intros _].
  apply only_logs_bind;
    [apply only_logs_request, sound_plain; [reflexivity | discriminate] | intros _].
  apply only_logs_bind.
  { apply only_logs_try.
    - apply only_logs_bind;
        [apply only_logs_request, sound_plain; [reflexivity | discriminate] | intros _].
      apply reply_loop_sound.
    - intros _. apply only_logs_bind; [apply chat_sound | intros full].
      apply only_logs_ret. }
  intros v. apply only_logs_bind.
  { destruct (truthy (pending v)) eqn:Ht; [| apply only_logs_ret].
    apply only_logs_append_text, sound_append, truthy_nonempty, Ht. }
  intros _. apply only_logs_bind.
  { destruct (truthy (strip (join (assistant_text_parts v)))); [apply only_logs_ret |].
    apply only_logs_bind; [| intros _; apply only_logs_ret].
    apply only_logs_append_text, sound_append. discriminate. }
  intros full_text.
  apply only_logs_bind; [apply only_logs_set_msgs | intros _].
  apply only_logs_bind; [apply only_logs_set_msgs | intros _].
  apply only_logs_bind;
    [apply only_logs_request, sound_plain; [reflexivity | discriminate] | intros _].
  apply only_logs_ret.
Qed.

(** X9.  Whatever the provider does: no empty text is ever handed to
    [append_text]; when the client could be constructed, [close] is
    requested exactly once, as the last request; and when the constructor
    raised, it was the only request. *)
Theorem worker_requests_are_sound (p : provider) (keep : Z) (msgs0 : list turn)
    (during closing : list action) (b : bridge) :
  let s := snd (_run p keep msgs0 during closing b) in
  (forall t, In (AppendText t) (calls s) -> t <> [])
  /\ (p_construct p = None ->
      exists pre, calls s = pre ++ [Close] /\ ~ In Close pre)
  /\ (forall e, p_construct p = Some e -> calls s = [Construct]).
Proof.
  intros s.
  pose proof (body_sound p keep {| calls := []; msgs := msgs0 |}
                (List.Forall_nil _)) as Hsound.
  assert (Hs : s = match p_construct p with
                   | None => {| calls := calls (snd (body p keep {| calls := []; msgs := msgs0 |}))
                                         ++ [Close];
                                msgs := msgs (snd (body p keep {| calls := []; msgs := msgs0 |})) |}
                   | Some _ => snd (body p keep {| calls := []; msgs := msgs0 |})
                   end).
  { subst s. unfold _run.
    destruct (body p keep {| calls := []; msgs := msgs0 |}) as [r s0]. reflexivity. }
  rewrite List.Forall_forall in Hsound.
  split; [| split].
  - intros t Hin. rewrite Hs in Hin.
    assert (Hin' : In (AppendText t)
                      (calls (snd (body p keep {| calls := []; msgs := msgs0 |})))).
    { destruct (p_construct p); simpl in Hin; [exact Hin |].
      apply List.in_app_or in Hin. destruct Hin as [Hin | [Hin | []]];
        [exact Hin | discriminate]. }
    destruct (Hsound _ Hin') as [_ Ht]. apply (Ht t). reflexivity.
  - intros Hc. rewrite Hs, Hc. simpl. eexists. split; [reflexivity |].
    intros Hin. destruct (Hsound _ Hin) as [Hne _]. apply Hne. reflexivity.
  - intros e Hc. rewrite Hs, Hc. unfold body, bind, request. rewrite Hc. reflexivity.
Qed.

(** *** What is spoken *)

Lemma spoken_app (cs1 cs2 : list call) :
  Observe.spoken (cs1 ++ cs2) = Observe.spoken cs1 ++ Observe.spoken cs2.
Proof.
  unfold Observe.spoken, Observe.texts.
  rewrite List.map_app, !List.concat_app. reflexivity.
Qed.

(** With a client that accepts every [append_text], the reply loop has
    handed over or still holds exactly what the stream yielded, whether the
    stream then ends or raises. *)
Lemma reply_loop_speaks (p : provider) (deltas : list text) (v : vars) (s : wstate) :
  (forall k, p_append p k = None) ->
  exists v' cs,
    reply_loop p deltas v s
    = (match llm_stream_end p with Some e => inl e | None => inr v' end,
       {| calls := calls s ++ cs; msgs := msgs s |})
    /\ assistant_text_parts v' = assistant_text_parts v ++ deltas
    /\ Observe.spoken cs ++ pending v' = pending v ++ join deltas.
Proof.
  intros Happ. revert v s.
  induction deltas as [| delta rest IH]; intros v s.
  - exists v, []. simpl. rewrite !List.app_nil_r. destruct s; simpl.
    destruct (llm_stream_end p); repeat split.
  - simpl. unfold bind at 1.
    destruct (should_flush (sent_any v) (pending v ++ delta)) eqn:Hf.
    + rewrite (BridgeFacts.flush_step_flushes _ _ _ _ Hf), Happ.
      destruct (IH (Vars (assistant_text_parts v ++ [delta]) [] true)
                   {| calls := calls s ++ [AppendText (pending v ++ delta)];
                      msgs := msgs s |}) as [v' [cs [Heq [Hparts Hsp]]]].
      exists v', (AppendText (pending v ++ delta) :: cs).
      rewrite Heq. simpl in *. rewrite <- !List.app_assoc in *. simpl.
      repeat split; [exact Hparts |].
      change (Observe.spoken (AppendText (pending v ++ delta) :: cs))
        with ((pending v ++ delta) ++ Observe.spoken cs).
      unfold join in *. simpl. rewrite <- !List.app_assoc. f_equal. f_equal.
      exact Hsp.
    + rewrite (BridgeFacts.flush_step_accumulates _ _ _ _ Hf).
      destruct (IH (Vars (assistant_text_parts v ++ [delta]) (pending v ++ delta)
                         (sent_any v)) s) as [v' [cs [Heq [Hparts Hsp]]]].
      exists v', cs. rewrite Heq. simpl in *.
      rewrite <- !List.app_assoc in *. repeat split; [exact Hparts |].
      unfold join in *. simpl. exact Hsp.
Qed.

Lemma spoken_base (cs : list call) :
  Observe.spoken (Construct :: Connect :: UpdateSession :: ChatStream :: cs)
  = Observe.spoken cs.
Proof. reflexivity. Qed.

Lemma truthy_or_empty (t : text) :
  Observe.spoken (if truthy t then [AppendText t] else []) = t.
Proof. destruct t; [reflexivity |]. simpl. unfold Observe.spoken. simpl.
  rewrite List.app_nil_r. reflexivity. Qed.

(** X10.  When the client accepts every request and the reply stream ends
    normally, the synthesis session is given exactly the reply: the
    fragments in order, nothing lost and nothing twice, followed by the
    fallback sentence when the reply is blank; and the assistant turn that
    is remembered is the stripped reply, or the fallback. *)
Theorem spoken_text_is_the_reply (p : provider) (keep : Z) (msgs0 : list turn) :
  p_construct p = None -> p_connect p = None -> p_update p = None ->
  (forall k, p_append p k = None) ->
  llm_stream_end p = None ->
  let s := snd (body p keep {| calls := []; msgs := msgs0 |}) in
  let reply := join (llm_stream p) in
  Observe.spoken (calls s)
  = reply ++ (if truthy (strip reply) then [] else FALLBACK)
  /\ msgs s
     = _trim_session
         (msgs0 ++ [Turn Assistant (if truthy (strip reply) then strip reply
                                    else FALLBACK)]) keep.
Proof.
  intros Hc Hn Hu Happ Hend s reply.
  assert (Hrun : exists v cs r,
            body p keep {| calls := []; msgs := msgs0 |} =
              (r, {| calls := ((([Construct; Connect; UpdateSession; ChatStream] ++ cs)
                                ++ (if truthy (pending v) then [AppendText (pending v)] else []))
                               ++ (if truthy (strip reply) then [] else [AppendText FALLBACK]))
                              ++ [Finish];
                     msgs := _trim_session
                               (msgs0 ++ [Turn Assistant (if truthy (strip reply)
                                                          then strip reply else FALLBACK)])
                               keep |})
            /\ Observe.spoken cs ++ pending v = reply).
  { unfold body. unfold bind at 1, request at 1. rewrite Hc.
    unfold bind at 1, request at 1. rewrite Hn.
    unfold bind at 1, request at 1. rewrite Hu.
    unfold bind at 1, try_except. unfold bind at 1, request at 1.
    cbn [calls msgs].
    match goal with |- context [reply_loop p (llm_stream p) init_vars ?s0] =>
      destruct (reply_loop_speaks p (llm_stream p) init_vars s0 Happ)
        as [v [cs [Heq [Hparts Hsp]]]] end.
    rewrite Hend in Heq. rewrite Heq. simpl in Hparts, Hsp. rewrite Hparts.
    fold reply. exists v, cs.
    unfold bind, append_text, request, set_msgs, ret.
    destruct (truthy (pending v)); rewrite ?Happ; cbn [calls msgs fst snd];
      destruct (truthy (strip reply)); rewrite ?Happ; cbn [calls msgs fst snd];
      rewrite ?Happ; cbn [calls msgs fst snd];
      destruct (p_finish p); cbn [calls msgs fst snd];
      eexists; (split; [| exact Hsp]);
      rewrite ?List.app_nil_r; simpl; rewrite <- ?List.app_assoc; reflexivity. }
  destruct Hrun as [v [cs [r [Hrun Hsp]]]]. subst s. rewrite Hrun. cbn [snd calls msgs].
  split; [| reflexivity].
  rewrite !spoken_app, truthy_or_empty.
  change (Observe.spoken [Construct; Connect; UpdateSession; ChatStream]) with (@nil N).
  change (Observe.spoken [Finish]) with (@nil N).
  cbn [app]. rewrite Hsp.
  destruct (truthy (strip reply)); simpl; rewrite ?List.app_nil_r; reflexivity.
Qed.

Lemma spoken_text_is_the_reply_witness :
  let p := Fixture.willing [str "Hello "; str "there!"; str " Bye"] in
  let s := snd (body p 12 {| calls := []; msgs := [Turn System (str "s")] |}) in
  let reply := join (llm_stream p) in
  Observe.spoken (calls s)
  = reply ++ (if truthy (strip reply) then [] else FALLBACK)
  /\ msgs s
     = _trim_session
         ([Turn System (str "s")]
          ++ [Turn Assistant (if truthy (strip reply) then strip reply
                              else FALLBACK)]) 12.
Proof.
  apply (spoken_text_is_the_reply
           (Fixture.willing [str "Hello "; str "there!"; str " Bye"]) 12
           [Turn System (str "s")]);
    reflexivity.
Defined.

(** X11.  When the reply stream raises and the non-streaming request answers: the
    synthesis session is given what had been flushed before, which is a
    beginning of the streamed fragments, and then the complete non-streaming
    reply (followed by the fallback sentence when that reply is blank); the
    assistant turn that is remembered is the stripped non-streaming reply,
    or the fallback. *)
Theorem broken_stream_speaks_full_reply (p : provider) (keep : Z)
    (msgs0 : list turn) (e : exn) (full : text) :
  p_construct p = None -> p_connect p = None -> p_update p = None ->
  (forall k, p_append p k = None) ->
  llm_stream_end p = Some e ->
  llm_chat p = inr full ->
  let s := snd (body p keep {| calls := []; msgs := msgs0 |}) in
  (exists flushed unsent,
     Observe.spoken (calls s)
     = flushed ++ full ++ (if truthy (strip full) then [] else FALLBACK)
     /\ flushed ++ unsent = join (llm_stream p))
  /\ In Chat (calls s)
  /\ msgs s
     = _trim_session
         (msgs0 ++ [Turn Assistant (if truthy (strip full) then strip full
                                    else FALLBACK)]) keep.
Proof.
  intros Hc Hn Hu Happ Hend Hchat s.
  assert (Hrun : exists v cs r,
            body p keep {| calls := []; msgs := msgs0 |} =
              (r, {| calls := (((([Construct; Connect; UpdateSession; ChatStream] ++ cs)
                                 ++ [Chat])
                                ++ (if truthy full then [AppendText full] else []))
                               ++ (if truthy (strip full) then [] else [AppendText FALLBACK]))
                              ++ [Finish];
                     msgs := _trim_session
                               (msgs0 ++ [Turn Assistant (if truthy (strip full)
                                                          then strip full else FALLBACK)])
                               keep |})
            /\ Observe.spoken cs ++ pending v = join (llm_stream p)).
  { unfold body. unfold bind at 1, request at 1. rewrite Hc.
    unfold bind at 1, request at 1. rewrite Hn.
    unfold bind at 1, request at 1. rewrite Hu.
    unfold bind at 1, try_except. unfold bind at 1, request at 1.
    cbn [calls msgs].
    match goal with |- context [reply_loop p (llm_stream p) init_vars ?s0] =>
      destruct (reply_loop_speaks p (llm_stream p) init_vars s0 Happ)
        as [v [cs [Heq [Hparts Hsp]]]] end.
    rewrite Hend in Heq. rewrite Heq. simpl in Hsp.
    exists v, cs.
    unfold chat, bind, append_text, request, set_msgs, ret. rewrite Hchat.
    cbn [calls msgs fst snd assistant_text_parts pending join List.concat].
    rewrite List.app_nil_r.
    destruct (truthy full); rewrite ?Happ; cbn [calls msgs fst snd];
      destruct (truthy (strip full)); rewrite ?Happ; cbn [calls msgs fst snd];
      rewrite ?Happ; cbn [calls msgs fst snd];
      destruct (p_finish p); cbn [calls msgs fst snd];
      eexists; (split; [| exact Hsp]);
      rewrite ?List.app_nil_r; simpl; rewrite <- ?List.app_assoc; reflexivity. }
  destruct Hrun as [v [cs [r [Hrun Hsp]]]]. subst s. rewrite Hrun. cbn [snd calls msgs].
  split; [| split; [| reflexivity]].
  - exists (Observe.spoken cs), (pending v). split; [| exact Hsp].
    rewrite !spoken_app, truthy_or_empty.
    change (Observe.spoken [Construct; Connect; UpdateSession; ChatStream]) with (@nil N).
    change (Observe.spoken [Finish]) with (@nil N).
    change (Observe.spoken [Chat]) with (@nil N).
    cbn [app]. rewrite !List.app_nil_r.
    destruct (truthy (strip full)); simpl; rewrite <- ?List.app_assoc; reflexivity.
  - rewrite !List.in_app_iff. left. left. left. right. left. reflexivity.
Qed.

Lemma broken_stream_speaks_full_reply_witness :
  let p := Fixture.stream_breaks [str "Hello the"; str "re"] (str "Hello there!") in
  let s := snd (body p 12 {| calls := []; msgs := [Turn System (str "s")] |}) in
  (exists flushed unsent,
     Observe.spoken (calls s)
     = flushed ++ str "Hello there!"
       ++ (if truthy (strip (str "Hello there!")) then [] else FALLBACK)
     /\ flushed ++ unsent = join (llm_stream p))
  /\ In Chat (calls s)
  /\ msgs s
     = _trim_session
         ([Turn System (str "s")]
          ++ [Turn Assistant (if truthy (strip (str "Hello there!"))
                              then strip (str "Hello there!") else FALLBACK)]) 12.
Proof.
  apply (broken_stream_speaks_full_reply
           (Fixture.stream_breaks [str "Hello the"; str "re"] (str "Hello there!")) 12
           [Turn System (str "s")] (HTTPException 502) (str "Hello there!"));
    reflexivity.
Defined.

(** The example above: after the break the listener is given the flushed
    beginning and then the whole reply. *)
Example broken_stream_repeats_the_beginning :
  Observe.texts
    (calls (snd (body (Fixture.stream_breaks [str "Hello the"; str "re"]
                                             (str "Hello there!"))
                      12 {| calls := []; msgs := [] |})))
  = [str "Hello the"; str "Hello there!"].
Proof. vm_compute. reflexivity. Qed.

(** *** The pending text *)

Lemma flush_step_short (p : provider) (v : vars) (delta : text) (s : wstate) :
  match fst (flush_step p v delta s) with
  | inr v' => len (pending v') < 24 /\ (sent_any v' = false -> len (pending v') < 8)
  | inl _ => True
  end.
Proof.
  destruct (should_flush (sent_any v) (pending v ++ delta)) eqn:Hf.
  - rewrite (BridgeFacts.flush_step_flushes _ _ _ _ Hf). simpl.
    destruct (p_append p (appends s)); simpl; [exact I |].
    split; [reflexivity | discriminate].
  - rewrite (BridgeFacts.flush_step_accumulates _ _ _ _ Hf). simpl.
    unfold should_flush in Hf.
    apply orb_false_iff in Hf. destruct Hf as [Hf _].
    apply orb_false_iff in Hf. destruct Hf as [H8 H24].
    apply Z.leb_gt in H24. split; [exact H24 |].
    intros Hs. rewrite Hs in H8. simpl in H8. apply Z.leb_gt in H8. exact H8.
Qed.

(** X12.  After every iteration of the reply loop the pending text is shorter than
    24 code points, and shorter than 8 as long as nothing has been flushed,
    whatever the sizes of the fragments and whatever the provider does. *)
Theorem pending_text_stays_short (p : provider) (deltas : list text) (s : wstate) :
  match fst (reply_loop p deltas init_vars s) with
  | inr v => len (pending v) < 24 /\ (sent_any v = false -> len (pending v) < 8)
  | inl _ => True
  end.
Proof.
  assert (H : forall ds v s0,
            (len (pending v) < 24 /\ (sent_any v = false -> len (pending v) < 8)) ->
            match fst (reply_loop p ds v s0) with
            | inr v' => len (pending v') < 24
                        /\ (sent_any v' = false -> len (pending v') < 8)
            | inl _ => True
            end).
  { induction ds as [| delta rest IH]; intros v s0 Hv; simpl.
    - destruct (llm_stream_end p); simpl; [exact I | exact Hv].
    - unfold bind. pose proof (flush_step_short p v delta s0) as Hstep.
      destruct (flush_step p v delta s0) as [[e | v'] s1]; simpl in *; [exact I |].
      apply IH. exact Hstep. }
  apply H. split; [reflexivity | intros _; reflexivity].
Qed.

(** *** The negotiated rate *)

(** X13.  The rate a bridge reports is one the provider has a format for: the
    requested rate (16000 when none is requested) when that format exists,
    otherwise 24000; the start fails only when the library is missing, when
    neither format exists, or when the turn limit cannot be read. *)
Theorem negotiated_rate_is_supported (x : externals) (target : Z)
    (max_turns : option Z) :
  let requested := if target =? 0 then 16000 else target in
  match _qwen_chat_to_realtime_tts_pcm_stream x target max_turns with
  | inr (rate, keep) =>
      has_audio_format x rate = true
      /\ max_turns = Some keep
      /\ (if has_audio_format x requested then rate = requested else rate = 24000)
  | inl _ =>
      dashscope_installed x = false
      \/ (has_audio_format x requested = false /\ has_audio_format x 24000 = false)
      \/ max_turns = None
  end.
Proof.
  intros requested. unfold _qwen_chat_to_realtime_tts_pcm_stream, _audio_format_for_pcm.
  fold requested.
  destruct (dashscope_installed x); simpl; [| left; reflexivity].
  assert (Hnz : (requested =? 0) = false).
  { subst requested. destruct (Z.eqb_spec target 0); [reflexivity |].
    apply Z.eqb_neq. assumption. }
  rewrite Hnz.
  destruct (has_audio_format x requested) eqn:Hreq.
  - destruct max_turns; [| right; right; reflexivity]. repeat split. exact Hreq.
  - destruct (has_audio_format x 24000) eqn:H24.
    + destruct max_turns; [| right; right; reflexivity]. repeat split. exact H24.
    + right. left. split; reflexivity.
Qed.

(** *** The worker that speaks a given text *)

(** X14.  The worker of [_qwen_tts_realtime_pcm_stream] hands the text to the
    synthesis session at most once and unchanged, and exactly once when the
    client is constructed, connected and configured; an exception that
    leaves its [try] block is stored in the error slot with the signal set;
    [close] is requested exactly when the client was constructed; and the
    end marker is queued when the queue has room and left out when it is
    full. *)
Theorem text_worker_speaks_once (p : provider) (t : text)
    (during closing : list action) (b : bridge) :
  let r := fst (TextBridge.body p t {| calls := []; msgs := [] |}) in
  let out := TextBridge._run p t during closing b in
  let q := out_q (before_put r during closing b) in
  (Observe.texts (calls (snd out)) = [t] \/ Observe.texts (calls (snd out)) = [])
  /\ (p_construct p = None -> p_connect p = None -> p_update p = None ->
      Observe.texts (calls (snd out)) = [t])
  /\ (forall e, r = inl e -> cb_error (fst out) = Some e /\ stop_evt (fst out) = true)
  /\ (In Close (calls (snd out)) <-> p_construct p = None)
  /\ ((List.length q < MAXSIZE)%nat -> out_q (fst out) = q ++ [None])
  /\ ((MAXSIZE <= List.length q)%nat -> out_q (fst out) = q).
Proof.
  intros r out q.
  assert (Hout : out = (put_end_marker (before_put r during closing b),
                        match p_construct p with
                        | None => {| calls := calls (snd (TextBridge.body p t
                                                            {| calls := []; msgs := [] |}))
                                              ++ [Close];
                                     msgs := msgs (snd (TextBridge.body p t
                                                          {| calls := []; msgs := [] |})) |}
                        | Some _ => snd (TextBridge.body p t {| calls := []; msgs := [] |})
                        end)).
  { subst out r. unfold TextBridge._run.
    destruct (TextBridge.body p t {| calls := []; msgs := [] |}) as [r0 s0]. reflexivity. }
  rewrite Hout. cbn [fst snd].
  split; [| split; [| split; [| split; [| split]]]].
  - unfold TextBridge.body, bind, request, append_text, ret.
    destruct (p_construct p), (p_connect p), (p_update p); simpl; auto;
      destruct (p_append p _), (p_finish p); simpl; auto.
  - intros Hc Hn Hu. unfold TextBridge.body, bind, request, append_text, ret.
    rewrite Hc, Hn, Hu. simpl.
    destruct (p_append p _), (p_finish p); reflexivity.
  - intros e He.
    destruct (BridgeFacts.put_end_marker_keeps (before_put r during closing b)) as [-> ->].
    unfold before_put. rewrite He. simpl.
    destruct (BridgeFacts.acts_after_stop closing
                {| out_q := out_q (acts b during); stop_evt := true; cb_error := Some e |}
                eq_refl) as [H1 H2].
    split; assumption.
  - unfold TextBridge.body, bind, request, append_text, ret.
    destruct (p_construct p), (p_connect p), (p_update p); simpl;
      try (destruct (p_append p _), (p_finish p); simpl);
      split; intros H; try reflexivity; try discriminate;
      repeat (destruct H as [H | H]; try discriminate); try contradiction; tauto.
  - intros Hlt. unfold put_end_marker, q_put. fold q.
    destruct (Nat.ltb_spec (List.length q) MAXSIZE); [reflexivity | lia].
  - intros Hge. unfold put_end_marker, q_put. fold q.
    destruct (Nat.ltb_spec (List.length q) MAXSIZE); [lia | reflexivity].
Qed.

End BridgeMore.

(** ** More on the consumer side *)

Module PcmMore.

Import Pcm PyFacts.

Lemma process_chunk_ready_nonempty (x : externals) (target_sr in_sr : Z)
    (chunk : list byte) (state : option ratecv_state) (c : list byte) :
  h_outcome (process_chunk x target_sr in_sr chunk state) = Ready c -> c <> [].
Proof.
  unfold process_chunk.
  destruct (truthy chunk); simpl; [| discriminate].
  destruct (truthy (even_length chunk)) eqn:Ht; simpl; [| discriminate].
  destruct (needs_resample target_sr in_sr); simpl.
  - destruct (ratecv x (even_length chunk) 2 1 in_sr target_sr state)
      as [e | [out st]]; simpl; [discriminate |].
    destruct (truthy out) eqn:Ho; simpl; [| discriminate].
    intros [= <-] ->. discriminate.
  - intros [= <-] H. rewrite H in Ht. discriminate.
Qed.

Lemma audio_app (t1 t2 : list Ws.effect) :
  Observe.audio (t1 ++ t2) = Observe.audio t1 ++ Observe.audio t2.
Proof. unfold Observe.audio. rewrite List.map_app, List.concat_app. reflexivity. Qed.

Lemma resampled_app (t1 t2 : list Ws.effect) :
  Observe.resampled (t1 ++ t2) = Observe.resampled t1 ++ Observe.resampled t2.
Proof. unfold Observe.resampled. rewrite List.map_app, List.concat_app. reflexivity. Qed.

Lemma audio_fed (o : option (list byte)) : Observe.audio (Ws.fed_effect o) = [].
Proof. destruct o; reflexivity. Qed.

Lemma resampled_fed (o : option (list byte)) :
  Observe.resampled (Ws.fed_effect o) = opt_cons o [].
Proof. destruct o; reflexivity. Qed.

(** X15.  Neither loop ever passes an empty chunk on: the generator of the HTTP
    stream yields none and the forwarding loop of the socket hands none to
    the socket, whatever the converter returns. *)
Theorem no_empty_chunk_is_passed_on (x : externals) (target_sr in_sr : Z) :
  (forall items state,
     Forall (fun c => c <> []) (yielded (iter_from x target_sr in_sr items state)))
  /\ (forall polls s state,
        Forall (fun c => c <> [])
               (Observe.audio (Ws.f_trace (Ws.forward x target_sr in_sr polls s state)))).
Proof.
  split.
  - intros items. induction items as [| [chunk |] rest IH]; intros state; simpl;
      try constructor.
    pose proof (process_chunk_ready_nonempty x target_sr in_sr chunk state) as Hne.
    destruct (h_outcome (process_chunk x target_sr in_sr chunk state)); simpl.
    + apply IH.
    + constructor; [apply Hne; reflexivity | apply IH].
    + constructor.
  - intros polls. induction polls as [| p rest IH]; intros s state; simpl.
    + constructor.
    + destruct (Ws.stop_speaking _); [constructor |].
      destruct (Ws.taken p) as [[|] | [chunk |]]; try constructor.
      * apply IH.
      * pose proof (process_chunk_ready_nonempty x target_sr in_sr chunk state) as Hne.
        destruct (h_outcome (process_chunk x target_sr in_sr chunk state)) eqn:Ho; simpl.
        -- rewrite audio_app, audio_fed. apply IH.
        -- destruct (Ws.send_ok p); simpl; rewrite !audio_app, audio_fed; simpl.
           ++ constructor; [apply Hne; reflexivity | apply IH].
           ++ constructor; [apply Hne; reflexivity | constructor].
        -- rewrite audio_fed. constructor.
Qed.


(** X17.  The two copies of the loop body agree.  A forwarding loop that takes
    the items of the queue one after the other, with the flag clear and every
    send succeeding, hands to the socket exactly the chunks the generator of the
    HTTP stream yields for the same items, converts the same fragments, and
    stands as the generator stands: left after the end marker, left by the
    same exception, or still waiting. *)
Theorem forwarding_loop_matches_generator (x : externals) (target_sr in_sr : Z)
    (items : list (option (list byte))) (s : Ws.WsSession)
    (state : option ratecv_state) :
  Ws.stop_speaking s = false ->
  let f := Ws.forward x target_sr in_sr (Observe.undisturbed items) s state in
  let r := iter_from x target_sr in_sr items state in
  Observe.audio (Ws.f_trace f) = yielded r
  /\ Observe.resampled (Ws.f_trace f) = fed r
  /\ Ws.f_end f = Observe.loop_end_of (ended r)
  /\ Ws.f_session f = s.
Proof.
  intros Hs. revert state.
  induction items as [| [chunk |] rest IH]; intros state; simpl.
  - repeat split.
  - rewrite Hs.
    specialize (IH (h_state (process_chunk x target_sr in_sr chunk state))).
    simpl in IH. destruct IH as [Ha [Hr [He Hses]]].
    destruct (h_outcome (process_chunk x target_sr in_sr chunk state)); simpl.
    + rewrite audio_app, resampled_app, audio_fed, resampled_fed, Ha, Hr, He, Hses.
      repeat split.
      destruct (h_fed (process_chunk x target_sr in_sr chunk state)); reflexivity.
    + rewrite !audio_app, !resampled_app, audio_fed, resampled_fed, Ha, Hr, He, Hses.
      repeat split.
      destruct (h_fed (process_chunk x target_sr in_sr chunk state)); reflexivity.
    + rewrite audio_fed, resampled_fed. repeat split.
  - rewrite Hs. repeat split.
Qed.

Lemma forwarding_loop_matches_generator_witness :
  let x := Fixture.x0 in
  let items := [Some [x01; x00; x02; x00; x03]; Some []; Some [x04; x00]; None] in
  let s := Ws.new_session (str "s1") (str "dev") in
  let f := Ws.forward x 16000 24000 (Observe.undisturbed items) s None in
  let r := iter_from x 16000 24000 items None in
  Observe.audio (Ws.f_trace f) = yielded r
  /\ Observe.resampled (Ws.f_trace f) = fed r
  /\ Ws.f_end f = Observe.loop_end_of (ended r)
  /\ Ws.f_session f = s.
Proof.
  apply (forwarding_loop_matches_generator Fixture.x0 16000 24000
           [Some [x01; x00; x02; x00; x03]; Some []; Some [x04; x00]; None]
           (Ws.new_session (str "s1") (str "dev")) None).
  reflexivity.
Defined.

End PcmMore.

(** ** More on the WebSocket connection *)

Module WsMore.

Import Memory Ws PyFacts.

(** X18.  The threshold of the "too short" exit is 1600 bytes whatever rate the
    handshake declared.  In a process with its variables set and a declared
    rate [wave] accepts: below 1600 captured bytes the listen-stop handler
    goes idle without transcription, without notification and without
    touching the memory; from 1600 bytes on it hands the capture, with the
    declared rate, to the transcription. *)
Theorem transcription_threshold (x : externals) (w : world) (s : WsSession)
    (store : gmap text (list turn)) (key : text) (rate n : Z) :
  is_listening s = true ->
  api_key w = Some key ->
  tts_sample_rate w = Some rate ->
  sample_rate s = JNum n ->
  0 < n <= 2147483647 ->
  let r := _ws_handle_listen_stop x w s store in
  (len (audio_buffer s) < 1600 ->
     r_trace r = [] /\ r_store r = store /\ r_status r = Returned
     /\ state (r_session r) = Idle /\ audio_buffer (r_session r) = audio_buffer s)
  /\ (1600 <= len (audio_buffer s) ->
      exists rest, r_trace r = Asr (Wav n (audio_buffer s)) :: rest).
Proof.
  intros Hl Hk Hr Hrate Hn r. split.
  - intros Hlen. subst r. unfold _ws_handle_listen_stop.
    rewrite Hl, Hk, Hr. cbn [negb audio_buffer set_stop_speaking set_state].
    destruct (Z.ltb_spec (len (audio_buffer s)) 1600); [| lia].
    repeat split.
  - intros Hlen. apply (WsFacts.long_enough_is_transcribed x w s store key rate);
      try assumption.
    rewrite Hrate. apply WsFacts.pcm_to_wav_int. exact Hn.
Qed.

Lemma transcription_threshold_witness :
  let x := Fixture.x0 in
  let w := Fixture.w0 in
  let s := set_sample_rate
             (set_audio_buffer
                (set_state (new_session (str "s1") (str "dev")) Listening)
                (repeat x00 1599)) (JNum 8000) in
  let r := _ws_handle_listen_stop x w s ∅ in
  (len (audio_buffer s) < 1600 ->
     r_trace r = [] /\ r_store r = ∅ /\ r_status r = Returned
     /\ state (r_session r) = Idle /\ audio_buffer (r_session r) = audio_buffer s)
  /\ (1600 <= len (audio_buffer s) ->
      exists rest, r_trace r = Asr (Wav 8000 (audio_buffer s)) :: rest).
Proof.
  apply (transcription_threshold Fixture.x0 Fixture.w0
           (set_sample_rate
              (set_audio_buffer
                 (set_state (new_session (str "s1") (str "dev")) Listening)
                 (repeat x00 1599)) (JNum 8000))
           ∅ (str "sk-test") 16000 8000); try reflexivity.
  lia.
Defined.

(** X19.  An abort that was handled before listen-stop is forgotten: the handler
    clears the flag before it starts, so the reply is produced and forwarded
    exactly as if no abort had arrived. *)
Theorem stale_abort_is_forgotten (x : externals) (w : world) (s : WsSession)
    (store : gmap text (list turn)) :
  is_listening s = true ->
  _ws_handle_listen_stop x w (_ws_handle_abort s) store
  = _ws_handle_listen_stop x w s store.
Proof.
  intros Hl. unfold _ws_handle_listen_stop.
  assert (Hl' : is_listening (_ws_handle_abort s) = true) by exact Hl.
  rewrite Hl, Hl'. cbn [negb].
  assert (Hs : set_stop_speaking (set_state (_ws_handle_abort s) Speaking) false
               = set_stop_speaking (set_state s Speaking) false).
  { destruct s. reflexivity. }
  rewrite Hs. reflexivity.
Qed.

Lemma stale_abort_is_forgotten_witness :
  let s := set_audio_buffer
             (set_state (new_session (str "s1") (str "dev")) Listening)
             (repeat x00 1600) in
  _ws_handle_listen_stop Fixture.x0 Fixture.w0 (_ws_handle_abort s) ∅
  = _ws_handle_listen_stop Fixture.x0 Fixture.w0 s ∅.
Proof.
  apply (stale_abort_is_forgotten Fixture.x0 Fixture.w0
           (set_audio_buffer
              (set_state (new_session (str "s1") (str "dev")) Listening)
              (repeat x00 1600)) ∅).
  reflexivity.
Defined.

(** X20.  A text frame that decodes to anything but an object ends the
    connection: the lookup of the message type raises, the receive loop is
    left, and no later message is handled. *)
Theorem non_object_message_closes_connection (x : externals) (w : world)
    (s : WsSession) (store : gmap text (list turn)) (t : text) (data : json)
    (rest : list (world * message)) :
  json_loads x t = inr data ->
  (forall fields, data <> JObj fields) ->
  receive x w s store (TextFrame t) = Result s store [] (Escaped AttributeError)
  /\ serve x ((w, TextFrame t) :: rest) s store = Connection s store [] Closed.
Proof.
  intros Hdec Hobj.
  assert (Hr : receive x w s store (TextFrame t)
               = Result s store [] (Escaped AttributeError)).
  { simpl. rewrite Hdec. unfold control.
    destruct data; try reflexivity. exfalso. apply (Hobj fields). reflexivity. }
  split; [exact Hr |]. simpl serve. simpl in Hr. rewrite Hr. reflexivity.
Qed.

Lemma non_object_message_closes_connection_witness :
  let s := new_session (str "s1") (str "dev") in
  let rest := [(Fixture.w0, TextFrame Fixture.listen_start)] in
  receive Samples.x1 Fixture.w0 s ∅ (TextFrame (str "[]"))
  = Result s ∅ [] (Escaped AttributeError)
  /\ serve Samples.x1 ((Fixture.w0, TextFrame (str "[]")) :: rest) s ∅
     = Connection s ∅ [] Closed.
Proof.
  apply (non_object_message_closes_connection Samples.x1 Fixture.w0
           (new_session (str "s1") (str "dev")) ∅ (str "[]") (JArr [])).
  - vm_compute. reflexivity.
  - intros fields. discriminate.
Defined.

(** *** What the forwarding loop sends *)

Lemma notices_app (t1 t2 : list effect) :
  Observe.notices (t1 ++ t2) = Observe.notices t1 ++ Observe.notices t2.
Proof. unfold Observe.notices. rewrite List.map_app, List.concat_app. reflexivity. Qed.

Lemma notices_fed (o : option (list byte)) : Observe.notices (fed_effect o) = [].
Proof. destruct o; reflexivity. Qed.

(** The loop sends binary frames only. *)
Lemma forward_sends_no_notice (x : externals) (target_sr in_sr : Z)
    (polls : list poll) (s : WsSession) (rstate : option ratecv_state) :
  Observe.notices (f_trace (forward x target_sr in_sr polls s rstate)) = [].
Proof.
  revert s rstate. induction polls as [| p rest IH]; intros s rstate; simpl.
  - reflexivity.
  - destruct (stop_speaking _); [reflexivity |].
    destruct (taken p) as [[|] | [chunk |]]; try reflexivity.
    + apply IH.
    + destruct (Pcm.h_outcome (Pcm.process_chunk x target_sr in_sr chunk rstate)); simpl.
      * rewrite notices_app, notices_fed. apply IH.
      * destruct (send_ok p); simpl; rewrite !notices_app, notices_fed; simpl;
          [apply IH | reflexivity].
      * apply notices_fed.
Qed.

(** A failed send, if there is one, is the last thing the loop does, and
    the loop is left. *)
Lemma forward_failed_send_is_last (x : externals) (target_sr in_sr : Z)
    (polls : list poll) (s : WsSession) (rstate : option ratecv_state) :
  let f := forward x target_sr in_sr polls s rstate in
  Forall (fun e => forall c, e <> SendAudio c false) (f_trace f)
  \/ exists pre c,
       f_trace f = pre ++ [SendAudio c false]
       /\ Forall (fun e => forall c', e <> SendAudio c' false) pre
       /\ f_end f = Left.
Proof.
  revert s rstate. induction polls as [| p rest IH]; intros s rstate; simpl.
  - left. constructor.
  - destruct (stop_speaking _); [left; constructor |].
    destruct (taken p) as [[|] | [chunk |]]; try (left; constructor).
    + apply IH.
    + assert (Hfed : Forall (fun e => forall c, e <> SendAudio c false)
                       (fed_effect (Pcm.h_fed
                          (Pcm.process_chunk x target_sr in_sr chunk rstate)))).
      { destruct (Pcm.h_fed _); simpl; repeat constructor. discriminate. }
      destruct (Pcm.h_outcome (Pcm.process_chunk x target_sr in_sr chunk rstate)); simpl.
      * destruct (IH s
                     (Pcm.h_state (Pcm.process_chunk x target_sr in_sr chunk rstate)))
          as [Hall | [pre [c [Ht [Hpre Hend]]]]].
        -- left. apply Forall_app. split; assumption.
        -- right. eexists (_ ++ pre), c. simpl in Ht. rewrite Ht.
           rewrite List.app_assoc. split; [reflexivity |].
           split; [apply Forall_app; split; assumption | exact Hend].
      * destruct (send_ok p); simpl.
        -- destruct (IH s
                        (Pcm.h_state (Pcm.process_chunk x target_sr in_sr chunk rstate)))
             as [Hall | [pre [c [Ht [Hpre Hend]]]]].
           ++ left. apply Forall_app. split; [| exact Hall].
              apply Forall_app. split; [exact Hfed | repeat constructor; discriminate].
           ++ right. eexists (_ ++ pre), c. simpl in Ht. rewrite Ht.
              rewrite List.app_assoc. split; [reflexivity |].
              split; [| exact Hend].
              apply Forall_app. split; [| exact Hpre].
              apply Forall_app. split; [exact Hfed | repeat constructor; discriminate].
        -- right. eexists _, chunk0. split; [reflexivity |]. split; [exact Hfed | reflexivity].
      * left. exact Hfed.
Qed.

(** X21.  When a send fails the handler forwards nothing further: the failed frame
    is the last one, the cancellation signal of the bridge is set, the
    synthesis-stop notification follows, and the session goes idle. *)
Theorem failed_send_ends_the_reply (x : externals) (w : world)
    (target_sr in_sr keep : Z) (s : WsSession) (store : gmap text (list turn))
    (key : text) (msgs : list turn) (c : list byte) :
  Bridge._qwen_chat_to_realtime_tts_pcm_stream x target_sr (max_turns w)
    = inr (in_sr, keep) ->
  In (SendAudio c false) (f_trace (forward x target_sr in_sr (polls w) s None)) ->
  let r := stream_reply x w target_sr s store key msgs in
  (exists pre,
     r_trace r = StartBridge target_sr
                 :: pre ++ [SendAudio c false; SetStopEvt;
                            SendJson (TtsStop (session_id s))]
     /\ Forall (fun e => forall c', e <> SendAudio c' false) pre)
  /\ r_status r = Returned
  /\ state (r_session r) = Idle.
Proof.
  intros Hstart Hin r. subst r. unfold stream_reply. rewrite Hstart.
  destruct (forward_failed_send_is_last x target_sr in_sr (polls w) s None)
    as [Hall | [pre [c' [Ht [Hpre Hend]]]]].
  - rewrite List.Forall_forall in Hall. exfalso. apply (Hall _ Hin c). reflexivity.
  - simpl in Ht, Hend. rewrite Hend, Ht in *.
    assert (Hc : c' = c).
    { apply List.in_app_or in Hin. destruct Hin as [Hin | [Hin | []]].
      - rewrite List.Forall_forall in Hpre. exfalso. apply (Hpre _ Hin c). reflexivity.
      - congruence. }
    subst c'. cbn [r_trace r_status r_session state set_state].
    split; [| split; reflexivity].
    exists pre. split; [| exact Hpre].
    rewrite <- List.app_assoc. reflexivity.
Qed.

Lemma failed_send_ends_the_reply_witness :
  let x := Fixture.x0 in
  let w := {| api_key := Some (str "sk-test"); tts_sample_rate := Some 16000;
              max_turns := Some 12; system_prompt := DEFAULT_SYSTEM_PROMPT;
              asr := inr (str "hi"); reply := Fixture.willing [str "ok"];
              polls := [Poll (Item (Some [x01; x00])) true;
                        Poll (Item (Some [x02; x00])) false;
                        Poll (Item (Some [x03; x00])) true] |} in
  let s := set_state (new_session (str "s1") (str "dev")) Speaking in
  let r := stream_reply x w 16000 s ∅ (str "dev") [] in
  (exists pre,
     r_trace r = StartBridge 16000
                 :: pre ++ [SendAudio [x02; x00] false; SetStopEvt;
                            SendJson (TtsStop (session_id s))]
     /\ Forall (fun e => forall c', e <> SendAudio c' false) pre)
  /\ r_status r = Returned
  /\ state (r_session r) = Idle.
Proof.
  apply (failed_send_ends_the_reply Fixture.x0
           {| api_key := Some (str "sk-test"); tts_sample_rate := Some 16000;
              max_turns := Some 12; system_prompt := DEFAULT_SYSTEM_PROMPT;
              asr := inr (str "hi"); reply := Fixture.willing [str "ok"];
              polls := [Poll (Item (Some [x01; x00])) true;
                        Poll (Item (Some [x02; x00])) false;
                        Poll (Item (Some [x03; x00])) true] |}
           16000 16000 12
           (set_state (new_session (str "s1") (str "dev")) Speaking) ∅ (str "dev") []
           [x02; x00]).
  - reflexivity.
  - vm_compute. right. left. reflexivity.
Defined.

(** *** The order of the notifications *)

(** X22.  What a listen-stop handler that returns has done is one of three things:
    nothing; the transcription request alone (it failed or recognised
    nothing); or the transcription request, the transcript notification,
    synthesis-start, then bridge and audio effects without any further
    notification, and synthesis-stop as the last effect.  The transcript
    that is announced is never empty and has no whitespace around it. *)
Theorem notifications_are_bracketed (x : externals) (w : world) (s : WsSession)
    (store : gmap text (list turn)) :
  let r := _ws_handle_listen_stop x w s store in
  let sid := session_id s in
  r_status r = Returned ->
  r_trace r = []
  \/ (exists wav_bytes, r_trace r = [Asr wav_bytes])
  \/ (exists wav_bytes t mid,
        r_trace r = [Asr wav_bytes; SendJson (Stt sid t); SendJson (TtsStart sid)]
                    ++ mid ++ [SendJson (TtsStop sid)]
        /\ Observe.notices mid = []
        /\ t <> [] /\ Str.clean isspace t).
Proof.
  intros r sid. subst r sid. unfold _ws_handle_listen_stop.
  destruct (is_listening s); simpl; [| left; reflexivity].
  destruct (api_key w); [| discriminate].
  destruct (tts_sample_rate w) as [target_sr |]; [| discriminate].
  destruct (len (audio_buffer s) <? 1600); [left; reflexivity |].
  destruct (_pcm_to_wav (audio_buffer s) (sample_rate s)) as [e | wav_bytes];
    [discriminate |].
  destruct (asr w) as [e | recognised]; [right; left; eexists; reflexivity |].
  destruct (truthy (strip recognised)) eqn:Ht; simpl;
    [| right; left; eexists; reflexivity].
  destruct (_session _ _ _) as [[key msgs] store'].
  destruct (max_turns w) as [keep |] eqn:Hmax; [| discriminate].
  unfold preceded, stream_reply. cbn [r_trace r_status r_session].
  intros Hret. right. right. exists wav_bytes, (strip recognised).
  assert (Htext : strip recognised <> [] /\ Str.clean isspace (strip recognised)).
  { split; [intros H; rewrite H in Ht; discriminate | apply StrFacts.strip_clean]. }
  destruct (Bridge._qwen_chat_to_realtime_tts_pcm_stream x target_sr (max_turns w))
    as [e | [in_sr keep_turns]].
  - exists []. repeat split; try apply Htext.
  - match goal with |- context [forward ?a ?b ?c ?d ?e ?f] =>
      pose proof (forward_sends_no_notice a b c d e f) as Hnone;
      destruct (f_end (forward a b c d e f)) end;
      cbn [r_trace r_status] in *; try discriminate.
    + eexists (StartBridge target_sr :: _ ++ [SetStopEvt]). split; [| split].
      * simpl. rewrite <- List.app_assoc. reflexivity.
      * change (Observe.notices (StartBridge target_sr :: ?l))
          with (Observe.notices l).
        rewrite notices_app, Hnone. reflexivity.
      * apply Htext.
    + eexists (StartBridge target_sr :: _). split; [| split].
      * simpl. reflexivity.
      * change (Observe.notices (StartBridge target_sr :: ?l))
          with (Observe.notices l).
        exact Hnone.
      * apply Htext.
Qed.

Lemma notifications_are_bracketed_witness :
  let x := Fixture.x0 in
  let w := Fixture.w0 in
  let s := set_audio_buffer
             (set_state (new_session (str "s1") (str "dev")) Listening)
             (repeat x00 1600) in
  let r := _ws_handle_listen_stop x w s ∅ in
  let sid := session_id s in
  r_trace r = []
  \/ (exists wav_bytes, r_trace r = [Asr wav_bytes])
  \/ (exists wav_bytes t mid,
        r_trace r = [Asr wav_bytes; SendJson (Stt sid t); SendJson (TtsStart sid)]
                    ++ mid ++ [SendJson (TtsStop sid)]
        /\ Observe.notices mid = []
        /\ t <> [] /\ Str.clean isspace t).
Proof.
  apply (notifications_are_bracketed Fixture.x0 Fixture.w0
           (set_audio_buffer
              (set_state (new_session (str "s1") (str "dev")) Listening)
              (repeat x00 1600)) ∅).
  vm_compute. reflexivity.
Defined.

End WsMore.

(** ** The remote calls *)

Module RemoteFacts.

Import Str Remote PyFacts StrFacts.

Lemma delta_text_clean (x : externals) (payload fragment : text) :
  delta_text x payload = Some fragment ->
  fragment <> [] /\ clean (one_of [13%N]) fragment.
Proof.
  unfold delta_text. intros H.
  repeat match type of H with
         | match ?e with _ => _ end = _ => destruct e eqn:?; try discriminate
         end.
  injection H as <-. split.
  - intros Hnil. match goal with Ht : truthy _ = true |- _ => rewrite Hnil in Ht; discriminate end.
  - apply strip_by_clean.
Qed.

Lemma sse_loop_clean (x : externals) (lines : list text) (cut : option exn) :
  Forall (fun fragment => fragment <> [] /\ clean (one_of [13%N]) fragment)
         (fst (sse_loop x lines cut)).
Proof.
  induction lines as [| raw rest IH]; simpl; [constructor |].
  destruct (data_payload raw) as [payload |]; [| exact IH].
  destruct (text_eqb payload (str "[DONE]")); [constructor |].
  destruct (delta_text x payload) as [fragment |] eqn:Hd; [| exact IH].
  simpl. constructor; [| exact IH].
  apply (delta_text_clean x payload). exact Hd.
Qed.

(** X23.  Every fragment [_qwen_chat_stream] yields is a non-empty text without a
    carriage return at either end, whatever the lines of the response are;
    and it yields nothing when the request fails or is answered with
    another status than 200. *)
Theorem stream_fragments_are_clean (x : externals) (post : exn + stream_response) :
  Forall (fun fragment => fragment <> [] /\ clean (one_of [13%N]) fragment)
         (fst (_qwen_chat_stream x post))
  /\ (forall r, post = inr r -> s_status_code r <> 200 ->
      _qwen_chat_stream x post = ([], Some (HTTPException 502)))
  /\ (forall e, post = inl e -> _qwen_chat_stream x post = ([], Some e)).
Proof.
  split; [| split].
  - unfold _qwen_chat_stream. destruct post as [e | r]; [constructor |].
    destruct (negb (s_status_code r =? 200)); [constructor |].
    apply sse_loop_clean.
  - intros r -> Hs. unfold _qwen_chat_stream.
    apply Z.eqb_neq in Hs. rewrite Hs. reflexivity.
  - intros e ->. reflexivity.
Qed.

Lemma sse_loop_done (x : externals) (before : list text) (raw : text)
    (after : list text) (cut : option exn) :
  data_payload raw = Some (str "[DONE]") ->
  sse_loop x (before ++ raw :: after) cut = sse_loop x before None.
Proof.
  intros Hraw. induction before as [| l before IH]; simpl.
  - rewrite Hraw. reflexivity.
  - destruct (data_payload l) as [payload |]; [| exact IH].
    destruct (text_eqb payload (str "[DONE]")); [reflexivity |].
    destruct (delta_text x payload); [| exact IH].
    rewrite IH. reflexivity.
Qed.

(** X24.  A line whose payload is [[DONE]] ends the stream: the lines after it are
    not looked at, and a transport failure after it is not raised.  The
    generator yields what it yields on the lines before, and returns. *)
Theorem done_line_ends_the_stream (x : externals) (before : list text) (raw : text)
    (after : list text) (cut : option exn) :
  data_payload raw = Some (str "[DONE]") ->
  _qwen_chat_stream x (inr (StreamResponse 200 (before ++ raw :: after) cut))
  = _qwen_chat_stream x (inr (StreamResponse 200 before None))
  /\ snd (_qwen_chat_stream x (inr (StreamResponse 200 (before ++ raw :: after) cut)))
     = None.
Proof.
  intros Hraw. unfold _qwen_chat_stream. simpl.
  rewrite (sse_loop_done x before raw after cut Hraw). split; [reflexivity |].
  clear. induction before as [| l before IH]; simpl; [reflexivity |].
  destruct (data_payload l) as [payload |]; [| exact IH].
  destruct (text_eqb payload (str "[DONE]")); [reflexivity |].
  destruct (delta_text x payload); [| exact IH].
  exact IH.
Qed.

Lemma done_line_ends_the_stream_witness :
  data_payload (str " data: [DONE] ") = Some (str "[DONE]")
  /\ (_qwen_chat_stream Samples.x1
        (inr (StreamResponse 200
                ([str "data: " ++ Samples.chunk_hi] ++ str " data: [DONE] "
                   :: [str "data: " ++ Samples.chunk_hi])
                (Some (ProviderError 1))))
      = _qwen_chat_stream Samples.x1
          (inr (StreamResponse 200 [str "data: " ++ Samples.chunk_hi] None))
      /\ snd (_qwen_chat_stream Samples.x1
                (inr (StreamResponse 200
                        ([str "data: " ++ Samples.chunk_hi] ++ str " data: [DONE] "
                           :: [str "data: " ++ Samples.chunk_hi])
                        (Some (ProviderError 1)))))
         = None).
Proof.
  split; [vm_compute; reflexivity |].
  apply (done_line_ends_the_stream Samples.x1 [str "data: " ++ Samples.chunk_hi]
           (str " data: [DONE] ") [str "data: " ++ Samples.chunk_hi]
           (Some (ProviderError 1))).
  vm_compute. reflexivity.
Defined.

(** X25.  A line the loop skips is as good as absent, wherever it stands: a line
    that is empty, that does not start with [data:] once stripped (a
    comment, an [event:] line, a keep-alive), whose payload is empty, or
    on whose payload [json.loads] raises. *)
Theorem skipped_line_changes_nothing (x : externals) (before : list text)
    (raw : text) (after : list text) (cut : option exn) :
  (startswith (strip raw) (str "data:") = false
   \/ data_payload raw = None
   \/ exists payload, data_payload raw = Some payload
                      /\ payload <> str "[DONE]"
                      /\ exists e, json_loads x payload = inl e) ->
  sse_loop x (before ++ raw :: after) cut = sse_loop x (before ++ after) cut.
Proof.
  intros Hraw.
  assert (Hstep : sse_loop x (raw :: after) cut = sse_loop x after cut).
  { simpl. destruct Hraw as [Hs | [Hn | [payload [Hp [Hd [e Hj]]]]]].
    - unfold data_payload. rewrite Hs. simpl. destruct (negb (truthy raw)); reflexivity.
    - rewrite Hn. reflexivity.
    - rewrite Hp. destruct (text_eqb payload (str "[DONE]")) eqn:He.
      + apply text_eqb_eq in He. contradiction.
      + unfold delta_text. rewrite Hj. reflexivity. }
  induction before as [| l before IH]; [exact Hstep |].
  simpl. rewrite IH. reflexivity.
Qed.

Lemma skipped_line_changes_nothing_witness :
  (startswith (strip (str ": keep-alive")) (str "data:") = false
   \/ data_payload (str ": keep-alive") = None
   \/ exists payload, data_payload (str ": keep-alive") = Some payload
                      /\ payload <> str "[DONE]"
                      /\ exists e, json_loads Samples.x1 payload = inl e)
  /\ sse_loop Samples.x1
       ([str "data: " ++ Samples.chunk_hi] ++ str ": keep-alive"
          :: [str "data: " ++ Samples.chunk_hi]) None
     = sse_loop Samples.x1
         ([str "data: " ++ Samples.chunk_hi] ++ [str "data: " ++ Samples.chunk_hi]) None.
Proof.
  assert (H : startswith (strip (str ": keep-alive")) (str "data:") = false
              \/ data_payload (str ": keep-alive") = None
              \/ exists payload, data_payload (str ": keep-alive") = Some payload
                                 /\ payload <> str "[DONE]"
                                 /\ exists e, json_loads Samples.x1 payload = inl e).
  { left. vm_compute. reflexivity. }
  split; [exact H |].
  exact (skipped_line_changes_nothing Samples.x1 [str "data: " ++ Samples.chunk_hi]
           (str ": keep-alive") [str "data: " ++ Samples.chunk_hi] None H).
Defined.

Lemma stripped_clean (v : json) (t : text) :
  stripped v = Some t -> clean isspace t.
Proof.
  unfold stripped. destruct (json_or v (JStr [])); try discriminate.
  intros H. injection H as <-. apply strip_clean.
Qed.

Lemma completion_text_cases (r : response) :
  match completion_text r with
  | inr t => clean isspace t /\ status_code r = 200 /\ exists j, body r = Some j
  | inl e =>
      e = HTTPException 502
      \/ (e = ValueError /\ status_code r = 200 /\ body r = None)
  end.
Proof.
  unfold completion_text.
  destruct (Z.eqb_spec (status_code r) 200) as [Hs | Hs]; simpl; [| left; reflexivity].
  destruct (body r) as [j |]; [| right; repeat split; assumption].
  destruct (message_content j) as [content |]; [| left; reflexivity].
  destruct (stripped content) as [t |] eqn:Ht; [| left; reflexivity].
  split; [apply (stripped_clean content); exact Ht |].
  split; [exact Hs | exists j; reflexivity].
Qed.

(** [_qwen_chat] returns a text only for a response with status 200 and a
    JSON body, and the text has no whitespace at either end; its own
    failures are 502, except that a body that is no JSON document leaves it
    as the decoder's [ValueError]; an exception of the request passes
    through. *)
Theorem chat_reply_is_stripped (post : exn + response) :
  match _qwen_chat post with
  | inr t =>
      clean isspace t
      /\ exists r j, post = inr r /\ status_code r = 200 /\ body r = Some j
  | inl e =>
      post = inl e
      \/ e = HTTPException 502
      \/ (e = ValueError
          /\ exists r, post = inr r /\ status_code r = 200 /\ body r = None)
  end.
Proof.
  destruct post as [e | r]; simpl; [left; reflexivity |].
  pose proof (completion_text_cases r) as H.
  destruct (completion_text r) as [e | t].
  - destruct H as [H | [H1 [H2 H3]]]; [right; left; exact H |].
    right. right. split; [exact H1 |]. exists r. repeat split; assumption.
  - destruct H as [Hc [Hs [j Hj]]]. split; [exact Hc |].
    exists r, j. repeat split; assumption.
Qed.

Lemma asr_text_clean (post fallback : exn + response) (t : text) :
  _qwen_asr post fallback = inr t -> clean isspace t.
Proof.
  unfold _qwen_asr. destruct post as [e | r]; [discriminate |].
  destruct (status_code r =? 200).
  - destruct (body r) as [j |]; [| discriminate].
    destruct (Ws.get j "text" JNull) as [e | a]; [discriminate |].
    match goal with |- context [match ?v with JStr _ => _ | _ => _ end] =>
      destruct v as [| | | | t0 | |]; try discriminate end.
    destruct (truthy (strip t0)); simpl; [| discriminate].
    intros H. injection H as <-. apply strip_clean.
  - destruct (_ || _); [| discriminate].
    destruct fallback as [e | rr]; [discriminate |].
    intros H. pose proof (completion_text_cases rr) as Hc. rewrite H in Hc. apply Hc.
Qed.

(** X26.  [_qwen_asr] returns a text in two cases only: the transcription request
    is answered with 200, and then the text is not empty; or it is answered
    with 404 or 405 and the chat-completions request is answered with 200.
    The text has no whitespace at either end in both.  A failure is the
    exception of one of the two requests, 502, or the [ValueError] or
    [AttributeError] of a body that is no JSON document or not of the
    expected shape. *)
Theorem transcription_is_stripped (post fallback : exn + response) :
  match _qwen_asr post fallback with
  | inr t =>
      clean isspace t
      /\ exists r, post = inr r
         /\ ((status_code r = 200 /\ t <> [])
             \/ ((status_code r = 404 \/ status_code r = 405)
                 /\ exists rr, fallback = inr rr /\ status_code rr = 200))
  | inl e =>
      post = inl e \/ fallback = inl e \/ e = HTTPException 502
      \/ e = ValueError \/ e = AttributeError
  end.
Proof.
  unfold _qwen_asr. destruct post as [e | r]; [left; reflexivity |].
  destruct (Z.eqb_spec (status_code r) 200) as [Hs | Hs].
  - destruct (body r) as [j |]; [| right; right; right; left; reflexivity].
    destruct (Ws.get j "text" JNull) as [e | a] eqn:Ha.
    + unfold Ws.get in Ha. destruct j; try (injection Ha as <-; do 4 right; reflexivity).
      destruct (List.find _ fields); discriminate.
    + match goal with |- context [match ?v with JStr _ => _ | _ => _ end] =>
        destruct v as [| | | | t | |]; try (do 4 right; reflexivity) end.
      destruct (truthy (strip t)) eqn:Ht; simpl.
      * split; [apply strip_clean |]. exists r. split; [reflexivity |]. left.
        split; [exact Hs |]. intros Hn. rewrite Hn in Ht. discriminate.
      * right. right. left. reflexivity.
  - destruct ((status_code r =? 404) || (status_code r =? 405)) eqn:Hf;
      [| right; right; left; reflexivity].
    destruct fallback as [e | rr]; [right; left; reflexivity |].
    pose proof (completion_text_cases rr) as H.
    destruct (completion_text rr) as [e | t].
    + destruct H as [H | [H _]]; [right; right; left; exact H |].
      right. right. right. left. exact H.
    + destruct H as [Hc [Hrr _]]. split; [exact Hc |].
      exists r. split; [reflexivity |]. right. split.
      * apply orb_true_iff in Hf. destruct Hf as [Hf | Hf]; apply Z.eqb_eq in Hf; tauto.
      * exists rr. split; [reflexivity | exact Hrr].
Qed.

End RemoteFacts.

(** ** The HTTP handlers *)

Module HttpFacts.

Import Memory Http PyFacts StrFacts.

Lemma asr_text_fixed (post fallback : exn + Remote.response) (t : text) :
  Remote._qwen_asr post fallback = inr t -> strip t = t.
Proof.
  intros H. apply strip_fixed. apply (RemoteFacts.asr_text_clean post fallback). exact H.
Qed.

Lemma env_error (env : gmap text text) (name : string) (e : exn) :
  Config._env env name = inl e -> e = RuntimeError "Missing env var".
Proof.
  unfold Config._env. destruct (negb (truthy _)); [| discriminate].
  intros H. injection H as <-. reflexivity.
Qed.

Lemma device_key_twice (d : text) : device_key (device_key d) = device_key d.
Proof.
  assert (Hdefault : strip (str "default") = str "default") by (vm_compute; reflexivity).
  rewrite !MemoryMore.device_key_cases.
  destruct (truthy (strip d)) eqn:Ht.
  - rewrite strip_idempotent, Ht. reflexivity.
  - rewrite Hdefault. reflexivity.
Qed.

(** The device identifier the handlers compute is the key [_session]
    computes from the header, so that [_session] normalises it to itself. *)
Lemma accept_device (w : world) (req : request) (d : text) :
  accept w req = inr d ->
  d = device_key (match x_device_id req with Some v => v | None => [] end)
  /\ device_key d = d
  /\ payload req <> []
  /\ Str.contains (str "audio/wav") (Str.lower (header_or (content_type req) [])) = true.
Proof.
  unfold accept. destruct (Config._env (env w) "DASHSCOPE_API_KEY"); [discriminate |].
  destruct (Str.contains _ _) eqn:Hc; simpl; [| discriminate].
  destruct (payload req) eqn:Hp; simpl; [discriminate |].
  intros H. injection H as <-.
  assert (Hd : or_else (strip (header_or (x_device_id req) (str "default"))) (str "default")
               = device_key (match x_device_id req with Some v => v | None => [] end)).
  { unfold device_key, header_or. destruct (x_device_id req); reflexivity. }
  rewrite Hd. split; [reflexivity |]. split; [apply device_key_twice |].
  split; [discriminate | reflexivity].
Qed.

Lemma session_key (prompt d : text) (store store' : gmap text (list turn))
    (key : text) (msgs : list turn) :
  _session prompt d store = (key, msgs, store') ->
  key = device_key d /\ forall k, k <> key -> store' !! k = store !! k.
Proof.
  unfold _session. destruct (store !! device_key d); intros H; injection H as <- <- <-.
  - split; [reflexivity | intros; reflexivity].
  - split; [reflexivity |]. intros k Hk. apply lookup_insert_ne. congruence.
Qed.

(** X27.  A request that fails one of the checks of the handlers (no API key in
    the environment, a content type that does not contain [audio/wav] in
    any letter case, an empty body) is refused by [chat] and by [chat_pcm]
    before any remote service is called and before a session is looked up or
    created: with a [RuntimeError] for the key, with 400 for the other
    two. *)
Theorem refused_request_touches_nothing (x : externals) (w : world) (req : request)
    (store : gmap text (list turn)) :
  (Config._env (env w) "DASHSCOPE_API_KEY" = inl (RuntimeError "Missing env var")
   \/ Str.contains (str "audio/wav") (Str.lower (header_or (content_type req) [])) = false
   \/ payload req = []) ->
  exists e,
    (e = RuntimeError "Missing env var" \/ e = HTTPException 400)
    /\ chat w req store = Outcome (inl e) store []
    /\ chat_pcm x w req store = Outcome (inl e) store [].
Proof.
  intros H. unfold chat, chat_pcm.
  assert (Hacc : exists e, (e = RuntimeError "Missing env var" \/ e = HTTPException 400)
                           /\ accept w req = inl e).
  { unfold accept. destruct H as [H | [H | H]].
    - rewrite H. eexists. split; [left; reflexivity | reflexivity].
    - destruct (Config._env (env w) "DASHSCOPE_API_KEY") as [e |] eqn:He.
      + exists e. split; [left; apply (env_error _ _ _ He) | reflexivity].
      + rewrite H. simpl. eexists. split; [right; reflexivity | reflexivity].
    - destruct (Config._env (env w) "DASHSCOPE_API_KEY") as [e |] eqn:He.
      + exists e. split; [left; apply (env_error _ _ _ He) | reflexivity].
      + rewrite H. simpl.
        destruct (negb (Str.contains _ _)); eexists; (split; [right; reflexivity | reflexivity]). }
  destruct Hacc as [e [He Hacc]]. exists e. rewrite Hacc.
  split; [exact He |]. split; reflexivity.
Qed.

Lemma refused_request_touches_nothing_witness :
  (Config._env (env Samples.http_world) "DASHSCOPE_API_KEY"
   = inl (RuntimeError "Missing env var")
   \/ Str.contains (str "audio/wav")
        (Str.lower (header_or (content_type (Request (Some (str "text/plain")) None [x52])) []))
      = false
   \/ payload (Request (Some (str "text/plain")) None [x52]) = [])
  /\ exists e,
       (e = RuntimeError "Missing env var" \/ e = HTTPException 400)
       /\ chat Samples.http_world (Request (Some (str "text/plain")) None [x52]) ∅
          = Outcome (inl e) ∅ []
       /\ chat_pcm Samples.x1 Samples.http_world
            (Request (Some (str "text/plain")) None [x52]) ∅
          = Outcome (inl e) ∅ [].
Proof.
  assert (H : Config._env (env Samples.http_world) "DASHSCOPE_API_KEY"
              = inl (RuntimeError "Missing env var")
              \/ Str.contains (str "audio/wav")
                   (Str.lower (header_or
                      (content_type (Request (Some (str "text/plain")) None [x52])) []))
                 = false
              \/ payload (Request (Some (str "text/plain")) None [x52]) = []).
  { right. left. vm_compute. reflexivity. }
  split; [exact H |].
  exact (refused_request_touches_nothing Samples.x1 Samples.http_world
           (Request (Some (str "text/plain")) None [x52]) ∅ H).
Defined.

(** X28.  When [chat] answers, the text it had synthesised is the last message
    stored for the device, as the assistant's turn, and it is not empty (an
    empty reply is replaced by the apology); the audio it returns is what
    the synthesis gave; the request reached the transcription, the reply
    service and the synthesis in this order, once each; and no other
    device's messages changed.  [keep] is the turn limit. *)
Theorem chat_stores_what_it_speaks (w : world) (req : request)
    (store : gmap text (list turn)) (keep : Z) (wav : list byte) :
  max_turns w = Some keep -> 0 <= keep ->
  o_result (chat w req store) = inr wav ->
  exists d sent msgs answer rate,
    accept w req = inr d
    /\ tts w = inr wav
    /\ o_store (chat w req store) !! d = Some msgs
    /\ (forall dflt, List.last msgs dflt = Turn Assistant answer)
    /\ answer <> []
    /\ o_calls (chat w req store)
       = [CallAsr (payload req); CallChat sent; CallTts answer rate]
    /\ (exists recognised, forall dflt, List.last sent dflt = Turn User recognised)
    /\ (forall k, k <> d -> o_store (chat w req store) !! k = store !! k).
Proof.
  intros Hmax Hk. unfold chat.
  destruct (accept w req) as [e | d] eqn:Hacc; [discriminate |].
  destruct (Remote._qwen_asr (asr_post w) (asr_fallback w)) as [e | recognised] eqn:Hasr;
    [discriminate |].
  destruct (_session (system_prompt w) d store) as [[key msgs] store'] eqn:Hsess.
  rewrite Hmax.
  destruct (Remote._qwen_chat (chat_post w)) as [e | answer] eqn:Hchat; [discriminate |].
  destruct (tts_sample_rate w) as [rate |]; [| discriminate].
  destruct (tts w) as [e | wav'] eqn:Htts; [discriminate |].
  cbn [o_result o_store o_calls]. intros Hres. injection Hres as ->.
  destruct (session_key _ _ _ _ _ _ Hsess) as [Hkey Hother].
  destruct (accept_device w req d Hacc) as [_ [Hd _]].
  rewrite Hd in Hkey. subst key.
  eexists d, _, _, _, rate.
  split; [reflexivity |]. split; [reflexivity |].
  split; [apply lookup_insert_eq |].
  split; [intros dflt; apply MemoryFacts.trim_session_last; exact Hk |].
  split.
  { destruct (truthy answer) eqn:Ht; simpl.
    - intros Hn. rewrite Hn in Ht. discriminate.
    - vm_compute. discriminate. }
  split; [reflexivity |].
  split.
  { exists (strip recognised). intros dflt. apply MemoryFacts.trim_session_last. exact Hk. }
  intros k Hne. rewrite !lookup_insert_ne by congruence. apply Hother. exact Hne.
Qed.

Lemma chat_stores_what_it_speaks_witness :
  max_turns Samples.http_world = Some 12 /\ 0 <= 12
  /\ o_result (chat Samples.http_world Samples.wav_request ∅) = inr [x52; x49; x46; x46]
  /\ exists d sent msgs answer rate,
       accept Samples.http_world Samples.wav_request = inr d
       /\ tts Samples.http_world = inr [x52; x49; x46; x46]
       /\ o_store (chat Samples.http_world Samples.wav_request ∅) !! d = Some msgs
       /\ (forall dflt, List.last msgs dflt = Turn Assistant answer)
       /\ answer <> []
       /\ o_calls (chat Samples.http_world Samples.wav_request ∅)
          = [CallAsr (payload Samples.wav_request); CallChat sent; CallTts answer rate]
       /\ (exists recognised, forall dflt, List.last sent dflt = Turn User recognised)
       /\ (forall k, k <> d ->
           o_store (chat Samples.http_world Samples.wav_request ∅) !! k
           = (∅ : gmap text (list turn)) !! k).
Proof.
  assert (H1 : max_turns Samples.http_world = Some 12) by reflexivity.
  assert (H2 : 0 <= 12) by lia.
  assert (H3 : o_result (chat Samples.http_world Samples.wav_request ∅)
               = inr [x52; x49; x46; x46]) by (vm_compute; reflexivity).
  split; [exact H1 |]. split; [exact H2 |]. split; [exact H3 |].
  exact (chat_stores_what_it_speaks Samples.http_world Samples.wav_request ∅ 12
           [x52; x49; x46; x46] H1 H2 H3).
Defined.

(** X29.  When the reply service fails after the transcription succeeded, [chat]
    fails with the exception of [_qwen_chat], and the user's turn stays in
    the device's messages without an answer: the stored list is the one that
    was sent to the reply service, and it ends with the recognised text.  No
    synthesis is requested. *)
Theorem unanswered_turn_stays_in_memory (w : world) (req : request)
    (store : gmap text (list turn)) (keep : Z) (d recognised : text) (e : exn) :
  max_turns w = Some keep -> 0 <= keep ->
  accept w req = inr d ->
  Remote._qwen_asr (asr_post w) (asr_fallback w) = inr recognised ->
  Remote._qwen_chat (chat_post w) = inl e ->
  let r := chat w req store in
  o_result r = inl e
  /\ exists msgs,
       o_store r !! d = Some msgs
       /\ (forall dflt, List.last msgs dflt = Turn User recognised)
       /\ o_calls r = [CallAsr (payload req); CallChat msgs].
Proof.
  intros Hmax Hk Hacc Hasr Hchat. unfold chat.
  rewrite Hacc, Hasr.
  destruct (_session (system_prompt w) d store) as [[key msgs] store'] eqn:Hsess.
  rewrite Hmax, Hchat. cbn [o_result o_store o_calls].
  destruct (session_key _ _ _ _ _ _ Hsess) as [Hkey _].
  destruct (accept_device w req d Hacc) as [_ [Hd _]].
  rewrite Hd in Hkey. subst key.
  split; [reflexivity |]. eexists.
  split; [apply lookup_insert_eq |].
  split; [| reflexivity].
  intros dflt. rewrite (asr_text_fixed _ _ _ Hasr).
  apply MemoryFacts.trim_session_last. exact Hk.
Qed.

Lemma unanswered_turn_stays_in_memory_witness :
  let w := Samples.http_world_llm_down in
  let r := chat w Samples.wav_request ∅ in
  o_result r = inl (HTTPException 502)
  /\ exists msgs,
       o_store r !! str "kitchen" = Some msgs
       /\ (forall dflt, List.last msgs dflt = Turn User (str "hi"))
       /\ o_calls r = [CallAsr (payload Samples.wav_request); CallChat msgs].
Proof.
  apply (unanswered_turn_stays_in_memory Samples.http_world_llm_down
           Samples.wav_request ∅ 12 (str "kitchen") (str "hi") (HTTPException 502)).
  - reflexivity.
  - lia.
  - vm_compute. reflexivity.
  - vm_compute. reflexivity.
  - vm_compute. reflexivity.
Defined.

(** X30.  When [chat_pcm] answers, it announces the configured rate, whatever rate
    the bridge negotiated; the bridge's rate is one the provider has a
    format for; the bridge was started on the messages stored for the
    device, which end with the recognised text; and only the transcription
    was called before. *)
Theorem chat_pcm_starts_bridge_on_stored_turns (x : externals) (w : world)
    (req : request) (store : gmap text (list turn)) (keep : Z) (resp : pcm_response) :
  max_turns w = Some keep -> 0 <= keep ->
  o_result (chat_pcm x w req store) = inr resp ->
  exists d msgs recognised,
    accept w req = inr d
    /\ Remote._qwen_asr (asr_post w) (asr_fallback w) = inr recognised
    /\ tts_sample_rate w = Some (announced_rate resp)
    /\ has_audio_format x (bridge_rate resp) = true
    /\ o_store (chat_pcm x w req store) !! d = Some msgs
    /\ (forall dflt, List.last msgs dflt = Turn User recognised)
    /\ o_calls (chat_pcm x w req store)
       = [CallAsr (payload req); CallBridge msgs (announced_rate resp)]
    /\ (forall k, k <> d -> o_store (chat_pcm x w req store) !! k = store !! k).
Proof.
  intros Hmax Hk. unfold chat_pcm.
  destruct (accept w req) as [e | d] eqn:Hacc; [discriminate |].
  destruct (Remote._qwen_asr (asr_post w) (asr_fallback w)) as [e | recognised] eqn:Hasr;
    [discriminate |].
  destruct (_session (system_prompt w) d store) as [[key msgs] store'] eqn:Hsess.
  rewrite Hmax.
  destruct (tts_sample_rate w) as [target |]; [| discriminate].
  destruct (Bridge._qwen_chat_to_realtime_tts_pcm_stream x target (Some keep))
    as [e | [in_sr keep']] eqn:Hb; [discriminate |].
  cbn [o_result o_store o_calls]. intros Hres. injection Hres as <-.
  cbn [announced_rate bridge_rate].
  destruct (session_key _ _ _ _ _ _ Hsess) as [Hkey Hother].
  destruct (accept_device w req d Hacc) as [_ [Hd _]].
  rewrite Hd in Hkey. subst key.
  exists d. eexists. exists recognised.
  split; [reflexivity |]. split; [reflexivity |]. split; [reflexivity |].
  split.
  { revert Hb. unfold Bridge._qwen_chat_to_realtime_tts_pcm_stream,
      Bridge._audio_format_for_pcm.
    destruct (dashscope_installed x); simpl; [| discriminate].
    repeat match goal with
           | |- context [if has_audio_format x ?r then _ else _] =>
               let H := fresh "Hf" in destruct (has_audio_format x r) eqn:H
           end; intros Hb; try discriminate; injection Hb as <- <-; assumption. }
  split; [apply lookup_insert_eq |].
  split.
  { intros dflt. rewrite (asr_text_fixed _ _ _ Hasr).
    apply MemoryFacts.trim_session_last. exact Hk. }
  split; [reflexivity |].
  intros k Hne. rewrite !lookup_insert_ne by congruence. apply Hother. exact Hne.
Qed.

Lemma chat_pcm_starts_bridge_on_stored_turns_witness :
  let r := chat_pcm Samples.x1 Samples.http_world Samples.wav_request ∅ in
  max_turns Samples.http_world = Some 12 /\ 0 <= 12
  /\ o_result r = inr (PcmResponse 16000 16000)
  /\ exists d msgs recognised,
       accept Samples.http_world Samples.wav_request = inr d
       /\ Remote._qwen_asr (asr_post Samples.http_world) (asr_fallback Samples.http_world)
          = inr recognised
       /\ tts_sample_rate Samples.http_world
          = Some (announced_rate (PcmResponse 16000 16000))
       /\ has_audio_format Samples.x1 (bridge_rate (PcmResponse 16000 16000)) = true
       /\ o_store r !! d = Some msgs
       /\ (forall dflt, List.last msgs dflt = Turn User recognised)
       /\ o_calls r
          = [CallAsr (payload Samples.wav_request);
             CallBridge msgs (announced_rate (PcmResponse 16000 16000))]
       /\ (forall k, k <> d -> o_store r !! k = (∅ : gmap text (list turn)) !! k).
Proof.
  assert (H1 : max_turns Samples.http_world = Some 12) by reflexivity.
  assert (H2 : 0 <= 12) by lia.
  assert (H3 : o_result (chat_pcm Samples.x1 Samples.http_world Samples.wav_request ∅)
               = inr (PcmResponse 16000 16000)) by (vm_compute; reflexivity).
  split; [exact H1 |]. split; [exact H2 |]. split; [exact H3 |].
  exact (chat_pcm_starts_bridge_on_stored_turns Samples.x1 Samples.http_world
           Samples.wav_request ∅ 12 (PcmResponse 16000 16000) H1 H2 H3).
Defined.

End HttpFacts.
